(** * Satyam Mall inventory: the issue/receive form and the reports view

    A shallow embedding of [src/components/IssueReceiveForm.tsx] (the
    validation and submission pipeline of [handleSubmit], with the list
    editing operations around it) and of the reports component
    ([filteredTransactions], [stats], [floorSummary], [downloadCSV]),
    followed by the properties of the specification that concern them.
    The searchable dropdown of the form, the location choices of the
    reports and the login form ([src/components/Login.tsx]) are embedded
    with them, and further properties of all of these follow the first.

    [handleSubmit] is given twice: as the call that runs to its end with
    nothing in between, and cut at its [await]s into the steps that the
    edits, effects and renders of the component interleave with. The
    dates and numbers of JavaScript that the reports depend on are given
    by [JSDate] and [JSNumber], and the CSV text is read back by [Csv]. *)

From Stdlib Require Import List String Ascii ZArith NArith Lia Bool Arith.
From Stdlib Require Import Permutation Sorted DecimalString DecimalNat DecimalZ.
From Stdlib Require Import PrimFloat FloatOps SpecFloat.
Import ListNotations.
Local Open Scope string_scope.
Local Open Scope list_scope.

(** ** JavaScript values used by both components *)

(** JavaScript numbers, by the operations the source applies to them.
    The type is left open: the source never inspects the representation,
    and the properties below say what they rely on. The numbers of
    JavaScript themselves are [JSNumber.binary64] below. *)
Class NumberOps (num : Type) : Type := {
  num_zero : num;                     (* the literal 0 *)
  num_add : num -> num -> num;        (* a + b *)
  num_ltb : num -> num -> bool;       (* a < b *)
  Number : string -> num;             (* Number(s) *)
  num_toString : num -> string        (* String(a), as in a template or join *)
}.

(** [new Date(s)]: its time value in milliseconds, [None] for an invalid
    date (time value NaN). [nextDay] is [d.setDate(d.getDate() + 1)] on a
    valid date and [toLocaleDateString] the locale rendering. The dates
    of JavaScript on a given host are [JSDate.ops] below. *)
Class DateOps : Type := {
  parseDate : string -> option Z;
  nextDay : Z -> Z;
  toLocaleDateString : option Z -> string
}.

Module JS.

(** A string is truthy when it is not empty. *)
Definition truthy (s : string) : bool := negb (s =? "").

(** [a || b] on strings. *)
Definition orElse (a b : string) : string := if truthy a then a else b.

(** [arr.includes(x)] on an array of strings. *)
Definition includes (x : string) (arr : list string) : bool :=
  existsb (String.eqb x) arr.

(** [arr.join(sep)]. *)
Definition join (sep : string) (arr : list string) : string :=
  String.concat sep arr.

(** Relational operators on time values: every comparison with NaN is
    false. *)
Definition time_lt (a b : option Z) : bool :=
  match a, b with Some x, Some y => (x <? y)%Z | _, _ => false end.
Definition time_gt (a b : option Z) : bool := time_lt b a.
Definition time_ge (a b : option Z) : bool :=
  match a, b with Some x, Some y => (y <=? x)%Z | _, _ => false end.

(** The text with a double quote on either side. *)
Definition quoteChar : ascii := ascii_of_nat 34.
Definition quoted (s : string) : string :=
  String quoteChar (s ++ String quoteChar "")%string.

(** [new Set(arr)], its elements in insertion order. *)
Definition setAdd (x : string) (set : list string) : list string :=
  if includes x set then set else set ++ [x].
Definition newSet (arr : list string) : list string :=
  fold_left (fun set x => setAdd x set) arr [].

(** Decimal rendering of a count inside a template literal. *)
Definition natToString (n : nat) : string :=
  NilZero.string_of_uint (Nat.to_uint n).

(** *** Array.prototype.sort

    The sort is stable; [cmp a b] is the comparator's result, of which
    only the sign matters ([a] goes first when it is negative, [b] when
    it is positive). Insertion from the right keeps an element in front
    of the later ones it ties with. *)
Section Sort.
Context {A : Type} (cmp : A -> A -> Z).

Fixpoint insert (x : A) (l : list A) : list A :=
  match l with
  | [] => [x]
  | y :: l' => if (cmp x y <=? 0)%Z then x :: y :: l' else y :: insert x l'
  end.

Definition sort (l : list A) : list A := fold_right insert [] l.
End Sort.

(** *** Plain objects used as dictionaries

    An object literal [{}] keyed by strings. Own properties are kept
    in the order [Object.values] enumerates them: keys that are array
    indices first, in ascending numeric order, then every other key in
    the order of its creation. *)
Definition Obj (V : Type) : Type := list (string * V).

Definition isDigit (c : ascii) : bool :=
  let n := nat_of_ascii c in (48 <=? n)%nat && (n <=? 57)%nat.

Fixpoint digitsValue (acc : N) (s : string) : option N :=
  match s with
  | EmptyString => Some acc
  | String c s' =>
      if isDigit c
      then digitsValue (acc * 10 + N.of_nat (nat_of_ascii c - 48)) s'
      else None
  end.

(** The array index a property key denotes, if any: a canonical decimal
    numeral (no leading zero, no sign) of value at most 2^32 - 2. *)
Definition arrayIndex (k : string) : option N :=
  match k with
  | EmptyString => None
  | String c rest =>
      if (Ascii.eqb c "0" && negb (rest =? ""))%bool then None
      else match digitsValue 0 k with
           | Some n => if (n <=? 4294967294)%N then Some n else None
           | None => None
           end
  end.

(** Names every object literal inherits from [Object.prototype]: a
    lookup of one of them on [{}] finds the inherited member, which is
    truthy, instead of an own property. *)
Definition prototypeNames : list string :=
  [ "constructor"; "__defineGetter__"; "__defineSetter__"; "hasOwnProperty";
    "__lookupGetter__"; "__lookupSetter__"; "isPrototypeOf";
    "propertyIsEnumerable"; "toString"; "valueOf"; "__proto__";
    "toLocaleString" ].

Definition inherited (k : string) : bool := includes k prototypeNames.

Section Obj.
Context {V : Type}.

(** The own property [o[k]]. *)
Fixpoint getOwn (k : string) (o : Obj V) : option V :=
  match o with
  | [] => None
  | (k', v) :: o' => if k' =? k then Some v else getOwn k o'
  end.

(** Does a new key [k] come before the existing key [k'] in the
    enumeration order? *)
Definition precedes (k k' : string) : bool :=
  match arrayIndex k, arrayIndex k' with
  | Some n, Some n' => (n <? n')%N
  | Some _, None => true
  | None, _ => false
  end.

Fixpoint place (k : string) (v : V) (o : Obj V) : Obj V :=
  match o with
  | [] => [(k, v)]
  | (k', v') :: o' =>
      if precedes k k' then (k, v) :: (k', v') :: o'
      else (k', v') :: place k v o'
  end.

Fixpoint replace (k : string) (v : V) (o : Obj V) : Obj V :=
  match o with
  | [] => []
  | (k', v') :: o' =>
      if k' =? k then (k', v) :: o' else (k', v') :: replace k v o'
  end.

(** [o[k] = v]: an existing property keeps its place. *)
Definition setOwn (k : string) (v : V) (o : Obj V) : Obj V :=
  match getOwn k o with
  | Some _ => replace k v o
  | None => place k v o
  end.

(** The object without its property [k]; what [o[k] = v] leaves of the
    other properties is stated with it. *)
Definition removeKey (k : string) (o : Obj V) : Obj V :=
  filter (fun p => negb (fst p =? k)) o.

(** [Object.values(o)]. *)
Definition values (o : Obj V) : list V := map snd o.
Definition keys (o : Obj V) : list string := map fst o.
End Obj.

(** *** Strings as sequences of code units *)
Module Str.

(** [s.includes(sub)]: [sub] stands somewhere in [s], code unit after
    code unit. *)
Fixpoint includes (s sub : string) : bool :=
  String.prefix sub s ||
  match s with
  | EmptyString => false
  | String _ s' => includes s' sub
  end.

(** The comparison [Array.prototype.sort] makes when it is given no
    comparator: the strings code unit by code unit, a proper prefix before
    the longer string. *)
Definition defaultCompare (a b : string) : Z :=
  match String.compare a b with
  | Lt => (-1)%Z
  | Eq => 0%Z
  | Gt => 1%Z
  end.

End Str.

End JS.

(** ** Dates ([Date] objects, by their time values)

    A time value is a number of milliseconds from the beginning of 1970
    in UTC. What follows is the part of the language's date arithmetic
    the reports view relies on; what the language leaves to the
    implementation and to the machine it runs on is gathered in a
    [Host]. *)
Module JSDate.

Definition msPerDay : Z := 86400000.
Definition msPerHour : Z := 3600000.
Definition msPerMinute : Z := 60000.
Definition msPerSecond : Z := 1000.

(** [Day(t)], the number of the day a time value falls on. *)
Definition Day (t : Z) : Z := (t / msPerDay)%Z.

Record Host : Type := {
  (* LocalTZA(t, isUTC): the offset of local time from UTC in
     milliseconds, at the UTC time [t] or at the local time [t] *)
  localTZA : Z -> bool -> Z;
  (* Date.parse on a string that is not in the Date Time String Format *)
  fallbackParse : string -> option Z;
  (* toLocaleDateString() of a valid date *)
  localeDateString : Z -> string
}.

(** [LocalTime(t)] and [UTC(t)]. *)
Definition LocalTime (h : Host) (t : Z) : Z := (t + localTZA h t true)%Z.
Definition UTC (h : Host) (t : Z) : Z := (t - localTZA h t false)%Z.

(** The day a time value falls on by the clocks of the host. *)
Definition localDay (h : Host) (t : Z) : Z := Day (LocalTime h t).

(** A host whose clocks keep one offset from UTC all year. *)
Definition steady (h : Host) (offset : Z) : Prop :=
  forall t isUTC, localTZA h t isUTC = offset.

(** *** The calendar *)

Definition isLeapYear (y : Z) : bool :=
  ((y mod 4 =? 0) && (negb (y mod 100 =? 0) || (y mod 400 =? 0)))%Z.

Definition daysInMonth (y m : Z) : Z :=
  if (m =? 2)%Z then (if isLeapYear y then 29 else 28)%Z
  else if ((m =? 4) || (m =? 6) || (m =? 9) || (m =? 11))%Z then 30%Z
  else 31%Z.

(** The number of the day [d] of the month [m] (1 to 12) of the year [y],
    counted from the first of January 1970. *)
Definition daysFromCivil (y m d : Z) : Z :=
  let y := (if m <=? 2 then y - 1 else y)%Z in
  let era := (y / 400)%Z in
  let yoe := (y - era * 400)%Z in
  let mp := ((m + 9) mod 12)%Z in
  let doy := ((153 * mp + 2) / 5 + d - 1)%Z in
  let doe := (yoe * 365 + yoe / 4 - yoe / 100 + doy)%Z in
  (era * 146097 + doe - 719468)%Z.

(** Year, month and day of the month of a day number. *)
Definition civilFromDays (z : Z) : Z * Z * Z :=
  let z := (z + 719468)%Z in
  let era := (z / 146097)%Z in
  let doe := (z - era * 146097)%Z in
  let yoe := ((doe - doe / 1460 + doe / 36524 - doe / 146096) / 365)%Z in
  let doy := (doe - (365 * yoe + yoe / 4 - yoe / 100))%Z in
  let mp := ((5 * doy + 2) / 153)%Z in
  let d := (doy - (153 * mp + 2) / 5 + 1)%Z in
  let m := (if mp <? 10 then mp + 3 else mp - 9)%Z in
  ((yoe + era * 400 + (if m <=? 2 then 1 else 0))%Z, m, d).

(** *** [new Date(string)]

    Of the Date Time String Format the forms [YYYY-MM-DD],
    [YYYY-MM-DDTHH:mm], [YYYY-MM-DDTHH:mm:ss] and
    [YYYY-MM-DDTHH:mm:ss.sss], the last three with or without a final
    [Z], are read here; a date alone is UTC, a date with a time and
    without the [Z] is local time. Every other string, the remaining
    forms of the format and the strings with a field out of its range
    among them, is handed to [fallbackParse]. *)
Definition digit (c : ascii) : option Z :=
  let n := nat_of_ascii c in
  if ((48 <=? n) && (n <=? 57))%nat then Some (Z.of_nat (n - 48)) else None.

Fixpoint digits (n : nat) (acc : Z) (s : string) : option (Z * string) :=
  match n with
  | O => Some (acc, s)
  | S n' =>
      match s with
      | String c s' =>
          match digit c with
          | Some d => digits n' (acc * 10 + d)%Z s'
          | None => None
          end
      | EmptyString => None
      end
  end.

(** [YYYY-MM-DD] at the head of a string: its day number and the rest of
    the string. *)
Definition readDate (s : string) : option (Z * string) :=
  match digits 4 0 s with
  | Some (y, String "-" s1) =>
      match digits 2 0 s1 with
      | Some (m, String "-" s2) =>
          match digits 2 0 s2 with
          | Some (d, rest) =>
              if ((1 <=? m) && (m <=? 12) && (1 <=? d)
                  && (d <=? daysInMonth y m))%Z
              then Some (daysFromCivil y m d, rest)
              else None
          | None => None
          end
      | _ => None
      end
  | _ => None
  end.

(** [HH:mm], [HH:mm:ss] or [HH:mm:ss.sss] at the head of a string: the
    milliseconds since midnight and the rest of the string. *)
Definition readTime (s : string) : option (Z * string) :=
  match digits 2 0 s with
  | Some (hh, String ":" s1) =>
      match digits 2 0 s1 with
      | Some (mm, rest1) =>
          if ((hh <=? 23) && (mm <=? 59))%Z then
            let hm := (hh * msPerHour + mm * msPerMinute)%Z in
            match rest1 with
            | String ":" s2 =>
                match digits 2 0 s2 with
                | Some (ss, rest2) =>
                    if (ss <=? 59)%Z then
                      match rest2 with
                      | String "." s3 =>
                          match digits 3 0 s3 with
                          | Some (ms, rest3) =>
                              Some ((hm + ss * msPerSecond + ms)%Z, rest3)
                          | None => None
                          end
                      | _ => Some ((hm + ss * msPerSecond)%Z, rest2)
                      end
                    else None
                | None => None
                end
            | _ => Some (hm, rest1)
            end
          else None
      | None => None
      end
  | _ => None
  end.

(** The time value of [new Date(s)], [None] for an invalid date. *)
Definition parse (h : Host) (s : string) : option Z :=
  match readDate s with
  | Some (day, EmptyString) => Some (day * msPerDay)%Z
  | Some (day, String "T" s1) =>
      match readTime s1 with
      | Some (ms, EmptyString) => Some (UTC h (day * msPerDay + ms))
      | Some (ms, String "Z" EmptyString) => Some (day * msPerDay + ms)%Z
      | _ => fallbackParse h s
      end
  | _ => fallbackParse h s
  end.

(** [d.setDate(d.getDate() + 1)] on a valid date. [getDate] is the day
    of the month in local time, and [setDate] builds the local time of
    the given day of the same month at the same time of day, a day beyond
    the end of the month counting into the next: one day later in local
    time, of which the time value is then taken. (That a time value of
    more than 8.64e15 milliseconds is not a date is left out.) *)
Definition nextDay (h : Host) (t : Z) : Z :=
  UTC h (LocalTime h t + msPerDay).

Definition toLocaleDateString (h : Host) (t : option Z) : string :=
  match t with
  | Some t => localeDateString h t
  | None => "Invalid Date"
  end.

Definition ops (h : Host) : DateOps :=
  Build_DateOps (parse h) (nextDay h) (toLocaleDateString h).

End JSDate.

(** ** Numbers (binary64, as the language has them)

    The numbers of the language are the binary64 floating-point numbers,
    which are the kernel's [float]: [+] is [PrimFloat.add] and [<] is
    [PrimFloat.ltb]. What follows is the reading of a number off a string
    ([Number(s)], which is [StringToNumber]) and its writing
    ([String(x)], [Number::toString] in base ten), both by exact integer
    arithmetic. A literal of more than twenty significant digits is
    rounded as exactly as a shorter one, which the language allows and
    the common implementations do. *)
Module JSNumber.

(** *** The Number value of a rational *)

(** [num / den], for positive [num] and [den], rounded to the nearest
    binary64 number, to the one with the even significand when it lies
    half way between two. *)
Definition floorLog2 (num den : Z) : Z :=
  let est := (Z.log2 num - Z.log2 den)%Z in
  (* 2^est <= num/den * 2 and num/den < 2^(est+1) *)
  if (num * 2 ^ Z.max (- est) 0 <? den * 2 ^ Z.max est 0)%Z
  then (est - 1)%Z else est.

Definition roundRatio (sign : bool) (num den : Z) : float :=
  if (num =? 0)%Z then (if sign then PrimFloat.neg_zero else PrimFloat.zero)
  else
    let e2 := floorLog2 num den in
    let p := Z.max (e2 - 52) (-1074) in
    (* num / den = (n1 / d1) * 2^p *)
    let n1 := (num * 2 ^ Z.max (- p) 0)%Z in
    let d1 := (den * 2 ^ Z.max p 0)%Z in
    let q := (n1 / d1)%Z in
    let r := (n1 mod d1)%Z in
    let q := if (d1 <? 2 * r)%Z || ((2 * r =? d1)%Z && Z.odd q)
             then (q + 1)%Z else q in
    if (q =? 0)%Z then (if sign then PrimFloat.neg_zero else PrimFloat.zero)
    else if (1024 <=? Z.log2 q + p)%Z
    then (if sign then PrimFloat.neg_infinity else PrimFloat.infinity)
    else SF2Prim (S754_finite sign (Z.to_pos q) p).

(** *** [Number(string)] *)

Definition isWhiteSpace (c : ascii) : bool :=
  let n := nat_of_ascii c in
  ((9 <=? n) && (n <=? 13) || (n =? 32) || (n =? 160))%nat.

Fixpoint trimStart (s : string) : string :=
  match s with
  | String c s' => if isWhiteSpace c then trimStart s' else s
  | EmptyString => EmptyString
  end.

Fixpoint allWhiteSpace (s : string) : bool :=
  match s with
  | String c s' => isWhiteSpace c && allWhiteSpace s'
  | EmptyString => true
  end.

Definition digitOf (base : Z) (c : ascii) : option Z :=
  let n := Z.of_nat (nat_of_ascii c) in
  let d := if ((48 <=? n) && (n <=? 57))%Z then (n - 48)%Z
           else if ((97 <=? n) && (n <=? 102))%Z then (n - 87)%Z
           else if ((65 <=? n) && (n <=? 70))%Z then (n - 55)%Z
           else 99%Z in
  if (d <? base)%Z then Some d else None.

(** A run of digits of the given base at the head of a string: how many
    they are, their value and the rest of the string. *)
Fixpoint readDigits (base : Z) (count acc : Z) (s : string)
  : Z * Z * string :=
  match s with
  | String c s' =>
      match digitOf base c with
      | Some d => readDigits base (count + 1) (acc * base + d) s'
      | None => (count, acc, s)
      end
  | EmptyString => (count, acc, s)
  end.

(** The exponent part, if there is one: its value and the rest. *)
Definition readExponent (s : string) : option (Z * string) :=
  match s with
  | String c s1 =>
      if (Ascii.eqb c "e" || Ascii.eqb c "E")%bool then
        let '(sign, s2) :=
          match s1 with
          | String "+" s2 => (1%Z, s2)
          | String "-" s2 => ((-1)%Z, s2)
          | _ => (1%Z, s1)
          end in
        let '(count, v, rest) := readDigits 10 0 0 s2 in
        if (count =? 0)%Z then None else Some ((sign * v)%Z, rest)
      else Some (0%Z, s)
  | EmptyString => Some (0%Z, s)
  end.

(** An unsigned decimal literal followed by white space only. *)
Definition readUnsigned (sign : bool) (s : string) : float :=
  if String.prefix "Infinity" s then
    if allWhiteSpace (substring 8 (String.length s - 8) s)
    then (if sign then PrimFloat.neg_infinity else PrimFloat.infinity)
    else PrimFloat.nan
  else
    let '(ci, vi, s1) := readDigits 10 0 0 s in
    let '(cf, vf, s2) :=
      match s1 with
      | String "." s' => readDigits 10 0 vi s'
      | _ => (0%Z, vi, s1)
      end in
    let dotOnly :=
      match s1 with
      | String "." _ => true
      | _ => false
      end in
    if ((ci =? 0) && (cf =? 0))%Z then PrimFloat.nan
    else
      match readExponent s2 with
      | Some (e, rest) =>
          if allWhiteSpace rest then
            let e10 := (e - cf)%Z in
            roundRatio sign (vf * 10 ^ Z.max e10 0) (10 ^ Z.max (- e10) 0)
          else PrimFloat.nan
      | None => PrimFloat.nan
      end.

Definition readRadix (base : Z) (s : string) : float :=
  let '(count, v, rest) := readDigits base 0 0 s in
  if ((0 <? count)%Z && allWhiteSpace rest)%bool
  then roundRatio false v 1 else PrimFloat.nan.

Definition Number (s : string) : float :=
  match trimStart s with
  | EmptyString => PrimFloat.zero
  | String "+" s' => readUnsigned false s'
  | String "-" s' => readUnsigned true s'
  | String "0" (String c s') =>
      if (Ascii.eqb c "x" || Ascii.eqb c "X")%bool then readRadix 16 s'
      else if (Ascii.eqb c "o" || Ascii.eqb c "O")%bool then readRadix 8 s'
      else if (Ascii.eqb c "b" || Ascii.eqb c "B")%bool then readRadix 2 s'
      else readUnsigned false (trimStart s)
  | s' => readUnsigned false s'
  end.

(** *** [String(number)] *)

Definition natText (z : Z) : string :=
  NilZero.string_of_uint (N.to_uint (Z.to_N z)).

Fixpoint zeros (n : nat) : string :=
  match n with
  | O => EmptyString
  | S n' => String "0" (zeros n')
  end.

(** The decimal [s * 10^t] compared with the rational [v * 2^sh]. *)
Definition compareDecimal (s t v sh : Z) : comparison :=
  Z.compare (s * 10 ^ Z.max t 0 * 2 ^ Z.max (- sh) 0)
            (v * 2 ^ Z.max sh 0 * 10 ^ Z.max (- t) 0).

(** Does the decimal [s * 10^t] round to the number [m * 2^e]? It does
    when it lies nearer to that number than to its two neighbours, and
    when it lies half way and [m] is even. *)
Definition roundsTo (m e s t : Z) : bool :=
  let low := if ((m =? 2 ^ 52) && (-1074 <? e))%Z
             then (4 * m - 1)%Z else (4 * m - 2)%Z in
  let high := (4 * m + 2)%Z in
  let above := match compareDecimal s t low (e - 2) with
               | Gt => true
               | Eq => Z.even m
               | Lt => false
               end in
  let below := match compareDecimal s t high (e - 2) with
               | Lt => true
               | Eq => Z.even m
               | Gt => false
               end in
  above && below.

(** The least [n] from [n0] on with [m * 2^e < 10^n]. *)
Fixpoint decimalExponent (fuel : nat) (m e n0 : Z) : Z :=
  match fuel with
  | O => n0
  | S fuel' =>
      match compareDecimal 1 n0 m e with
      | Gt => n0
      | _ => decimalExponent fuel' m e (n0 + 1)
      end
  end.

(** The digits [s], [k] of them, and the exponent [n] of the shortest
    decimal [s * 10^(n - k)] that rounds to [m * 2^e], the nearest to it
    of that length, tried from the length [k] on. *)
Fixpoint shortest (fuel : nat) (m e n k : Z) : Z * Z * Z :=
  let t := (n - k)%Z in
  let down :=
    ((m * 2 ^ Z.max e 0 * 10 ^ Z.max (- t) 0)
     / (10 ^ Z.max t 0 * 2 ^ Z.max (- e) 0))%Z in
  let up := (down + 1)%Z in
  let okDown := roundsTo m e down t in
  let okUp := roundsTo m e up t in
  let pick (s : Z) :=
    if (s =? 10 ^ k)%Z then (10 ^ (k - 1), k, n + 1)%Z else (s, k, n) in
  match fuel with
  | O => pick down
  | S fuel' =>
      if okDown && okUp then
        match compareDecimal (2 * down + 1) t (2 * m) e with
        | Gt => pick down
        | Lt => pick up
        | Eq => if Z.even down then pick down else pick up
        end
      else if okDown then pick down
      else if okUp then pick up
      else shortest fuel' m e n (k + 1)
  end.

(** The text of [s] with a point after its first [i] digits. *)
Definition pointAfter (i : nat) (digits : string) : string :=
  (substring 0 i digits ++ "."
   ++ substring i (String.length digits - i) digits)%string.

Definition format (s k n : Z) : string :=
  let digits := natText s in
  if ((k <=? n) && (n <=? 21))%Z then
    (digits ++ zeros (Z.to_nat (n - k)))%string
  else if ((0 <? n) && (n <=? 21))%Z then pointAfter (Z.to_nat n) digits
  else if ((-6 <? n) && (n <=? 0))%Z then
    ("0." ++ zeros (Z.to_nat (- n)) ++ digits)%string
  else
    let e := (n - 1)%Z in
    let exponent :=
      ((if (e <? 0)%Z then "e-" else "e+") ++ natText (Z.abs e))%string in
    if (k =? 1)%Z then (digits ++ exponent)%string
    else (pointAfter 1 digits ++ exponent)%string.

Definition toString (x : float) : string :=
  match Prim2SF x with
  | S754_nan => "NaN"
  | S754_zero _ => "0"
  | S754_infinity sign => if sign then "-Infinity" else "Infinity"
  | S754_finite sign m e =>
      let m := Z.pos m in
      let n := decimalExponent 700 m e (-330) in
      let '(s, k, n) := shortest 20 m e n 1 in
      ((if sign then "-" else "") ++ format s k n)%string
  end.

(** The numbers of the language as an instance of [NumberOps]. *)
Definition binary64 : NumberOps float :=
  Build_NumberOps float PrimFloat.zero PrimFloat.add PrimFloat.ltb Number
    toString.

End JSNumber.

(** ** The issue/receive form ([IssueReceiveForm.tsx]) *)

(** Modelled from the spec: the declarations of [../types], which are not
    part of the sources at hand. [TransactionType] is the operation kind
    (Issue or Receive); an [InventoryItem] of the snapshot carries a name,
    its current quantity and a unit. *)
Inductive TransactionType : Type := ISSUE | RECEIVE.

Definition TransactionType_eqb (a b : TransactionType) : bool :=
  match a, b with
  | ISSUE, ISSUE | RECEIVE, RECEIVE => true
  | _, _ => false
  end.

Record InventoryItem (num : Type) : Type := {
  inv_name : string;
  inv_quantity : num;
  inv_unit : string
}.
Arguments inv_name {num} _.
Arguments inv_quantity {num} _.
Arguments inv_unit {num} _.

(** The argument of [submitTransaction]. *)
Record TransactionRequest (num : Type) : Type := {
  req_type : TransactionType;
  req_itemName : string;
  req_quantity : num;
  req_unit : string;
  req_location : string;
  req_personName : string;
  req_notes : string;
  req_fileUrl : string
}.
Arguments req_type {num} _.
Arguments req_itemName {num} _.
Arguments req_quantity {num} _.
Arguments req_unit {num} _.
Arguments req_location {num} _.
Arguments req_personName {num} _.
Arguments req_notes {num} _.
Arguments req_fileUrl {num} _.

(** The result of [uploadFileToDrive]; an absent optional field reads as
    the empty string, which is as falsy as [undefined]. *)
Record UploadResult : Type := {
  up_success : bool;
  up_fileUrl : string;
  up_error : string
}.

Module Form.

Record ItemEntry : Type := {
  id : nat;
  itemName : string;
  quantity : string;
  unit : string
}.

Record CommonData : Type := {
  location : string;
  personName : string;
  notes : string
}.

Inductive MessageType : Type := success | error.

Record Message : Type := {
  msg_type : MessageType;
  text : string
}.

Inductive Field : Type := F_itemName | F_quantity | F_unit.

(** [{ ...item, [field]: value }] *)
Definition setField (item : ItemEntry) (field : Field) (value : string)
  : ItemEntry :=
  match field with
  | F_itemName => {| id := id item; itemName := value;
                     quantity := quantity item; unit := unit item |}
  | F_quantity => {| id := id item; itemName := itemName item;
                     quantity := value; unit := unit item |}
  | F_unit => {| id := id item; itemName := itemName item;
                 quantity := quantity item; unit := value |}
  end.

(** [item[field]] *)
Definition getField (item : ItemEntry) (field : Field) : string :=
  match field with
  | F_itemName => itemName item
  | F_quantity => quantity item
  | F_unit => unit item
  end.

(** [{ id: nextId++, itemName: '', quantity: '', unit: '' }] *)
Definition blankItem (i : nat) : ItemEntry :=
  {| id := i; itemName := ""; quantity := ""; unit := "" |}.

Definition blankCommon : CommonData :=
  {| location := ""; personName := ""; notes := "" |}.

Section Component.
Context {num : Type} {NO : NumberOps num}.
(** [File] is the browser's file object; [World] is whatever the two
    collaborators of [../services/sheetService] read and change. *)
Context {File World : Type}.
Variable submitTransaction :
  TransactionRequest num -> World -> bool * World.
Variable uploadFileToDrive :
  File -> string -> World -> UploadResult * World.

(** The component's state hooks, with the module-level counter
    [nextId]. *)
Record State : Type := {
  loading : bool;
  uploadingFile : bool;
  items : list ItemEntry;
  commonData : CommonData;
  selectedFile : option File;
  filePreview : option string;
  message : option Message;
  progress : option (nat * nat);
  nextId : nat
}.

Definition set_loading (b : bool) (s : State) : State :=
  {| loading := b; uploadingFile := uploadingFile s; items := items s;
     commonData := commonData s; selectedFile := selectedFile s;
     filePreview := filePreview s; message := message s;
     progress := progress s; nextId := nextId s |}.
Definition set_uploadingFile (b : bool) (s : State) : State :=
  {| loading := loading s; uploadingFile := b; items := items s;
     commonData := commonData s; selectedFile := selectedFile s;
     filePreview := filePreview s; message := message s;
     progress := progress s; nextId := nextId s |}.
Definition set_items (l : list ItemEntry) (s : State) : State :=
  {| loading := loading s; uploadingFile := uploadingFile s; items := l;
     commonData := commonData s; selectedFile := selectedFile s;
     filePreview := filePreview s; message := message s;
     progress := progress s; nextId := nextId s |}.
Definition set_commonData (c : CommonData) (s : State) : State :=
  {| loading := loading s; uploadingFile := uploadingFile s;
     items := items s; commonData := c; selectedFile := selectedFile s;
     filePreview := filePreview s; message := message s;
     progress := progress s; nextId := nextId s |}.
Definition set_selectedFile (f : option File) (s : State) : State :=
  {| loading := loading s; uploadingFile := uploadingFile s;
     items := items s; commonData := commonData s; selectedFile := f;
     filePreview := filePreview s; message := message s;
     progress := progress s; nextId := nextId s |}.
Definition set_filePreview (p : option string) (s : State) : State :=
  {| loading := loading s; uploadingFile := uploadingFile s;
     items := items s; commonData := commonData s;
     selectedFile := selectedFile s; filePreview := p;
     message := message s; progress := progress s; nextId := nextId s |}.
Definition set_message (m : option Message) (s : State) : State :=
  {| loading := loading s; uploadingFile := uploadingFile s;
     items := items s; commonData := commonData s;
     selectedFile := selectedFile s; filePreview := filePreview s;
     message := m; progress := progress s; nextId := nextId s |}.
Definition set_progress (p : option (nat * nat)) (s : State) : State :=
  {| loading := loading s; uploadingFile := uploadingFile s;
     items := items s; commonData := commonData s;
     selectedFile := selectedFile s; filePreview := filePreview s;
     message := message s; progress := p; nextId := nextId s |}.
Definition set_nextId (n : nat) (s : State) : State :=
  {| loading := loading s; uploadingFile := uploadingFile s;
     items := items s; commonData := commonData s;
     selectedFile := selectedFile s; filePreview := filePreview s;
     message := message s; progress := progress s; nextId := n |}.

(** [useState] initial values; the counter starts at 1. *)
Definition initialState : State :=
  {| loading := false; uploadingFile := false; items := [blankItem 1];
     commonData := blankCommon; selectedFile := None; filePreview := None;
     message := None; progress := None; nextId := 2 |}.

(** What the surroundings of the component can observe while
    [handleSubmit] runs, in the order it happens: the messages and
    progress values it publishes, the calls of the two collaborators
    with what they answered, and the calls of [onSuccess]. *)
Inductive Event : Type :=
| EvMessage (m : option Message)
| EvProgress (p : option (nat * nat))
| EvUpload (file : File) (nameHint : string) (result : UploadResult)
| EvSubmit (request : TransactionRequest num) (ok : bool)
| EvOnSuccess.

Record Sys : Type := {
  form : State;
  world : World;
  trace : list Event
}.

(** *** A state monad over [Sys] *)
Definition M (A : Type) : Type := Sys -> A * Sys.
Definition ret {A} (a : A) : M A := fun s => (a, s).
Definition bind {A B} (c : M A) (k : A -> M B) : M B :=
  fun s => let (a, s') := c s in k a s'.

Notation "x <- c ;; k" := (bind c (fun x => k))
  (at level 61, c at next level, right associativity).
Notation "c ;; k" := (bind c (fun _ => k))
  (at level 61, right associativity).

Definition update (f : State -> State) : M Datatypes.unit :=
  fun s => (tt, {| form := f (form s); world := world s;
                   trace := trace s |}).
Definition emit (e : Event) : M Datatypes.unit :=
  fun s => (tt, {| form := form s; world := world s;
                   trace := trace s ++ [e] |}).
Definition freshId : M nat :=
  fun s => (nextId (form s),
            {| form := set_nextId (S (nextId (form s))) (form s);
               world := world s; trace := trace s |}).

Definition setLoading (b : bool) : M Datatypes.unit := update (set_loading b).
Definition setUploadingFile (b : bool) : M Datatypes.unit :=
  update (set_uploadingFile b).
Definition setItems (f : list ItemEntry -> list ItemEntry) : M Datatypes.unit :=
  update (fun s => set_items (f (items s)) s).
Definition setCommonData (c : CommonData) : M Datatypes.unit :=
  update (set_commonData c).
Definition setMessage (m : option Message) : M Datatypes.unit :=
  update (set_message m) ;; emit (EvMessage m).
Definition setProgress (p : option (nat * nat)) : M Datatypes.unit :=
  update (set_progress p) ;; emit (EvProgress p).
Definition onSuccess : M Datatypes.unit := emit EvOnSuccess.

(** [await submitTransaction(request)] *)
Definition callSubmit (request : TransactionRequest num) : M bool :=
  fun s =>
    let (ok, w) := submitTransaction request (world s) in
    (ok, {| form := form s; world := w;
            trace := trace s ++ [EvSubmit request ok] |}).

(** [await uploadFileToDrive(file, nameHint)] *)
Definition callUpload (file : File) (nameHint : string)
  : M UploadResult :=
  fun s =>
    let (r, w) := uploadFileToDrive file nameHint (world s) in
    (r, {| form := form s; world := w;
           trace := trace s ++ [EvUpload file nameHint r] |}).

(** *** Editing the item list *)

Definition updateItem (i : nat) (field : Field) (value : string)
  : M Datatypes.unit :=
  setItems (map (fun item =>
    if (id item =? i)%nat then setField item field value else item)).

Definition addItem : M Datatypes.unit :=
  i <- freshId ;;
  setItems (fun prev => prev ++ [blankItem i]).

Definition removeItem (i : nat) : M Datatypes.unit :=
  fun s =>
    if (List.length (items (form s)) <=? 1)%nat then ret tt s
    else setItems (filter (fun item => negb (id item =? i)%nat)) s.

Definition removeFile : M Datatypes.unit :=
  update (set_selectedFile None) ;;
  update (set_filePreview None).

(** [handleFileSelect] once the browser has delivered the file and,
    for an image, its data URL. *)
Definition handleFileSelect (file : File) (preview : option string)
  : M Datatypes.unit :=
  update (set_selectedFile (Some file)) ;;
  update (set_filePreview preview).

(** The effect that copies the unit of the selected inventory item
    into an issue row. *)
Definition autoFillUnit (type : TransactionType)
    (inventory : list (InventoryItem num)) : M Datatypes.unit :=
  match type with
  | ISSUE =>
      setItems (map (fun item =>
        if JS.truthy (itemName item) then
          match find (fun i => inv_name i =? itemName item) inventory with
          | Some inv =>
              if negb (unit item =? inv_unit inv)
              then setField item F_unit (inv_unit inv) else item
          | None => item
          end
        else item))
  | RECEIVE => ret tt
  end.

(** The first entry of the effect's dependency list, by which a change
    of a name is noticed: [items.map(i => i.itemName).join(',')]. *)
Definition unitEffectKey (l : list ItemEntry) : string :=
  JS.join "," (map itemName l).

(** [disabled={loading || uploadingFile}] of the submit button. *)
Definition submitDisabled (f : State) : bool :=
  loading f || uploadingFile f.

(** *** Validation (the first loop of [handleSubmit]) *)

Inductive ValidationError : Type :=
| MissingField
| UnknownItem (name : string)
| InsufficientStock (name : string) (selectedItem : InventoryItem num).

Definition errorText (e : ValidationError) : string :=
  match e with
  | MissingField => "Please fill in all item fields."
  | UnknownItem name =>
      (JS.quoted name ++ " is not a valid item.")%string
  | InsufficientStock name selectedItem =>
      ("Insufficient stock for " ++ JS.quoted name ++ "! Only "
       ++ num_toString (inv_quantity selectedItem) ++ " "
       ++ inv_unit selectedItem ++ " available.")%string
  end.

(** The body of the loop for one item: [Some] is the error it
    reports before returning. *)
Definition validateItem (type : TransactionType)
    (inventory : list (InventoryItem num)) (item : ItemEntry)
  : option ValidationError :=
  if negb (JS.truthy (itemName item)) || negb (JS.truthy (quantity item))
     || negb (JS.truthy (unit item))
  then Some MissingField
  else
    match type with
    | ISSUE =>
        match find (fun i => inv_name i =? itemName item) inventory with
        | None => Some (UnknownItem (itemName item))
        | Some selectedItem =>
            if num_ltb (inv_quantity selectedItem) (Number (quantity item))
            then Some (InsufficientStock (itemName item) selectedItem)
            else None
        end
    | RECEIVE => None
    end.

Fixpoint validateItems (type : TransactionType)
    (inventory : list (InventoryItem num)) (l : list ItemEntry)
  : option ValidationError :=
  match l with
  | [] => None
  | item :: rest =>
      match validateItem type inventory item with
      | Some e => Some e
      | None => validateItems type inventory rest
      end
  end.

(** *** Submission (the second loop of [handleSubmit]) *)

Definition mkRequest (type : TransactionType) (common : CommonData)
    (uploadedFileUrl : string) (i : nat) (item : ItemEntry)
  : TransactionRequest num :=
  {| req_type := type;
     req_itemName := itemName item;
     req_quantity := Number (quantity item);
     req_unit := unit item;
     req_location := location common;
     req_personName := personName common;
     req_notes := notes common;
     req_fileUrl := if (i =? 0)%nat then uploadedFileUrl else "" |}.

(** The loop from index [i] on, over the items not yet visited. *)
Fixpoint submitLoop (type : TransactionType) (common : CommonData)
    (uploadedFileUrl : string) (total : nat) (i : nat)
    (rest : list ItemEntry) (successCount : nat)
    (failedItems : list string) : M (nat * list string) :=
  match rest with
  | [] => ret (successCount, failedItems)
  | item :: rest' =>
      setProgress (Some (i + 1, total)) ;;
      ok <- callSubmit (mkRequest type common uploadedFileUrl i item) ;;
      if ok : bool
      then submitLoop type common uploadedFileUrl total (S i) rest'
             (S successCount) failedItems
      else submitLoop type common uploadedFileUrl total (S i) rest'
             successCount (failedItems ++ [itemName item])
  end.

Definition uploadFailedText : string :=
  "File upload failed. Transaction will continue without file.".

(** [fileResult.success && fileResult.fileUrl] *)
Definition uploadOk (r : UploadResult) : bool :=
  up_success r && JS.truthy (up_fileUrl r).

(** The message set when the upload did not deliver a URL. *)
Definition uploadWarning (r : UploadResult) : Message :=
  {| msg_type := error; text := JS.orElse (up_error r) uploadFailedText |}.

(** The optional upload before the submissions; returns
    [uploadedFileUrl]. *)
Definition uploadStep (type : TransactionType) (l : list ItemEntry)
    (file : option File) : M string :=
  match type, file with
  | RECEIVE, Some f =>
      setUploadingFile true ;;
      fileResult <- callUpload f (JS.join "_" (map itemName l)) ;;
      setUploadingFile false ;;
      if uploadOk fileResult
      then ret (up_fileUrl fileResult)
      else
        setMessage (Some (uploadWarning fileResult)) ;;
        ret ""
  | _, _ => ret ""
  end.

Definition successMessage (successCount : nat) : Message :=
  {| msg_type := success;
     text := ("All " ++ JS.natToString successCount
              ++ " item(s) recorded successfully!")%string |}.

Definition partialMessage (successCount : nat) (failedItems : list string)
  : Message :=
  {| msg_type := error;
     text := (JS.natToString successCount ++ " item(s) saved, but failed: "
              ++ JS.join ", " failedItems)%string |}.

Definition failureMessage : Message :=
  {| msg_type := error;
     text := "Failed to record transactions. Check connection." |}.

(** The classification of the outcome once the loop is over. *)
Definition finish (successCount : nat) (failedItems : list string)
  : M Datatypes.unit :=
  if (List.length failedItems =? 0)%nat then
    setMessage (Some (successMessage successCount)) ;;
    i <- freshId ;;
    setItems (fun _ => [blankItem i]) ;;
    setCommonData blankCommon ;;
    removeFile ;;
    onSuccess
  else if (0 <? successCount)%nat then
    setMessage (Some (partialMessage successCount failedItems)) ;;
    setItems (filter (fun item =>
      JS.includes (itemName item) failedItems)) ;;
    onSuccess
  else
    setMessage (Some failureMessage).

(** [handleSubmit], run from a render whose [items], [commonData] and
    [selectedFile] are those of the current state, as the call that
    nothing interrupts: no other handler of the component runs while it
    awaits a collaborator, so that the state its functional updates read
    is the state it left. [handleSubmitStart] and [handleSubmitResume]
    below are the same call cut at its [await]s. *)
Definition handleSubmit (type : TransactionType)
    (inventory : list (InventoryItem num)) : M Datatypes.unit :=
  fun s0 =>
  let l := items (form s0) in
  let common := commonData (form s0) in
  let file := selectedFile (form s0) in
  (setLoading true ;;
   setMessage None ;;
   match validateItems type inventory l with
   | Some e =>
       setMessage (Some {| msg_type := error; text := errorText e |}) ;;
       setLoading false
   | None =>
       uploadedFileUrl <- uploadStep type l file ;;
       setProgress (Some (0, List.length l)) ;;
       r <- submitLoop type common uploadedFileUrl (List.length l) 0 l 0 [] ;;
       setProgress None ;;
       finish (fst r) (snd r) ;;
       setLoading false
   end) s0.

(** *** Reading a call off its trace

    The definitions from here to the state machine translate nothing of
    the source: they name what a call leaves in the trace and in the
    form, for the statements further down. *)

(** The events one call of [handleSubmit] adds to the trace. *)
Definition emitted (type : TransactionType)
    (inventory : list (InventoryItem num)) (s : Sys) : list Event :=
  skipn (List.length (trace s))
        (trace (snd (handleSubmit type inventory s))).

(** The answers of [submitTransaction], the requests it was given,
    the uploads and the progress values among some events, each in
    order of occurrence. *)
Definition outcomes (evs : list Event) : list bool :=
  flat_map (fun e => match e with EvSubmit _ ok => [ok] | _ => [] end) evs.
Definition requests (evs : list Event) : list (TransactionRequest num) :=
  flat_map (fun e => match e with EvSubmit r _ => [r] | _ => [] end) evs.
Definition uploads (evs : list Event) : list (File * string * UploadResult) :=
  flat_map (fun e =>
    match e with EvUpload f h r => [(f, h, r)] | _ => [] end) evs.
Definition progressValues (evs : list Event) : list (option (nat * nat)) :=
  flat_map (fun e => match e with EvProgress p => [p] | _ => [] end) evs.
Definition onSuccessCalls (evs : list Event) : nat :=
  List.length (filter (fun e =>
    match e with EvOnSuccess => true | _ => false end) evs).

(** The events of the second loop, given the answers of the sink. *)
Fixpoint loopEvents (type : TransactionType) (common : CommonData)
    (url : string) (total i : nat) (rest : list ItemEntry)
    (outs : list bool) : list Event :=
  match rest, outs with
  | item :: rest', ok :: outs' =>
      EvProgress (Some (i + 1, total))
      :: EvSubmit (mkRequest type common url i item) ok
      :: loopEvents type common url total (S i) rest' outs'
  | _, _ => []
  end.

(** The entries whose submission was answered [false]. *)
Fixpoint failedEntries (rest : list ItemEntry) (outs : list bool)
  : list ItemEntry :=
  match rest, outs with
  | item :: rest', ok :: outs' =>
      if ok then failedEntries rest' outs'
      else item :: failedEntries rest' outs'
  | _, _ => []
  end.

Definition successes (outs : list bool) : nat :=
  List.length (filter (fun b : bool => b) outs).

(** What [finish] and the last [setLoading] publish and leave behind,
    read off their three branches. *)
Definition finishEvents (successCount : nat) (failedItems : list string)
  : list Event :=
  if (List.length failedItems =? 0)%nat then
    [EvMessage (Some (successMessage successCount)); EvOnSuccess]
  else if (0 <? successCount)%nat then
    [EvMessage (Some (partialMessage successCount failedItems)); EvOnSuccess]
  else [EvMessage (Some failureMessage)].

Definition finishForm (successCount : nat) (failedItems : list string)
    (f : State) : State :=
  if (List.length failedItems =? 0)%nat then
    set_loading false
      (set_filePreview None (set_selectedFile None
        (set_commonData blankCommon
          (set_items [blankItem (nextId f)]
            (set_nextId (S (nextId f))
              (set_message (Some (successMessage successCount)) f))))))
  else if (0 <? successCount)%nat then
    set_loading false
      (set_items
         (filter (fun item => JS.includes (itemName item) failedItems)
                 (items f))
         (set_message (Some (partialMessage successCount failedItems)) f))
  else set_loading false (set_message (Some failureMessage) f).

(** Every event of a call on a batch that passes validation, given what
    the upload step published and what the sink answered. *)
Definition validEvents (type : TransactionType) (common : CommonData)
    (l : list ItemEntry) (upEv : list Event) (url : string)
    (outs : list bool) : list Event :=
  EvMessage None :: upEv
  ++ EvProgress (Some (0, List.length l))
  :: loopEvents type common url (List.length l) 0 l outs
  ++ EvProgress None
  :: finishEvents (successes outs) (map itemName (failedEntries l outs)).

(** The sink called on the requests one after the other, each call
    starting from the world the previous one left. *)
Fixpoint sinkRun (reqs : list (TransactionRequest num)) (w : World)
  : list bool * World :=
  match reqs with
  | [] => ([], w)
  | r :: reqs' =>
      let (ok, w1) := submitTransaction r w in
      let (oks, w2) := sinkRun reqs' w1 in
      (ok :: oks, w2)
  end.

(** The requests of the rows [rest], the first of which has index [i]. *)
Definition requestsFrom (type : TransactionType) (common : CommonData)
    (url : string) (i : nat) (rest : list ItemEntry)
  : list (TransactionRequest num) :=
  map (fun p => mkRequest type common url (fst p) (snd p))
      (combine (seq i (List.length rest)) rest).

(** The names of the requests answered [false], in order. *)
Definition failedNames (evs : list Event) : list string :=
  flat_map (fun e =>
    match e with EvSubmit r false => [req_itemName r] | _ => [] end) evs.

(** The progress values and the submissions among some events, in the
    order they happened. *)
Definition pipelineEvents (evs : list Event) : list Event :=
  filter (fun e =>
    match e with EvProgress _ | EvSubmit _ _ => true | _ => false end) evs.

(** The position of the first event that satisfies [p]. *)
Fixpoint indexOf (p : Event -> bool) (evs : list Event) : option nat :=
  match evs with
  | [] => None
  | e :: evs' => if p e then Some 0 else option_map S (indexOf p evs')
  end.

Definition isProgress (v : nat * nat) (e : Event) : bool :=
  match e with
  | EvProgress (Some (c, t)) => (c =? fst v)%nat && (t =? snd v)%nat
  | _ => false
  end.

Definition isSubmitOf (name : string) (e : Event) : bool :=
  match e with
  | EvSubmit r _ => req_itemName r =? name
  | _ => false
  end.

(** The fields no step before the classification writes. *)
Definition sameData (f f1 : State) : Prop :=
  items f1 = items f /\ commonData f1 = commonData f /\
  selectedFile f1 = selectedFile f /\ filePreview f1 = filePreview f /\
  nextId f1 = nextId f.

(** What the upload step leaves in the trace and returns. *)
Definition uploadFacts (type : TransactionType) (l : list ItemEntry)
    (file : option File) (w0 w1 : World) (url : string)
    (upEv : list Event) : Prop :=
  match type, file with
  | RECEIVE, Some f =>
      exists r,
        uploadFileToDrive f (JS.join "_" (map itemName l)) w0 = (r, w1) /\
        upEv = EvUpload f (JS.join "_" (map itemName l)) r
               :: (if uploadOk r then []
                   else [EvMessage (Some (uploadWarning r))]) /\
        url = (if uploadOk r then up_fileUrl r else "")
  | _, _ => upEv = [] /\ url = "" /\ w1 = w0
  end.

(** Row identifiers that are distinct and below the counter. *)
Definition distinctIds (f : State) : Prop :=
  NoDup (map id (items f)) /\
  forall item, In item (items f) -> id item < nextId f.

(** *** A call of [handleSubmit], from one [await] to the next

    [handleSubmit] is an async function: it runs up to an [await], gives
    the control back to the browser and goes on once the collaborator has
    answered. Meanwhile the form is rendered and its other handlers can
    run. A call that waits holds the [type], [items] and [commonData] of
    the render it was started from and its local variables; the state of
    the form it reads through the functional updates only. *)
Inductive Awaited : Type :=
| AwaitUpload (file : File)
| AwaitSubmit (uploadedFileUrl : string) (i : nat) (item : ItemEntry)
    (rest : list ItemEntry) (successCount : nat) (failedItems : list string).

Record Call : Type := {
  c_type : TransactionType;
  c_items : list ItemEntry;
  c_commonData : CommonData;
  c_awaited : Awaited
}.

(** The second loop about to visit the rows [rest], the first of which
    has index [i]: it publishes the progress of the row and waits for the
    sink, or, with no row left, goes through the classification to the end
    of the handler. *)
Definition handleSubmitLoop (type : TransactionType) (l : list ItemEntry)
    (common : CommonData) (uploadedFileUrl : string) (i : nat)
    (rest : list ItemEntry) (successCount : nat)
    (failedItems : list string) : M (option Call) :=
  match rest with
  | [] =>
      setProgress None ;;
      finish successCount failedItems ;;
      setLoading false ;;
      ret None
  | item :: rest' =>
      setProgress (Some (i + 1, List.length l)) ;;
      ret (Some {| c_type := type; c_items := l; c_commonData := common;
                   c_awaited := AwaitSubmit uploadedFileUrl i item rest'
                                  successCount failedItems |})
  end.

(** The handler from the click to its first [await], or to its end when
    it meets none. *)
Definition handleSubmitStart (type : TransactionType)
    (inventory : list (InventoryItem num)) : M (option Call) :=
  fun s0 =>
  let l := items (form s0) in
  let common := commonData (form s0) in
  let file := selectedFile (form s0) in
  (setLoading true ;;
   setMessage None ;;
   match validateItems type inventory l with
   | Some e =>
       setMessage (Some {| msg_type := error; text := errorText e |}) ;;
       setLoading false ;;
       ret None
   | None =>
       match type, file with
       | RECEIVE, Some f =>
           setUploadingFile true ;;
           ret (Some {| c_type := type; c_items := l; c_commonData := common;
                        c_awaited := AwaitUpload f |})
       | _, _ =>
           setProgress (Some (0, List.length l)) ;;
           handleSubmitLoop type l common "" 0 l 0 []
       end
   end) s0.

(** The handler from the answer of the collaborator it waits for to its
    next [await], or to its end. *)
Definition handleSubmitResume (c : Call) : M (option Call) :=
  let type := c_type c in
  let l := c_items c in
  let common := c_commonData c in
  match c_awaited c with
  | AwaitUpload f =>
      fileResult <- callUpload f (JS.join "_" (map itemName l)) ;;
      setUploadingFile false ;;
      uploadedFileUrl <-
        (if uploadOk fileResult
         then ret (up_fileUrl fileResult)
         else
           setMessage (Some (uploadWarning fileResult)) ;;
           ret "") ;;
      setProgress (Some (0, List.length l)) ;;
      handleSubmitLoop type l common uploadedFileUrl 0 l 0 []
  | AwaitSubmit uploadedFileUrl i item rest successCount failedItems =>
      ok <- callSubmit (mkRequest type common uploadedFileUrl i item) ;;
      if ok : bool
      then handleSubmitLoop type l common uploadedFileUrl (S i) rest
             (S successCount) failedItems
      else handleSubmitLoop type l common uploadedFileUrl (S i) rest
             successCount (failedItems ++ [itemName item])
  end.

(** A call resumed again and again, nothing else happening in between,
    at most [fuel] times. *)
Fixpoint complete (fuel : nat) (r : option Call * Sys) : option Call * Sys :=
  match r, fuel with
  | (Some c, s), S fuel' => complete fuel' (handleSubmitResume c s)
  | _, _ => r
  end.

(** *** The component as a state machine

    What can happen to the form: an edit of a row, of the common fields
    or of the attachment, the unit effect, a click on the submit button,
    the answer a waiting call of [handleSubmit] is resumed with, and a
    render, whose [useState] argument draws an identifier from the
    counter whether it is used or not. The state is the form together
    with the calls of [handleSubmit] that wait. *)
Inductive Action : Type :=
| ActUpdateItem (i : nat) (field : Field) (value : string)
| ActAddItem
| ActRemoveItem (i : nat)
| ActSetCommon (c : CommonData)
| ActSelectFile (file : File) (preview : option string)
| ActRemoveFile
| ActAutoFill (type : TransactionType) (inventory : list (InventoryItem num))
| ActSubmit (type : TransactionType) (inventory : list (InventoryItem num))
| ActResume (k : nat)
| ActRender.

Record Live : Type := {
  sys : Sys;
  calls : list Call
}.

Definition waiting (c : option Call) : list Call :=
  match c with
  | Some c => [c]
  | None => []
  end.

Definition perform (a : Action) (m : Live) : Live :=
  let edit (c : M Datatypes.unit) :=
    {| sys := snd (c (sys m)); calls := calls m |} in
  match a with
  | ActUpdateItem i field value => edit (updateItem i field value)
  | ActAddItem => edit addItem
  | ActRemoveItem i => edit (removeItem i)
  | ActSetCommon c => edit (setCommonData c)
  | ActSelectFile file preview => edit (handleFileSelect file preview)
  | ActRemoveFile => edit removeFile
  | ActAutoFill type inventory => edit (autoFillUnit type inventory)
  | ActSubmit type inventory =>
      if submitDisabled (form (sys m)) then m
      else
        let (c, s) := handleSubmitStart type inventory (sys m) in
        {| sys := s; calls := calls m ++ waiting c |}
  | ActResume k =>
      match nth_error (calls m) k with
      | Some c =>
          let (c', s) := handleSubmitResume c (sys m) in
          {| sys := s;
             calls := firstn k (calls m) ++ waiting c'
                      ++ skipn (S k) (calls m) |}
      | None => m
      end
  | ActRender => edit (_ <- freshId ;; ret tt)
  end.

Definition runActions (acts : list Action) (m : Live) : Live :=
  fold_left (fun m a => perform a m) acts m.

Definition initialSys (w : World) : Sys :=
  {| form := initialState; world := w; trace := [] |}.

Definition initialLive (w : World) : Live :=
  {| sys := initialSys w; calls := [] |}.

(** An action that takes a row away or gives one another name. *)
Definition disturbs (a : Action) : bool :=
  match a with
  | ActRemoveItem _ | ActUpdateItem _ F_itemName _ => true
  | _ => false
  end.

(** No row is removed or renamed while a call of [handleSubmit] waits. *)
Fixpoint undisturbed (acts : list Action) (m : Live) : bool :=
  match acts with
  | [] => true
  | a :: acts' =>
      (negb (disturbs a) || (List.length (calls m) =? 0)%nat)
      && undisturbed acts' (perform a m)
  end.

(** The names a waiting call can still report as failed. *)
Definition pendingNames (c : Call) : list string :=
  match c_awaited c with
  | AwaitUpload _ => map itemName (c_items c)
  | AwaitSubmit _ _ item rest _ failedItems =>
      failedItems ++ itemName item :: map itemName rest
  end.

(** What holds of the form and its waiting calls as long as no row is
    removed or renamed under a waiting call: there is a row, the
    identifiers are distinct, at most one call waits, and then the form is
    loading and holds a row for every name the call can report. *)
Definition keepsRows (m : Live) : Prop :=
  items (form (sys m)) <> [] /\
  distinctIds (form (sys m)) /\
  List.length (calls m) <= 1 /\
  forall c, In c (calls m) ->
    loading (form (sys m)) = true /\
    incl (pendingNames c) (map itemName (items (form (sys m)))).

End Component.
End Form.

(** ** The searchable dropdown of a row ([SearchableDropdown]) *)

Module Dropdown.
Section Component.
Context {num : Type}.
(** [String.prototype.toLowerCase]. *)
Variable toLowerCase : string -> string.

Record State : Type := {
  open : bool;
  search : string
}.

Definition initialState : State := {| open := false; search := "" |}.

(** The items offered: those whose name holds the search text, letter
    case aside, in the order of the inventory. *)
Definition filtered (inventory : list (InventoryItem num)) (st : State)
  : list (InventoryItem num) :=
  filter (fun item =>
            JS.Str.includes (toLowerCase (inv_name item))
                            (toLowerCase (search st)))
         inventory.

(** [select(name)]: the value handed to [onChange], and the state with
    the search emptied and the list closed. *)
Definition select (name : string) (st : State) : string * State :=
  (name, {| open := false; search := "" |}).

(** The button that opens and closes the list. *)
Definition toggle (st : State) : State :=
  {| open := negb (open st); search := search st |}.

(** The search box. *)
Definition setSearch (value : string) (st : State) : State :=
  {| open := open st; search := value |}.

(** The [mousedown] listener: a press that does not land inside the
    component closes the list. *)
Definition handleClick (inside : bool) (st : State) : State :=
  if negb inside then {| open := false; search := search st |} else st.

End Component.
End Dropdown.

(** ** Reading a CSV text

    Modelled from the spec, which speaks of a column of the export being
    parsed back: the text is read as RFC 4180 delimits it and as
    spreadsheet programs read it. A line feed ends a record and a comma a
    field; a field that begins with a double quote runs to the next double
    quote that is not doubled, commas and line feeds included, a doubled
    one standing for one; what follows the closing quote up to the next
    comma or line feed is taken into the field as it is. *)
Module Csv.

Definition comma : ascii := ascii_of_nat 44.
Definition lineFeed : ascii := ascii_of_nat 10.

(** The records read so far, the head field of the head record being the
    one under way: a character more in front of it, a new field in front
    of it, a new record. *)
Definition pushChar (c : ascii) (rows : list (list string))
  : list (list string) :=
  match rows with
  | (field :: row) :: rows' => (String c field :: row) :: rows'
  | [] :: rows' => [String c ""] :: rows'
  | [] => [[String c ""]]
  end.

Definition newField (rows : list (list string)) : list (list string) :=
  match rows with
  | row :: rows' => ("" :: row) :: rows'
  | [] => [[""]]
  end.

Definition newRow (rows : list (list string)) : list (list string) :=
  [""] :: rows.

Inductive Mode : Type :=
| Start       (* at the beginning of a field *)
| Unquoted    (* in a field that did not begin with a quote *)
| Quoted      (* between the quotes of a field *)
| QuoteSeen.  (* behind a quote met between the quotes *)

Fixpoint scan (mode : Mode) (s : string) : list (list string) :=
  match s with
  | EmptyString => [[""]]
  | String c s' =>
      let separator (otherwise : list (list string)) :=
        if Ascii.eqb c comma then newField (scan Start s')
        else if Ascii.eqb c lineFeed then newRow (scan Start s')
        else otherwise in
      match mode with
      | Start =>
          if Ascii.eqb c JS.quoteChar then scan Quoted s'
          else separator (pushChar c (scan Unquoted s'))
      | Unquoted => separator (pushChar c (scan Unquoted s'))
      | Quoted =>
          if Ascii.eqb c JS.quoteChar then scan QuoteSeen s'
          else pushChar c (scan Quoted s')
      | QuoteSeen =>
          if Ascii.eqb c JS.quoteChar then pushChar c (scan Quoted s')
          else separator (pushChar c (scan Unquoted s'))
      end
  end.

(** The records of a text, each the list of its fields. *)
Definition read (text : string) : list (list string) := scan Start text.

(** A text without a double quote, which can stand between quotes as it
    is. *)
Fixpoint noQuote (s : string) : bool :=
  match s with
  | EmptyString => true
  | String c s' => negb (Ascii.eqb c JS.quoteChar) && noQuote s'
  end.

Fixpoint noSeparator (s : string) : bool :=
  match s with
  | EmptyString => true
  | String c s' =>
      negb (Ascii.eqb c comma) && negb (Ascii.eqb c lineFeed)
      && noSeparator s'
  end.

(** A text that can stand as a field without quotes: it holds no comma
    and no line feed and does not begin with a double quote. *)
Definition plain (s : string) : bool :=
  noSeparator s &&
  match s with
  | String c _ => negb (Ascii.eqb c JS.quoteChar)
  | EmptyString => true
  end.

(** A field as it is written: as it is, or between quotes. *)
Inductive Cell : Type :=
| Plain (text : string)
| InQuotes (text : string).

Definition written (c : Cell) : string :=
  match c with
  | Plain text => text
  | InQuotes text => JS.quoted text
  end.

Definition content (c : Cell) : string :=
  match c with
  | Plain text | InQuotes text => text
  end.

Definition wellWritten (c : Cell) : bool :=
  match c with
  | Plain text => plain text
  | InQuotes text => noQuote text
  end.

(** What can follow a field: the end of the text, a comma or a line
    feed. *)
Definition isTail (s : string) : bool :=
  match s with
  | EmptyString => true
  | String c _ => Ascii.eqb c comma || Ascii.eqb c lineFeed
  end.

End Csv.

(** ** The reports view *)

Module Stats.
Record t (num : Type) : Type := {
  totalIssued : nat;
  totalReceived : nat;
  issuedQty : num;
  receivedQty : num;
  uniqueItems : nat;
  uniqueLocations : nat
}.
Arguments totalIssued {num} _.
Arguments totalReceived {num} _.
Arguments issuedQty {num} _.
Arguments receivedQty {num} _.
Arguments uniqueItems {num} _.
Arguments uniqueLocations {num} _.
End Stats.

(** One value of [floorMap], and one value of its [items]. *)
Module Breakdown.
Record t (num : Type) : Type := {
  issued : num;
  received : num;
  unit : string;
  persons : list string
}.
Arguments issued {num} _.
Arguments received {num} _.
Arguments unit {num} _.
Arguments persons {num} _.
End Breakdown.

Module Floor.
Record t (num : Type) : Type := {
  location : string;
  issued : nat;
  received : nat;
  issuedQty : num;
  receivedQty : num;
  items : JS.Obj (Breakdown.t num);
  lastActivity : string
}.
Arguments location {num} _.
Arguments issued {num} _.
Arguments received {num} _.
Arguments issuedQty {num} _.
Arguments receivedQty {num} _.
Arguments items {num} _.
Arguments lastActivity {num} _.
End Floor.

Module Reports.

(** Modelled from the spec: the [Transaction] record of [../types]. The
    date is kept as the string the log delivers and is read through
    [new Date]; an absent optional field is the empty string. *)
Record Transaction (num : Type) : Type := {
  id : string;
  date : string;
  type : TransactionType;
  itemName : string;
  quantity : num;
  unit : string;
  location : string;
  personName : string;
  notes : string;
  fileUrl : string
}.
Arguments id {num} _.
Arguments date {num} _.
Arguments type {num} _.
Arguments itemName {num} _.
Arguments quantity {num} _.
Arguments unit {num} _.
Arguments location {num} _.
Arguments personName {num} _.
Arguments notes {num} _.
Arguments fileUrl {num} _.

(** The type selector: ['All'] or the value of one enum member. *)
Inductive TypeFilter : Type := AllTypes | OnlyType (k : TransactionType).

Record Filters : Type := {
  filterType : TypeFilter;
  filterLocation : string;
  startDate : string;
  endDate : string
}.

Section Component.
Context {num : Type} {NO : NumberOps num} {DO : DateOps}.
(** The string value of an enum member of [TransactionType]. *)
Variable typeValue : TransactionType -> string.

Definition matchesType (f : Filters) (t : Transaction num) : bool :=
  match filterType f with
  | AllTypes => true
  | OnlyType k => TransactionType_eqb (type t) k
  end.

Definition matchesLocation (f : Filters) (t : Transaction num) : bool :=
  (filterLocation f =? "All") || (location t =? filterLocation f).

Definition matchesStart (f : Filters) (t : Transaction num) : bool :=
  if JS.truthy (startDate f)
  then JS.time_ge (parseDate (date t)) (parseDate (startDate f))
  else true.

Definition matchesEnd (f : Filters) (t : Transaction num) : bool :=
  if JS.truthy (endDate f)
  then JS.time_lt (parseDate (date t))
                  (option_map nextDay (parseDate (endDate f)))
  else true.

(** The predicate handed to [transactions.filter]. *)
Definition matches (f : Filters) (t : Transaction num) : bool :=
  let matchesDate := true in
  let matchesDate := matchesDate && matchesStart f t in
  let matchesDate := matchesDate && matchesEnd f t in
  matchesType f t && matchesLocation f t && matchesDate.

(** [new Date(b.date).getTime() - new Date(a.date).getTime()]; a NaN
    result counts as 0. (With an invalid date among them the comparator
    is not an order and the language leaves the result of the sort to the
    implementation; which elements it holds does not depend on that.) *)
Definition byDateDesc (a b : Transaction num) : Z :=
  match parseDate (date b), parseDate (date a) with
  | Some tb, Some ta => (tb - ta)%Z
  | _, _ => 0%Z
  end.

Definition filteredTransactions (f : Filters)
    (transactions : list (Transaction num)) : list (Transaction num) :=
  JS.sort byDateDesc (filter (matches f) transactions).

(** The transactions dated at the instant [z]. *)
Definition datedAt (z : Z) (t : Transaction num) : bool :=
  match parseDate (date t) with
  | Some x => (x =? z)%Z
  | None => false
  end.

(** The filters as [useState] starts them and as the Reset button
    leaves them. *)
Definition resetFilters : Filters :=
  {| filterType := AllTypes; filterLocation := "All";
     startDate := ""; endDate := "" |}.

(** [allLocations], the choices of the location filter:
    [Array.from(new Set(transactions.map(t => t.location))).sort()]. *)
Definition allLocations (transactions : list (Transaction num))
  : list string :=
  JS.sort JS.Str.defaultCompare (JS.newSet (map location transactions)).

Definition isIssue (t : Transaction num) : bool :=
  TransactionType_eqb (type t) ISSUE.
Definition isReceive (t : Transaction num) : bool :=
  TransactionType_eqb (type t) RECEIVE.

(** The transactions of a location, and those of either kind there. *)
Definition atLocation (loc : string) (t : Transaction num) : bool :=
  location t =? loc.
Definition issuedAt (loc : string) (t : Transaction num) : bool :=
  isIssue t && atLocation loc t.
Definition receivedAt (loc : string) (t : Transaction num) : bool :=
  isReceive t && atLocation loc t.

(** The sum of some numbers, added up from the left starting at 0. *)
Definition total (l : list num) : num := fold_left num_add l num_zero.

(** [arr.reduce((sum, t) => sum + t.quantity, 0)] *)
Definition sumQuantity (arr : list (Transaction num)) : num :=
  fold_left (fun sum t => num_add sum (quantity t)) arr num_zero.

Definition stats (filtered : list (Transaction num)) : Stats.t num :=
  let issued := filter isIssue filtered in
  let received := filter isReceive filtered in
  {| Stats.totalIssued := List.length issued;
     Stats.totalReceived := List.length received;
     Stats.issuedQty := sumQuantity issued;
     Stats.receivedQty := sumQuantity received;
     Stats.uniqueItems := List.length (JS.newSet (map itemName filtered));
     Stats.uniqueLocations :=
       List.length (JS.newSet (map location filtered)) |}.

(** *** The floor-wise summary *)

Definition newFloor (t : Transaction num) : Floor.t num :=
  {| Floor.location := location t; Floor.issued := 0; Floor.received := 0;
     Floor.issuedQty := num_zero; Floor.receivedQty := num_zero;
     Floor.items := []; Floor.lastActivity := date t |}.

Definition newBreakdown (t : Transaction num) : Breakdown.t num :=
  {| Breakdown.issued := num_zero; Breakdown.received := num_zero;
     Breakdown.unit := JS.orElse (unit t) "pcs";
     Breakdown.persons := [] |}.

(** The counters of the floor and its quantity sums. *)
Definition countFloor (t : Transaction num) (fl : Floor.t num)
  : Floor.t num :=
  match type t with
  | ISSUE =>
      {| Floor.location := Floor.location fl;
         Floor.issued := S (Floor.issued fl);
         Floor.received := Floor.received fl;
         Floor.issuedQty := num_add (Floor.issuedQty fl) (quantity t);
         Floor.receivedQty := Floor.receivedQty fl;
         Floor.items := Floor.items fl;
         Floor.lastActivity := Floor.lastActivity fl |}
  | RECEIVE =>
      {| Floor.location := Floor.location fl;
         Floor.issued := Floor.issued fl;
         Floor.received := S (Floor.received fl);
         Floor.issuedQty := Floor.issuedQty fl;
         Floor.receivedQty := num_add (Floor.receivedQty fl) (quantity t);
         Floor.items := Floor.items fl;
         Floor.lastActivity := Floor.lastActivity fl |}
  end.

(** The entry of [items] for the transaction's item, updated. *)
Definition countItem (t : Transaction num)
    (its : JS.Obj (Breakdown.t num)) : JS.Obj (Breakdown.t num) :=
  let b := match JS.getOwn (itemName t) its with
           | Some b => b
           | None => newBreakdown t
           end in
  let b := match type t with
           | ISSUE =>
               {| Breakdown.issued :=
                    num_add (Breakdown.issued b) (quantity t);
                  Breakdown.received := Breakdown.received b;
                  Breakdown.unit := Breakdown.unit b;
                  Breakdown.persons := Breakdown.persons b |}
           | RECEIVE =>
               {| Breakdown.issued := Breakdown.issued b;
                  Breakdown.received :=
                    num_add (Breakdown.received b) (quantity t);
                  Breakdown.unit := Breakdown.unit b;
                  Breakdown.persons := Breakdown.persons b |}
           end in
  JS.setOwn (itemName t)
    {| Breakdown.issued := Breakdown.issued b;
       Breakdown.received := Breakdown.received b;
       Breakdown.unit := Breakdown.unit b;
       Breakdown.persons := JS.setAdd (personName t) (Breakdown.persons b) |}
    its.

Definition withItems (its : JS.Obj (Breakdown.t num)) (fl : Floor.t num)
  : Floor.t num :=
  {| Floor.location := Floor.location fl; Floor.issued := Floor.issued fl;
     Floor.received := Floor.received fl;
     Floor.issuedQty := Floor.issuedQty fl;
     Floor.receivedQty := Floor.receivedQty fl;
     Floor.items := its; Floor.lastActivity := Floor.lastActivity fl |}.

Definition touch (t : Transaction num) (fl : Floor.t num) : Floor.t num :=
  if JS.time_gt (parseDate (date t)) (parseDate (Floor.lastActivity fl))
  then {| Floor.location := Floor.location fl;
          Floor.issued := Floor.issued fl;
          Floor.received := Floor.received fl;
          Floor.issuedQty := Floor.issuedQty fl;
          Floor.receivedQty := Floor.receivedQty fl;
          Floor.items := Floor.items fl; Floor.lastActivity := date t |}
  else fl.

(** The entry of [floorMap] the callback works on: the one found under
    the location, or the one it creates first. *)
Definition entryFor (floorMap : JS.Obj (Floor.t num)) (t : Transaction num)
  : Floor.t num :=
  match JS.getOwn (location t) floorMap with
  | Some fl => fl
  | None => newFloor t
  end.

(** What the callback does to that entry. *)
Definition visit (t : Transaction num) (fl : Floor.t num) : Floor.t num :=
  let fl := countFloor t fl in
  let fl := withItems (countItem t (Floor.items fl)) fl in
  touch t fl.

(** The callback of [filteredTransactions.forEach]. [None] is the
    TypeError of the source where a location or an item name is one
    of [JS.prototypeNames]: the lookup then finds the inherited member
    in place of an entry, and the member has no [items], respectively
    no [persons], to read a property of. *)
Definition floorStep (floorMap : JS.Obj (Floor.t num))
    (t : Transaction num) : option (JS.Obj (Floor.t num)) :=
  let loc := location t in
  if JS.inherited loc then None
  else if JS.inherited (itemName t) then None
  else Some (JS.setOwn loc (visit t (entryFor floorMap t)) floorMap).

Fixpoint forEach (floorMap : JS.Obj (Floor.t num))
    (arr : list (Transaction num)) : option (JS.Obj (Floor.t num)) :=
  match arr with
  | [] => Some floorMap
  | t :: rest =>
      match floorStep floorMap t with
      | Some floorMap' => forEach floorMap' rest
      | None => None
      end
  end.

(** Is one of the names the callback looks up inherited? *)
Definition inheritedName (t : Transaction num) : bool :=
  JS.inherited (location t) || JS.inherited (itemName t).

(** A location name that is not an array index. *)
Definition plainName (loc : string) : bool :=
  match JS.arrayIndex loc with
  | None => true
  | Some _ => false
  end.

(** The order of two names that are array indices. *)
Definition indexLe (k k' : string) : Prop :=
  match JS.arrayIndex k, JS.arrayIndex k' with
  | Some a, Some b => (a <= b)%N
  | _, _ => True
  end.

Definition activity (fl : Floor.t num) : nat :=
  Floor.issued fl + Floor.received fl.

(** [b.issued + b.received - (a.issued + a.received)] *)
Definition byActivityDesc (a b : Floor.t num) : Z :=
  (Z.of_nat (activity b) - Z.of_nat (activity a))%Z.

Definition floorSummary (filtered : list (Transaction num))
  : option (list (Floor.t num)) :=
  match forEach [] filtered with
  | Some floorMap => Some (JS.sort byActivityDesc (JS.values floorMap))
  | None => None
  end.

(** The transactions [downloadFloorPDF] lists under a floor. *)
Definition locationTransactions (filtered : list (Transaction num))
    (floorData : Floor.t num) : list (Transaction num) :=
  filter (fun t => location t =? Floor.location floorData) filtered.

(** *** What the aggregation maintains *)

(** What an entry of [floorMap] holds once the transactions [seen] have
    been visited. *)
Definition entryOK (seen : list (Transaction num)) (k : string)
    (e : Floor.t num) : Prop :=
  Floor.location e = k /\
  Floor.issued e = List.length (filter (issuedAt k) seen) /\
  Floor.received e = List.length (filter (receivedAt k) seen) /\
  Floor.issuedQty e = sumQuantity (filter (issuedAt k) seen) /\
  Floor.receivedQty e = sumQuantity (filter (receivedAt k) seen) /\
  In (Floor.lastActivity e) (map date (filter (atLocation k) seen)) /\
  (forall t, In t seen -> location t = k ->
     JS.time_gt (parseDate (date t)) (parseDate (Floor.lastActivity e))
       = false).

Definition mapOK (seen : list (Transaction num))
    (m : JS.Obj (Floor.t num)) : Prop :=
  NoDup (JS.keys m) /\
  (forall k e, In (k, e) m -> entryOK seen k e) /\
  (forall t, In t seen -> In (location t) (JS.keys m)).

(** The names that are not array indices stand in [floorMap] in the
    order of their first occurrence. *)
Definition keysOK (seen : list (Transaction num))
    (m : JS.Obj (Floor.t num)) : Prop :=
  filter plainName (JS.keys m) =
    JS.newSet (filter plainName (map location seen)).

(** The names that are array indices stand in front, in ascending
    order. *)
Definition indexFirst (seen : list (Transaction num))
    (ks : list string) : Prop :=
  exists I,
    ks = I ++ JS.newSet (filter plainName (map location seen)) /\
    Forall (fun k => plainName k = false) I /\
    StronglySorted indexLe I.

(** The transactions of an item at a location. *)
Definition itemAt (loc name : string) (t : Transaction num) : bool :=
  atLocation loc t && (itemName t =? name).

(** What an entry of a floor's [items] holds once the transactions
    [seen] have been visited. *)
Definition breakdownOK (seen : list (Transaction num)) (loc name : string)
    (b : Breakdown.t num) : Prop :=
  let ts := filter (itemAt loc name) seen in
  Breakdown.issued b = sumQuantity (filter isIssue ts) /\
  Breakdown.received b = sumQuantity (filter isReceive ts) /\
  Breakdown.persons b = JS.newSet (map personName ts) /\
  exists t0 rest,
    ts = t0 :: rest /\ Breakdown.unit b = JS.orElse (unit t0) "pcs".

Definition itemsOK (seen : list (Transaction num)) (loc : string)
    (its : JS.Obj (Breakdown.t num)) : Prop :=
  NoDup (JS.keys its) /\
  (forall name b, In (name, b) its -> breakdownOK seen loc name b) /\
  (forall t, In t seen -> location t = loc -> In (itemName t) (JS.keys its)).

(** The date a floor's [lastActivity] holds after its transactions [l]:
    that of the first, replaced whenever a transaction compares later
    than the date held. *)
Definition later (held : string) (t : Transaction num) : string :=
  if JS.time_gt (parseDate (date t)) (parseDate held) then date t else held.

Definition lastOf (l : list (Transaction num)) : string :=
  match l with
  | [] => ""
  | t0 :: rest => fold_left later rest (date t0)
  end.

(** *** The CSV export *)

Definition headers : list string :=
  ["Date"; "Type"; "Item Name"; "Quantity"; "Unit"; "Location"; "Person";
   "Notes"; "File URL"].

(** The array built for one transaction, before it is joined. *)
Definition csvRow (t : Transaction num) : list string :=
  [ toLocaleDateString (parseDate (date t));
    typeValue (type t);
    JS.quoted (itemName t);
    num_toString (quantity t);
    JS.orElse (unit t) "";
    location t;
    JS.quoted (personName t);
    if JS.truthy (notes t) then JS.quoted (notes t) else "";
    JS.orElse (fileUrl t) "" ].

Definition csvRows (filtered : list (Transaction num))
  : list (list string) := map csvRow filtered.

(** Modelled from the spec: the nine columns of a transaction in the
    export. *)
Definition csvFields (t : Transaction num) : list string :=
  [ toLocaleDateString (parseDate (date t));
    typeValue (type t);
    itemName t;
    num_toString (quantity t);
    unit t;
    location t;
    personName t;
    notes t;
    fileUrl t ].

(** The cells of [csvRow], by what stands in them and whether it stands
    between quotes. *)
Definition csvCells (t : Transaction num) : list Csv.Cell :=
  [ Csv.Plain (toLocaleDateString (parseDate (date t)));
    Csv.Plain (typeValue (type t));
    Csv.InQuotes (itemName t);
    Csv.Plain (num_toString (quantity t));
    Csv.Plain (unit t);
    Csv.Plain (location t);
    Csv.InQuotes (personName t);
    if JS.truthy (notes t) then Csv.InQuotes (notes t) else Csv.Plain "";
    Csv.Plain (fileUrl t) ].

(** A transaction whose cells can be read back: the three texts written
    between quotes hold no double quote, and the six written as they are
    hold no comma and no line feed and do not begin with a double
    quote. *)
Definition csvSafe (t : Transaction num) : bool :=
  forallb Csv.wellWritten (csvCells t).

Definition newline : string := String (ascii_of_nat 10) "".

Definition csvContent (filtered : list (Transaction num)) : string :=
  JS.join newline
    (JS.join "," headers :: map (JS.join ",") (csvRows filtered)).

End Component.
End Reports.


(** ** The login form ([Login.tsx]) *)

(** [localStorage], its entries being read and written by key only. The
    operations are taken to succeed. *)
Module Storage.

Definition t : Type := list (string * string).

Definition getItem (k : string) (s : t) : option string := JS.getOwn k s.

Definition removeItem (k : string) (s : t) : t := JS.removeKey k s.

Definition setItem (k v : string) (s : t) : t := (k, v) :: JS.removeKey k s.

End Storage.

Module Login.

(** What the hooks [email] and [password] may come to hold: a string,
    or, out of parsed JSON, a value that is none ([undefined], [null], a
    number, an array, ...). *)
Inductive Text : Type := Str (s : string) | NotAString.

(** Modelled from the call sites: the result of [loginUser] of
    [../services/sheetService]; an absent [message] reads as the empty
    string. *)
Record User : Type := {
  user_email : string;
  user_name : string;
  user_role : string
}.

Record LoginResult : Type := {
  success : bool;
  user : option User;
  message : string
}.

Record State : Type := {
  email : Text;
  password : Text;
  showPassword : bool;
  rememberMe : bool;
  loading : bool;
  error : string
}.

Definition initialState : State :=
  {| email := Str ""; password := Str ""; showPassword := false;
     rememberMe := false; loading := false; error := "" |}.

Definition set_email (v : Text) (f : State) : State :=
  {| email := v; password := password f; showPassword := showPassword f;
     rememberMe := rememberMe f; loading := loading f; error := error f |}.
Definition set_password (v : Text) (f : State) : State :=
  {| email := email f; password := v; showPassword := showPassword f;
     rememberMe := rememberMe f; loading := loading f; error := error f |}.
Definition set_rememberMe (b : bool) (f : State) : State :=
  {| email := email f; password := password f;
     showPassword := showPassword f; rememberMe := b; loading := loading f;
     error := error f |}.
Definition set_loading (b : bool) (f : State) : State :=
  {| email := email f; password := password f;
     showPassword := showPassword f; rememberMe := rememberMe f;
     loading := b; error := error f |}.
Definition set_error (e : string) (f : State) : State :=
  {| email := email f; password := password f;
     showPassword := showPassword f; rememberMe := rememberMe f;
     loading := loading f; error := e |}.

Definition savedLoginKey : string := "satyam_mall_saved_login".
Definition userKey : string := "satyam_mall_user".

Section Component.
(** [World] is what [loginUser] and the clock read and change. *)
Context {World : Type}.
Variable loginUser : string -> string -> World -> LoginResult * World.
(** [String.prototype.trim]. *)
Variable trim : string -> string.
(** [JSON.parse(s)] with the destructuring of [email] and [password]
    out of its result: [None] where either throws, on text that is not
    JSON and on [null]. *)
Variable readSaved : string -> option (Text * Text).
(** [JSON.stringify({ email, password })]. *)
Variable stringifySaved : string -> string -> string.
(** [JSON.stringify({ email, name, role, loginTime })]. *)
Variable stringifyUser : User -> string -> string.
(** [new Date().toISOString()]. *)
Variable now : World -> string.

(** The component with what it reads and writes around it: the local
    storage, the world of [loginUser], and the users handed to
    [onLogin], in order. *)
Record Sys : Type := {
  form : State;
  storage : Storage.t;
  world : World;
  logins : list User
}.

(** The effect run once when the component is mounted. *)
Definition mount (s : Sys) : Sys :=
  match Storage.getItem savedLoginKey (storage s) with
  | Some savedCredentials =>
      if JS.truthy savedCredentials then
        match readSaved savedCredentials with
        | Some (savedEmail, savedPass) =>
            {| form := set_rememberMe true
                         (set_password savedPass
                            (set_email savedEmail (form s)));
               storage := storage s; world := world s;
               logins := logins s |}
        | None =>
            {| form := form s;
               storage := Storage.removeItem savedLoginKey (storage s);
               world := world s; logins := logins s |}
        end
      else s
  | None => s
  end.

Inductive Outcome : Type := Returned | ThrewTypeError.

(** [handleSubmit]. Calling [trim] on a value that is not a string
    throws before [loginUser] is reached. *)
Definition handleSubmit (s : Sys) : Outcome * Sys :=
  let f1 := set_loading true (set_error "" (form s)) in
  match email (form s), password (form s) with
  | Str e, Str p =>
      let (result, w) := loginUser (trim e) (trim p) (world s) in
      match success result, user result with
      | true, Some u =>
          let st1 :=
            if rememberMe (form s)
            then Storage.setItem savedLoginKey
                   (stringifySaved (user_email u) (trim p)) (storage s)
            else Storage.removeItem savedLoginKey (storage s) in
          let st2 := Storage.setItem userKey (stringifyUser u (now w)) st1 in
          (Returned,
           {| form := set_loading false f1; storage := st2; world := w;
              logins := logins s ++ [u] |})
      | _, _ =>
          (Returned,
           {| form := set_loading false
                        (set_error (JS.orElse (message result) "Login failed")
                           f1);
              storage := storage s; world := w; logins := logins s |})
      end
  | _, _ =>
      (ThrewTypeError,
       {| form := f1; storage := storage s; world := world s;
          logins := logins s |})
  end.

End Component.
End Login.


(** ** Sample data

    Numbers, hosts and two collaborators to run the definitions on:
    integers written in decimal beside the numbers of JavaScript, hosts
    whose clocks keep one offset from UTC and write a date as
    day/month/year, a sink that answers from a script and a file store
    that fails for the file named ["broken"]; and runs of the form in
    which the answers of the sink arrive between other events. *)

Module Sample.

Definition ZNumber : NumberOps Z :=
  {| num_zero := 0%Z;
     num_add := Z.add;
     num_ltb := Z.ltb;
     Number := fun s =>
       match NilZero.int_of_string s with
       | Some d => Z.of_int d
       | None => 0%Z
       end;
     num_toString := fun z => NilZero.string_of_int (Z.to_int z) |}.

Definition natText (z : Z) : string :=
  NilZero.string_of_int (Z.to_int z).

(** The date of a time value as it is written in India: day, month and
    year of the day it falls on by the host's clocks. *)
Definition dayMonthYear (offset t : Z) : string :=
  let '(y, m, d) := JSDate.civilFromDays (JSDate.Day (t + offset)) in
  (natText d ++ "/" ++ natText m ++ "/" ++ natText y)%string.

(** A host whose clocks keep the given offset from UTC, which takes no
    string for a date but those of the language's own format. *)
Definition host (offset : Z) : JSDate.Host :=
  {| JSDate.localTZA := fun _ _ => offset;
     JSDate.fallbackParse := fun _ => None;
     JSDate.localeDateString := dayMonthYear offset |}.

(** Clocks on UTC, on Indian time (five and a half hours ahead) and on
    a time five hours behind UTC. *)
Definition UtcDates : DateOps := JSDate.ops (host 0).
Definition india : JSDate.Host := host 19800000.
Definition west : JSDate.Host := host (-18000000).

(** The sink answers the calls from a script, and [true] once the script
    is used up. *)
Definition scriptedSink (r : TransactionRequest Z) (w : list bool)
  : bool * list bool :=
  match w with
  | b :: w' => (b, w')
  | [] => (true, [])
  end.

Definition fileStore (file : string) (nameHint : string) (w : list bool)
  : UploadResult * list bool :=
  if file =? "broken"
  then ({| up_success := false; up_fileUrl := ""; up_error := "" |}, w)
  else ({| up_success := true; up_fileUrl := "drive://" ++ nameHint;
           up_error := "" |}, w).

Definition typeValue (k : TransactionType) : string :=
  match k with ISSUE => "ISSUE" | RECEIVE => "RECEIVE" end.

Definition bolt : InventoryItem Z :=
  {| inv_name := "Bolt"; inv_quantity := 5%Z; inv_unit := "pcs" |}.
Definition nut : InventoryItem Z :=
  {| inv_name := "Nut"; inv_quantity := 40%Z; inv_unit := "pcs" |}.

Definition entry (i : nat) (name qty u : string) : Form.ItemEntry :=
  {| Form.id := i; Form.itemName := name; Form.quantity := qty;
     Form.unit := u |}.

(** A form holding the given rows, common fields and attachment, with
    the sink's script as the world. *)
Definition formWith (l : list Form.ItemEntry) (file : option string)
    (script : list bool) : @Form.Sys Z string (list bool) :=
  {| Form.form :=
       {| Form.loading := false; Form.uploadingFile := false;
          Form.items := l;
          Form.commonData :=
            {| Form.location := "Ground Floor"; Form.personName := "Asha";
               Form.notes := "" |};
          Form.selectedFile := file; Form.filePreview := None;
          Form.message := None; Form.progress := None;
          Form.nextId := 10 |};
     Form.world := script;
     Form.trace := [] |}.

Definition run (type : TransactionType) (inventory : list (InventoryItem Z))
    (s : @Form.Sys Z string (list bool)) : @Form.Sys Z string (list bool) :=
  snd (@Form.handleSubmit Z ZNumber string (list bool)
         scriptedSink fileStore type inventory s).

(** A transaction of the log, by "Asha", in pieces. *)
Definition tx (d : string) (k : TransactionType) (item : string) (q : Z)
    (loc : string) : Reports.Transaction Z :=
  {| Reports.id := ""; Reports.date := d; Reports.type := k;
     Reports.itemName := item; Reports.quantity := q; Reports.unit := "pcs";
     Reports.location := loc; Reports.personName := "Asha";
     Reports.notes := ""; Reports.fileUrl := "" |}.

(** A transaction of the log whose quantity is a number of the language,
    given by its text. *)
Definition measured (d : string) (k : TransactionType) (item q u loc : string)
  : Reports.Transaction float :=
  {| Reports.id := ""; Reports.date := d; Reports.type := k;
     Reports.itemName := item; Reports.quantity := JSNumber.Number q;
     Reports.unit := u; Reports.location := loc;
     Reports.personName := "Asha"; Reports.notes := "";
     Reports.fileUrl := "" |}.

Definition floorSummary (filtered : list (Reports.Transaction Z))
  : option (list (Floor.t Z)) :=
  @Reports.floorSummary Z ZNumber UtcDates filtered.

Definition filteredTransactions (f : Reports.Filters)
    (transactions : list (Reports.Transaction Z))
  : list (Reports.Transaction Z) :=
  @Reports.filteredTransactions Z UtcDates f transactions.

Definition csvRows (filtered : list (Reports.Transaction Z))
  : list (list string) :=
  @Reports.csvRows Z ZNumber UtcDates typeValue filtered.

Definition emitted (type : TransactionType)
    (inventory : list (InventoryItem Z))
    (s : @Form.Sys Z string (list bool)) : list (@Form.Event Z string) :=
  @Form.emitted Z ZNumber string (list bool) scriptedSink fileStore
    type inventory s.

(** Lower case, of the letters A to Z. *)
Definition lowerChar (c : ascii) : ascii :=
  let n := nat_of_ascii c in
  if (65 <=? n)%nat && (n <=? 90)%nat then ascii_of_nat (n + 32) else c.

Fixpoint toLowerCase (s : string) : string :=
  match s with
  | EmptyString => EmptyString
  | String c s' => String (lowerChar c) (toLowerCase s')
  end.

(** The component as it starts, with the sink's script as the world,
    after some actions; and the form it then shows when the script is
    empty. *)
Definition live (script : list bool) (acts : list (@Form.Action Z string))
  : @Form.Live Z string (list bool) :=
  @Form.runActions Z ZNumber string (list bool) scriptedSink fileStore acts
    (@Form.initialLive Z string (list bool) script).

Definition after (acts : list (@Form.Action Z string))
  : @Form.Sys Z string (list bool) :=
  Form.sys (live [] acts).

Definition undisturbed (script : list bool)
    (acts : list (@Form.Action Z string)) : bool :=
  @Form.undisturbed Z ZNumber string (list bool) scriptedSink fileStore acts
    (@Form.initialLive Z string (list bool) script).

(** A user who enters three bolts and seven nuts to be issued to the
    ground floor and presses the submit button, each step followed by the
    render it causes: the button is pressed with the rows 1 and 5 in the
    list, and the call of [handleSubmit] then waits for the answer to its
    first request. *)
Definition issueBoltAndNut : list (@Form.Action Z string) :=
  [ Form.ActUpdateItem 1 Form.F_itemName "Bolt"; Form.ActRender;
    Form.ActAutoFill ISSUE [bolt; nut]; Form.ActRender;
    Form.ActUpdateItem 1 Form.F_quantity "3"; Form.ActRender;
    Form.ActAddItem; Form.ActRender;
    Form.ActUpdateItem 5 Form.F_itemName "Nut"; Form.ActRender;
    Form.ActAutoFill ISSUE [bolt; nut]; Form.ActRender;
    Form.ActUpdateItem 5 Form.F_quantity "7"; Form.ActRender;
    Form.ActSetCommon
      {| Form.location := "Ground Floor"; Form.personName := "Asha";
         Form.notes := "" |};
    Form.ActRender;
    Form.ActSubmit ISSUE [bolt; nut]; Form.ActRender ].

(** The two answers of the sink arrive, with the renders they cause. *)
Definition bothAnswers : list (@Form.Action Z string) :=
  [ Form.ActResume 0; Form.ActRender; Form.ActResume 0; Form.ActRender ].

Definition stats (filtered : list (Reports.Transaction Z)) : Stats.t Z :=
  @Reports.stats Z ZNumber filtered.

(** A transaction of the log with its unit and its person. *)
Definition txBy (d : string) (k : TransactionType) (item : string) (q : Z)
    (u loc person : string) : Reports.Transaction Z :=
  {| Reports.id := ""; Reports.date := d; Reports.type := k;
     Reports.itemName := item; Reports.quantity := q; Reports.unit := u;
     Reports.location := loc; Reports.personName := person;
     Reports.notes := ""; Reports.fileUrl := "" |}.

(** A filtered list, newest first, and one whose first date is not a
    date. *)
Definition log : list (Reports.Transaction Z) :=
  [ txBy "2024-03-03" ISSUE "Bolt" 3 "box" "Lobby" "Asha";
    txBy "2024-03-02" ISSUE "Bolt" 2 "" "Lobby" "Ravi";
    txBy "2024-03-02" RECEIVE "Bolt" 10 "pcs" "Lobby" "Asha";
    txBy "2024-03-01" ISSUE "Nut" 4 "" "Atrium" "Ravi" ].

Definition undatedLog : list (Reports.Transaction Z) :=
  [ txBy "soon" ISSUE "Bolt" 3 "box" "Lobby" "Asha";
    txBy "2024-03-02" ISSUE "Bolt" 2 "" "Lobby" "Ravi" ].

(** The floors of a summary, none when the aggregation throws. *)
Definition floors (filtered : list (Reports.Transaction Z))
  : list (Floor.t Z) :=
  match floorSummary filtered with
  | Some fs => fs
  | None => []
  end.

Definition noFloor : Floor.t Z :=
  {| Floor.location := ""; Floor.issued := 0; Floor.received := 0;
     Floor.issuedQty := 0%Z; Floor.receivedQty := 0%Z; Floor.items := [];
     Floor.lastActivity := "" |}.

(** The text without the blanks at either end. *)
Fixpoint dropBlanks (s : string) : string :=
  match s with
  | String " " s' => dropBlanks s'
  | _ => s
  end.

Fixpoint reverse (acc s : string) : string :=
  match s with
  | EmptyString => acc
  | String c s' => reverse (String c acc) s'
  end.

Definition trim (s : string) : string :=
  reverse "" (dropBlanks (reverse "" (dropBlanks s))).

(** Two texts kept apart by a bar, and their reading back. *)
Definition stringifySaved (email password : string) : string :=
  (email ++ "|" ++ password)%string.

Fixpoint splitAtBar (acc s : string) : option (string * string) :=
  match s with
  | EmptyString => None
  | String "|" s' => Some (reverse "" acc, s')
  | String c s' => splitAtBar (String c acc) s'
  end.

Definition readSaved (s : string) : option (Login.Text * Login.Text) :=
  match splitAtBar "" s with
  | Some (a, b) => Some (Login.Str a, Login.Str b)
  | None => None
  end.

Definition stringifyUser (u : Login.User) (loginTime : string) : string :=
  (Login.user_email u ++ "|" ++ Login.user_name u ++ "|"
   ++ Login.user_role u ++ "|" ++ loginTime)%string.

Definition asha : Login.User :=
  {| Login.user_email := "asha@mall.example"; Login.user_name := "Asha";
     Login.user_role := "admin" |}.

(** The one account: the address is matched letter case aside. *)
Definition loginUser (email password : string) (w : nat)
  : Login.LoginResult * nat :=
  if (toLowerCase email =? "asha@mall.example") && (password =? "s3cret")
  then ({| Login.success := true; Login.user := Some asha;
           Login.message := "" |}, S w)
  else ({| Login.success := false; Login.user := None;
           Login.message := "" |}, S w).

Definition now (w : nat) : string := "2024-03-05T10:00:00.000Z".

Definition login (s : @Login.Sys nat) : Login.Outcome * @Login.Sys nat :=
  Login.handleSubmit loginUser trim stringifySaved stringifyUser now s.

Definition mounted (st : Storage.t) : @Login.Sys nat :=
  Login.mount readSaved
    {| Login.form := Login.initialState; Login.storage := st;
       Login.world := 0; Login.logins := [] |}.

(** The login form filled in, over a storage that remembers someone
    else. *)
Definition typed (email password : string) (remember : bool)
  : @Login.Sys nat :=
  {| Login.form :=
       {| Login.email := Login.Str email; Login.password := Login.Str password;
          Login.showPassword := false; Login.rememberMe := remember;
          Login.loading := false; Login.error := "" |};
     Login.storage := [(Login.savedLoginKey, "ravi@mall.example|old");
                       ("theme", "dark")];
     Login.world := 0; Login.logins := [] |}.

End Sample.


(** ** Facts about the issue/receive form *)

Section FormFacts.
Import Form.
Context {num : Type} {NO : NumberOps num} {File World : Type}.
Variable submitTransaction : TransactionRequest num -> World -> bool * World.
Variable uploadFileToDrive : File -> string -> World -> UploadResult * World.

Local Abbreviation handleSubmit :=
  (Form.handleSubmit submitTransaction uploadFileToDrive).
Local Abbreviation submitLoop := (Form.submitLoop submitTransaction).
Local Abbreviation uploadStep := (Form.uploadStep uploadFileToDrive).
Local Abbreviation emitted :=
  (Form.emitted submitTransaction uploadFileToDrive).
Local Abbreviation perform :=
  (Form.perform submitTransaction uploadFileToDrive).
Local Abbreviation runActions :=
  (Form.runActions submitTransaction uploadFileToDrive).
Local Abbreviation handleSubmitResume :=
  (Form.handleSubmitResume submitTransaction uploadFileToDrive).
Local Abbreviation handleSubmitLoop := (@Form.handleSubmitLoop num File World).
Local Abbreviation handleSubmitStart :=
  (@Form.handleSubmitStart num NO File World).
Local Abbreviation initialLive := (@Form.initialLive num File World).
Local Abbreviation Live := (@Form.Live num File World).
Local Abbreviation Call := (@Form.Call File).
Local Abbreviation loopEvents := (@Form.loopEvents num NO File).
Local Abbreviation finishEvents := (@Form.finishEvents num File).
Local Abbreviation validEvents := (@Form.validEvents num NO File).
Local Abbreviation sinkRun := (Form.sinkRun submitTransaction).
Local Abbreviation requestsFrom := (@Form.requestsFrom num NO).
Local Abbreviation initialSys := (@Form.initialSys num File World).
Local Abbreviation Action := (@Form.Action num File).
Local Abbreviation uploadFacts := (Form.uploadFacts uploadFileToDrive).
Local Abbreviation Sys := (@Form.Sys num File World).
Local Abbreviation Event := (@Form.Event num File).

(** The second loop, run from any state: its counters, its events and
    the only field of the form it writes. *)
Lemma submitLoop_run type common url total rest :
  forall i successCount failedItems (s : Sys),
  exists outs w,
    List.length outs = List.length rest /\
    sinkRun (requestsFrom type common url i rest) (world s) = (outs, w) /\
    submitLoop type common url total i rest successCount failedItems s =
      ((successCount + successes outs,
        failedItems ++ map itemName (failedEntries rest outs)),
       {| form := match rest with
                  | [] => form s
                  | _ :: _ =>
                      set_progress (Some (i + List.length rest, total)) (form s)
                  end;
          world := w;
          trace := trace s ++ loopEvents type common url total i rest outs |}).
Proof.
  induction rest as [|item rest IH]; intros i sc failed s.
  - exists [], (world s). split; [reflexivity|]. split; [reflexivity|].
    cbn. unfold successes, ret. cbn.
    rewrite Nat.add_0_r, !app_nil_r. destruct s; reflexivity.
  - cbn [Form.submitLoop]. unfold bind at 1. unfold setProgress at 1.
    unfold bind at 1. cbn [update emit].
    unfold bind at 1. unfold callSubmit at 1. cbn [world form trace].
    destruct (submitTransaction (mkRequest type common url i item) (world s))
      as [ok w1] eqn:E.
    destruct ok.
    + match goal with |- context [submitLoop _ _ _ _ _ _ _ _ ?s1] =>
        destruct (IH (S i) (S sc) failed s1) as (outs & w & Hlen & Hsink & Hrun)
      end.
      exists (true :: outs), w. split; [cbn; lia|].
      split; [unfold requestsFrom in *; cbn in *; rewrite E, Hsink;
              reflexivity|].
      rewrite Hrun. cbn [form world trace loopEvents failedEntries].
      unfold successes. cbn [filter List.length].
      f_equal; [f_equal; lia|].
      f_equal.
      * destruct rest; cbn; [reflexivity|]. unfold set_progress; cbn.
        do 2 f_equal. f_equal. lia.
      * rewrite <- !app_assoc. reflexivity.
    + match goal with |- context [submitLoop _ _ _ _ _ _ _ _ ?s1] =>
        destruct (IH (S i) sc (failed ++ [itemName item]) s1)
          as (outs & w & Hlen & Hsink & Hrun) end.
      exists (false :: outs), w. split; [cbn; lia|].
      split; [unfold requestsFrom in *; cbn in *; rewrite E, Hsink;
              reflexivity|].
      rewrite Hrun. cbn [form world trace loopEvents failedEntries map].
      unfold successes. cbn [filter List.length].
      f_equal; [f_equal; rewrite <- app_assoc; reflexivity|].
      f_equal.
      * destruct rest; cbn; [reflexivity|]. unfold set_progress; cbn.
        do 2 f_equal. f_equal. lia.
      * rewrite <- !app_assoc. reflexivity.
Qed.

Lemma uploadStep_run type l file (s : Sys) :
  exists url upEv w f1,
    uploadFacts type l file (world s) w url upEv /\ sameData (form s) f1 /\
    uploadStep type l file s =
      (url, {| form := f1; world := w; trace := trace s ++ upEv |}).
Proof.
  unfold Form.uploadStep, Form.uploadFacts.
  destruct type; [|destruct file as [f|]].
  - exists "", [], (world s), (form s). rewrite app_nil_r.
    split; [destruct file; repeat split|].
    split; [repeat split|]. destruct file; destruct s; reflexivity.
  - unfold bind, setUploadingFile, update, callUpload; cbn [form world trace].
    destruct (uploadFileToDrive f (JS.join "_" (map itemName l)) (world s))
      as [r w] eqn:E.
    cbn [form world trace].
    destruct (uploadOk r) eqn:Hok.
    + exists (up_fileUrl r), [EvUpload f (JS.join "_" (map itemName l)) r], w.
      eexists. split; [exists r; rewrite Hok; repeat split; assumption|].
      split; [|unfold ret; reflexivity]. repeat split.
    + exists "", [EvUpload f (JS.join "_" (map itemName l)) r;
                  EvMessage (Some (uploadWarning r))], w.
      eexists. split; [exists r; rewrite Hok; repeat split; assumption|].
      split; [|unfold ret, setMessage, bind, update, emit; cbn;
               rewrite <- app_assoc; reflexivity].
      repeat split.
  - exists "", [], (world s), (form s). rewrite app_nil_r.
    repeat split. destruct s; reflexivity.
Qed.

(** A batch that fails validation: two messages, nothing else. *)
Lemma handleSubmit_invalid type inventory (s : Sys) e :
  validateItems type inventory (items (form s)) = Some e ->
  handleSubmit type inventory s =
    (tt, {| form := set_loading false
                      (set_message (Some {| msg_type := error;
                                            text := errorText e |})
                         (set_message None (set_loading true (form s))));
            world := world s;
            trace := trace s ++ [EvMessage None;
                       EvMessage (Some {| msg_type := error;
                                          text := errorText e |})] |}).
Proof.
  intros H. unfold Form.handleSubmit. rewrite H.
  unfold bind, setLoading, setMessage, update, emit, bind; cbn.
  rewrite <- app_assoc. reflexivity.
Qed.

(** A batch that passes validation: the run up to the classification. *)
Lemma handleSubmit_valid type inventory (s : Sys) :
  validateItems type inventory (items (form s)) = None ->
  exists url upEv outs w1 w f1,
    uploadFacts type (items (form s)) (selectedFile (form s)) (world s) w1
      url upEv /\
    sameData (form s) f1 /\
    List.length outs = List.length (items (form s)) /\
    sinkRun (requestsFrom type (commonData (form s)) url 0 (items (form s))) w1
      = (outs, w) /\
    handleSubmit type inventory s =
      bind (finish (successes outs)
              (map itemName (failedEntries (items (form s)) outs)))
           (fun _ => setLoading false)
        {| form := set_progress None f1; world := w;
           trace := trace s ++ EvMessage None :: upEv
                    ++ EvProgress (Some (0, List.length (items (form s))))
                    :: loopEvents type (commonData (form s)) url
                         (List.length (items (form s))) 0 (items (form s)) outs
                    ++ [EvProgress None] |}.
Proof.
  intros H. unfold Form.handleSubmit. rewrite H.
  unfold bind at 1. unfold setLoading at 1, update at 1.
  unfold bind at 1. unfold setMessage at 1, bind at 1, update at 1, emit at 1.
  cbn [form world trace].
  unfold bind at 1.
  match goal with |- context [uploadStep ?t ?l ?f ?s1] =>
    destruct (uploadStep_run t l f s1) as (url & upEv & w1 & f1 & HU & HS & HR)
  end.
  rewrite HR. cbn [form world trace] in *.
  unfold bind at 1. unfold setProgress at 1, bind at 1, update at 1, emit at 1.
  cbn [form world trace].
  unfold bind at 1.
  match goal with |- context [submitLoop ?t ?c ?u ?n ?i ?l ?a ?b ?s1] =>
    destruct (submitLoop_run t c u n l i a b s1)
      as (outs & w2 & HL & HK & HR2)
  end.
  rewrite HR2. cbn [form world trace fst snd app].
  unfold bind at 1. unfold setProgress at 1, bind at 1, update at 1, emit at 1.
  cbn [form world trace].
  destruct HS as (A & B & C & D & E). cbn in A, B, C, D, E.
  exists url, upEv, outs, w1, w2.
  remember (items (form s)) as l eqn:Hl.
  exists (match l with
          | [] => set_progress (Some (0, List.length l)) f1
          | _ :: _ => set_progress (Some (0 + List.length l, List.length l))
                        (set_progress (Some (0, List.length l)) f1)
          end).
  split; [exact HU|]. split.
  { destruct l; repeat split; cbn; rewrite <- ?Hl; assumption. }
  split; [exact HL|]. split; [exact HK|].
  rewrite <- !app_assoc. cbn [app].
  destruct l; reflexivity.
Qed.

Lemma finish_run sc failed (s : Sys) :
  bind (finish sc failed) (fun _ => setLoading false) s =
    (tt, {| form := finishForm sc failed (form s); world := world s;
            trace := trace s ++ finishEvents sc failed |}).
Proof.
  unfold finish, finishForm, finishEvents.
  destruct (List.length failed =? 0)%nat; [|destruct (0 <? sc)%nat];
    unfold bind, setMessage, setItems, setCommonData, removeFile, onSuccess,
      freshId, setLoading, update, emit, bind; cbn;
    rewrite <- ?app_assoc; reflexivity.
Qed.

(** The whole call on a batch that passes validation. *)
Lemma handleSubmit_valid_run type inventory (s : Sys) :
  validateItems type inventory (items (form s)) = None ->
  exists url upEv outs w1 w f1,
    uploadFacts type (items (form s)) (selectedFile (form s)) (world s) w1
      url upEv /\
    sameData (form s) f1 /\
    List.length outs = List.length (items (form s)) /\
    sinkRun (requestsFrom type (commonData (form s)) url 0 (items (form s))) w1
      = (outs, w) /\
    handleSubmit type inventory s =
      (tt, {| form := finishForm (successes outs)
                        (map itemName (failedEntries (items (form s)) outs))
                        (set_progress None f1);
              world := w;
              trace := trace s ++ validEvents type (commonData (form s))
                                    (items (form s)) upEv url outs |}).
Proof.
  intros H.
  destruct (handleSubmit_valid type inventory s H)
    as (url & upEv & outs & w1 & w & f1 & HU & HS & HL & HK & HR).
  exists url, upEv, outs, w1, w, f1. repeat (split; [assumption|]).
  rewrite HR, finish_run. cbn [form world trace]. unfold validEvents.
  repeat (rewrite <- app_assoc || (progress cbn [app])). reflexivity.
Qed.

Lemma skipn_length_app {A} (a b : list A) :
  skipn (List.length a) (a ++ b) = b.
Proof. induction a; cbn; auto. Qed.

Lemma emitted_invalid type inventory (s : Sys) e :
  validateItems type inventory (items (form s)) = Some e ->
  emitted type inventory s =
    [EvMessage None;
     EvMessage (Some {| msg_type := error; text := errorText e |})].
Proof.
  intros H. unfold Form.emitted.
  rewrite (handleSubmit_invalid _ _ _ _ H). cbn [snd trace].
  apply skipn_length_app.
Qed.

(** *** Projections of the loop's events *)

Lemma outcomes_loopEvents type common url total rest :
  forall i outs, List.length outs = List.length rest ->
  outcomes (loopEvents type common url total i rest outs) = outs.
Proof.
  unfold outcomes.
  induction rest as [|item rest IH]; intros i [|ok outs] H;
    cbn in *; try discriminate; auto.
  f_equal. apply IH. lia.
Qed.

Lemma failedNames_loopEvents type common url total rest :
  forall i outs,
  failedNames (loopEvents type common url total i rest outs) =
    map itemName (failedEntries rest outs).
Proof.
  unfold failedNames.
  induction rest as [|item rest IH]; intros i [|ok outs]; cbn; auto.
  destruct ok; cbn; rewrite IH; reflexivity.
Qed.

Lemma requests_loopEvents type common url total rest :
  forall i outs, List.length outs = List.length rest ->
  requests (loopEvents type common url total i rest outs) =
    requestsFrom type common url i rest.
Proof.
  unfold requests, Form.requestsFrom.
  induction rest as [|item rest IH]; intros i [|ok outs] H;
    cbn in *; try discriminate; auto.
  f_equal. apply IH. lia.
Qed.

Lemma pipelineEvents_loopEvents type common url total rest :
  forall i outs,
  pipelineEvents (loopEvents type common url total i rest outs) =
    loopEvents type common url total i rest outs.
Proof.
  unfold pipelineEvents.
  induction rest as [|item rest IH]; intros i [|ok outs]; cbn; auto.
  now rewrite IH.
Qed.

Lemma uploads_loopEvents type common url total rest :
  forall i outs, uploads (loopEvents type common url total i rest outs) = [].
Proof.
  unfold uploads.
  induction rest as [|item rest IH]; intros i [|ok outs]; cbn; auto.
Qed.

Lemma onSuccess_loopEvents type common url total rest :
  forall i outs,
  filter (fun e : Event => match e with EvOnSuccess => true | _ => false end)
    (loopEvents type common url total i rest outs) = [].
Proof.
  induction rest as [|item rest IH]; intros i [|ok outs]; cbn; auto.
Qed.

(** *** What the answers of the sink decide *)

Lemma failedEntries_all_true rest :
  forall outs,
  Forall (fun ok => ok = true) outs -> failedEntries rest outs = [].
Proof.
  induction rest as [|item rest IH]; intros [|ok outs] H; cbn; auto.
  inversion H; subst. auto.
Qed.

Lemma failedEntries_some_false rest :
  forall outs, List.length outs = List.length rest -> In false outs ->
  failedEntries rest outs <> [].
Proof.
  induction rest as [|item rest IH]; intros [|ok outs] HL H;
    cbn in *; try discriminate; try contradiction.
  destruct ok; [|discriminate].
  destruct H as [H|H]; [discriminate|]. apply IH; [lia|assumption].
Qed.

Lemma successes_some_true outs : In true outs -> 0 < successes outs.
Proof.
  unfold successes. induction outs as [|ok outs IH]; cbn; [tauto|].
  intros [->|H]; cbn; [lia|]. destruct ok; cbn; [lia|auto].
Qed.

Lemma successes_all_false outs :
  Forall (fun ok => ok = false) outs -> successes outs = 0.
Proof.
  unfold successes. induction 1 as [|ok outs H _ IH]; cbn; auto.
  subst. exact IH.
Qed.

Lemma failedEntries_all_false rest :
  forall outs, List.length outs = List.length rest ->
  Forall (fun ok => ok = false) outs -> failedEntries rest outs = rest.
Proof.
  induction rest as [|item rest IH]; intros [|ok outs] HL H;
    cbn in *; try discriminate; auto.
  inversion H; subst. f_equal. apply IH; [lia|assumption].
Qed.

(** *** Projections of a whole call *)

Lemma upload_events_quiet type l file w0 w1 url (upEv : list Event) :
  uploadFacts type l file w0 w1 url upEv ->
  outcomes upEv = [] /\ requests upEv = [] /\ failedNames upEv = [] /\
  pipelineEvents upEv = [] /\
  filter (fun e : Event => match e with EvOnSuccess => true | _ => false end)
    upEv = [].
Proof.
  unfold Form.uploadFacts. destruct type; [|destruct file].
  - intros [-> _]. repeat split.
  - intros (r & _ & -> & _). destruct (uploadOk r); repeat split.
  - intros [-> _]. repeat split.
Qed.

Lemma finish_events_quiet sc failed :
  outcomes (finishEvents sc failed) = [] /\
  requests (finishEvents sc failed) = [] /\
  failedNames (finishEvents sc failed) = [] /\
  pipelineEvents (finishEvents sc failed) = [] /\
  uploads (finishEvents sc failed) = [].
Proof.
  unfold Form.finishEvents.
  destruct (List.length failed =? 0)%nat; [|destruct (0 <? sc)%nat];
    repeat split.
Qed.

Lemma outcomes_validEvents type common l file w0 w1 url upEv outs :
  uploadFacts type l file w0 w1 url upEv -> List.length outs = List.length l ->
  outcomes (validEvents type common l upEv url outs) = outs.
Proof.
  intros HU HL. destruct (upload_events_quiet _ _ _ _ _ _ _ HU) as (A & _).
  destruct (finish_events_quiet (successes outs)
              (map itemName (failedEntries l outs))) as (B & _).
  unfold Form.validEvents, outcomes in *. cbn [flat_map app].
  rewrite flat_map_app, A. cbn [flat_map app].
  rewrite flat_map_app. cbn [flat_map app]. rewrite B, app_nil_r.
  apply outcomes_loopEvents; assumption.
Qed.

Lemma requests_validEvents type common l file w0 w1 url upEv outs :
  uploadFacts type l file w0 w1 url upEv -> List.length outs = List.length l ->
  requests (validEvents type common l upEv url outs) =
    requestsFrom type common url 0 l.
Proof.
  intros HU HL. destruct (upload_events_quiet _ _ _ _ _ _ _ HU) as (_ & A & _).
  destruct (finish_events_quiet (successes outs)
              (map itemName (failedEntries l outs))) as (_ & B & _).
  unfold Form.validEvents, requests in *. cbn [flat_map app].
  rewrite flat_map_app, A. cbn [flat_map app].
  rewrite flat_map_app. cbn [flat_map app]. rewrite B, app_nil_r.
  apply requests_loopEvents; assumption.
Qed.

Lemma failedNames_validEvents type common l file w0 w1 url upEv outs :
  uploadFacts type l file w0 w1 url upEv ->
  failedNames (validEvents type common l upEv url outs) =
    map itemName (failedEntries l outs).
Proof.
  intros HU. destruct (upload_events_quiet _ _ _ _ _ _ _ HU) as (_ & _ & A & _).
  destruct (finish_events_quiet (successes outs)
              (map itemName (failedEntries l outs))) as (_ & _ & B & _).
  unfold Form.validEvents, failedNames in *. cbn [flat_map app].
  rewrite flat_map_app, A. cbn [flat_map app].
  rewrite flat_map_app. cbn [flat_map app]. rewrite B, app_nil_r.
  apply failedNames_loopEvents.
Qed.

Lemma pipelineEvents_validEvents type common l file w0 w1 url upEv outs :
  uploadFacts type l file w0 w1 url upEv ->
  pipelineEvents (validEvents type common l upEv url outs) =
    EvProgress (Some (0, List.length l))
    :: loopEvents type common url (List.length l) 0 l outs
    ++ [EvProgress None].
Proof.
  intros HU.
  destruct (upload_events_quiet _ _ _ _ _ _ _ HU) as (_ & _ & _ & A & _).
  destruct (finish_events_quiet (successes outs)
              (map itemName (failedEntries l outs))) as (_ & _ & _ & B & _).
  unfold Form.validEvents, pipelineEvents in *. cbn [filter app].
  rewrite filter_app, A. cbn [filter app].
  rewrite filter_app. cbn [filter app]. rewrite B.
  f_equal. f_equal. apply pipelineEvents_loopEvents.
Qed.

Lemma onSuccessCalls_validEvents type common l file w0 w1 url upEv outs :
  uploadFacts type l file w0 w1 url upEv ->
  onSuccessCalls (validEvents type common l upEv url outs) =
    if (List.length (failedEntries l outs) =? 0)%nat then 1
    else if (0 <? successes outs)%nat then 1 else 0.
Proof.
  intros HU.
  destruct (upload_events_quiet _ _ _ _ _ _ _ HU) as (_ & _ & _ & _ & A).
  unfold Form.validEvents, onSuccessCalls. cbn [filter app].
  rewrite filter_app, A. cbn [filter app].
  rewrite filter_app, onSuccess_loopEvents. cbn [filter app].
  unfold Form.finishEvents. rewrite length_map.
  destruct (List.length (failedEntries l outs) =? 0)%nat;
    [|destruct (0 <? successes outs)%nat]; reflexivity.
Qed.

(** The call on a batch that passes validation, with its events. *)
Lemma handleSubmit_valid_emitted type inventory (s : Sys) :
  validateItems type inventory (items (form s)) = None ->
  exists url upEv outs w1 w f1,
    uploadFacts type (items (form s)) (selectedFile (form s)) (world s) w1
      url upEv /\
    sameData (form s) f1 /\
    List.length outs = List.length (items (form s)) /\
    sinkRun (requestsFrom type (commonData (form s)) url 0 (items (form s))) w1
      = (outs, w) /\
    snd (handleSubmit type inventory s) =
      {| form := finishForm (successes outs)
                   (map itemName (failedEntries (items (form s)) outs))
                   (set_progress None f1);
         world := w;
         trace := trace s ++ validEvents type (commonData (form s))
                               (items (form s)) upEv url outs |} /\
    emitted type inventory s =
      validEvents type (commonData (form s)) (items (form s)) upEv url outs /\
    outcomes (emitted type inventory s) = outs.
Proof.
  intros H.
  destruct (handleSubmit_valid_run type inventory s H)
    as (url & upEv & outs & w1 & w & f1 & HU & HS & HL & HK & HR).
  exists url, upEv, outs, w1, w, f1. repeat (split; [assumption|]).
  assert (E : emitted type inventory s =
    validEvents type (commonData (form s)) (items (form s)) upEv url outs).
  { unfold Form.emitted. rewrite HR. cbn [snd trace].
    apply skipn_length_app. }
  split; [rewrite HR; reflexivity|]. split; [exact E|].
  rewrite E. eapply outcomes_validEvents; eassumption.
Qed.

(** *** Validation *)

Lemma validateItems_app type inventory (pre rest : list ItemEntry) :
  validateItems (num := num) type inventory (pre ++ rest) =
    match validateItems type inventory pre with
    | Some e => Some e
    | None => validateItems type inventory rest
    end.
Proof.
  induction pre as [|item pre IH]; cbn; [reflexivity|].
  destruct (validateItem type inventory item); [reflexivity|exact IH].
Qed.

Lemma truthy_nonempty (x : string) : x <> "" -> JS.truthy x = true.
Proof.
  intros H. unfold JS.truthy.
  destruct (String.eqb_spec x ""); [contradiction|reflexivity].
Qed.

(** C1, as the code has it. An issue batch that holds a row asking for
    more than the matched inventory item has never reaches the upload or
    the sink: validation stops at the first row that fails any check, the
    error of that row is published, and the rows, the common fields, the
    attachment and the collaborators' world are left as they were. The
    error is the insufficient stock of that very row when every row in
    front of it passes validation and its three fields are filled in. *)
Theorem insufficient_stock_aborts_batch
    (inventory : list (InventoryItem num)) (s : Sys)
    (pre post : list ItemEntry) (item : ItemEntry) (inv : InventoryItem num) :
  items (form s) = pre ++ item :: post ->
  find (fun i => inv_name i =? itemName item) inventory = Some inv ->
  num_ltb (inv_quantity inv) (Number (quantity item)) = true ->
  (exists e,
     validateItems ISSUE inventory (items (form s)) = Some e /\
     message (form (snd (handleSubmit ISSUE inventory s))) =
       Some {| msg_type := error; text := errorText e |} /\
     (validateItems ISSUE inventory pre = None ->
      itemName item <> "" -> quantity item <> "" -> unit item <> "" ->
      e = InsufficientStock (itemName item) inv)) /\
  requests (emitted ISSUE inventory s) = [] /\
  uploads (emitted ISSUE inventory s) = [] /\
  onSuccessCalls (emitted ISSUE inventory s) = 0 /\
  world (snd (handleSubmit ISSUE inventory s)) = world s /\
  items (form (snd (handleSubmit ISSUE inventory s))) = items (form s) /\
  commonData (form (snd (handleSubmit ISSUE inventory s))) =
    commonData (form s) /\
  selectedFile (form (snd (handleSubmit ISSUE inventory s))) =
    selectedFile (form s).
Proof.
  intros Hl Hfind Hlt.
  assert (Hitem : validateItem ISSUE inventory item = Some MissingField \/
                  validateItem ISSUE inventory item =
                    Some (InsufficientStock (itemName item) inv)).
  { unfold validateItem. rewrite Hfind, Hlt.
    destruct (negb (JS.truthy (itemName item))
              || negb (JS.truthy (quantity item))
              || negb (JS.truthy (unit item))); auto. }
  assert (He : exists e,
     validateItems ISSUE inventory (items (form s)) = Some e /\
     (validateItems ISSUE inventory pre = None ->
      itemName item <> "" -> quantity item <> "" -> unit item <> "" ->
      e = InsufficientStock (itemName item) inv)).
  { rewrite Hl, validateItems_app.
    destruct (validateItems ISSUE inventory pre) as [e|] eqn:Epre.
    - exists e. split; [reflexivity|discriminate].
    - cbn [validateItems]. unfold validateItem. rewrite Hfind, Hlt.
      destruct (negb (JS.truthy (itemName item))
                || negb (JS.truthy (quantity item))
                || negb (JS.truthy (unit item))) eqn:Eblank.
      + exists MissingField. split; [reflexivity|]. intros _ A B C.
        rewrite (truthy_nonempty _ A), (truthy_nonempty _ B),
          (truthy_nonempty _ C) in Eblank. discriminate.
      + eexists. split; [reflexivity|]. reflexivity. }
  destruct He as (e & He & Hkind).
  rewrite (emitted_invalid _ _ _ _ He), (handleSubmit_invalid _ _ _ _ He).
  split; [exists e; repeat split; assumption|].
  repeat split.
Qed.

(** C2. When every row passes validation and the sink accepts every
    request, the form is left with one blank row, blank common fields
    and no attachment. *)
Theorem all_succeeded_resets_form
    (type : TransactionType) (inventory : list (InventoryItem num)) (s : Sys) :
  validateItems type inventory (items (form s)) = None ->
  Forall (fun ok => ok = true) (outcomes (emitted type inventory s)) ->
  let f' := form (snd (handleSubmit type inventory s)) in
  List.length (items f') = 1 /\
  (forall item, In item (items f') ->
     itemName item = "" /\ quantity item = "" /\ unit item = "") /\
  items f' = [blankItem (nextId (form s))] /\
  commonData f' = blankCommon /\
  location (commonData f') = "" /\ personName (commonData f') = "" /\
  notes (commonData f') = "" /\
  selectedFile f' = None /\ filePreview f' = None.
Proof.
  intros Hv Hall.
  destruct (handleSubmit_valid_emitted type inventory s Hv)
    as (url & upEv & outs & w1 & w & f1 & HU & HS & HL & HK & HR & HE & HO).
  rewrite HO in Hall. cbv zeta. rewrite HR. cbn [form].
  rewrite (failedEntries_all_true _ _ Hall). unfold Form.finishForm.
  cbn [map List.length Nat.eqb].
  destruct HS as (_ & _ & _ & _ & Hid). cbn. rewrite Hid.
  repeat split;
    try (match goal with H : _ \/ False |- _ => destruct H as [<-|[]] end);
    reflexivity.
Qed.

(** *** Which rows stay after a partial failure *)

Lemma includes_In (x : string) (l : list string) :
  JS.includes x l = true <-> In x l.
Proof.
  unfold JS.includes. rewrite existsb_exists. split.
  - intros (y & Hy & E). apply String.eqb_eq in E. now subst.
  - intros H. exists x. split; [assumption|apply String.eqb_refl].
Qed.

Lemma failedEntries_incl rest :
  forall outs item, In item (failedEntries rest outs) -> In item rest.
Proof.
  induction rest as [|it rest IH]; intros [|ok outs] item H;
    cbn in *; try contradiction.
  destruct ok; [right; eauto|].
  destruct H as [H|H]; [now left|right; eauto].
Qed.

Lemma filter_failed_unique rest :
  forall outs,
  NoDup (map itemName rest) ->
  filter (fun item =>
            JS.includes (itemName item)
              (map itemName (failedEntries rest outs)))
         rest = failedEntries rest outs.
Proof.
  induction rest as [|it rest IH]; intros outs ND; [reflexivity|].
  inversion ND as [|x xs Hnotin ND']; subst.
  destruct outs as [|ok outs].
  { cbn. clear. induction rest as [|y r IHr]; cbn; auto. }
  cbn [failedEntries]. destruct ok.
  - cbn [filter].
    destruct (JS.includes (itemName it)
                (map itemName (failedEntries rest outs))) eqn:E.
    + apply includes_In, in_map_iff in E. destruct E as (y & Hy & Hin).
      exfalso. apply Hnotin. rewrite <- Hy. apply in_map.
      eapply failedEntries_incl; eassumption.
    + apply IH; assumption.
  - cbn [filter map]. unfold JS.includes at 1. cbn [existsb].
    rewrite String.eqb_refl. cbn [orb]. f_equal.
    transitivity (filter (fun item => JS.includes (itemName item)
                    (map itemName (failedEntries rest outs))) rest);
      [|apply IH; assumption].
    apply filter_ext_in.
    intros y Hy. unfold JS.includes. cbn [existsb].
    destruct (String.eqb_spec (itemName y) (itemName it)) as [E|E];
      [|reflexivity].
    exfalso. apply Hnotin. rewrite <- E. now apply in_map.
Qed.


(** *** The requests and the progress values of a call *)

Lemma progress_pipeline (evs : list Event) :
  progressValues (pipelineEvents evs) = progressValues evs.
Proof.
  unfold progressValues, pipelineEvents.
  induction evs as [|e evs IH]; [reflexivity|].
  destruct e; cbn; rewrite ?IH; reflexivity.
Qed.

Lemma progress_loopEvents type common url total rest :
  forall i outs, List.length outs = List.length rest ->
  progressValues (loopEvents type common url total i rest outs) =
    map (fun k => Some (k + 1, total)) (seq i (List.length rest)).
Proof.
  unfold progressValues.
  induction rest as [|item rest IH]; intros i [|ok outs] H;
    cbn in *; try discriminate; auto.
  f_equal. apply IH. lia.
Qed.

Lemma requestsFrom_names type common url rest :
  forall i, map req_itemName (requestsFrom type common url i rest) =
            map itemName rest.
Proof.
  unfold Form.requestsFrom.
  induction rest as [|item rest IH]; intros i; cbn; [reflexivity|].
  f_equal. apply IH.
Qed.

Lemma requestsFrom_length type common url i rest :
  List.length (requestsFrom type common url i rest) = List.length rest.
Proof.
  unfold Form.requestsFrom.
  rewrite length_map, length_combine, length_seq. apply Nat.min_id.
Qed.

Lemma requestsFrom_fileUrl type common url rest :
  forall i k req,
  nth_error (requestsFrom type common url i rest) k = Some req ->
  req_fileUrl req = if (i + k =? 0)%nat then url else "".
Proof.
  unfold Form.requestsFrom.
  induction rest as [|item rest IH]; intros i k req H.
  - destruct k; discriminate.
  - destruct k as [|k]; cbn in H.
    + inversion H; subst. cbn. rewrite Nat.add_0_r. reflexivity.
    + apply IH in H. rewrite H.
      replace (i + S k) with (S i + k) by lia. reflexivity.
Qed.

(** C4, as the code has it. The rows of a validated batch are sent to
    the sink in their order, one request per row, each call starting from
    the world the previous call left. The progress value [(0, N)] is
    published before the first request, the value [(i, N)] of the i-th
    row (counted from one) right before the request of that row is made,
    and the progress is cleared after the last answer. *)
Theorem progress_precedes_each_submission
    (type : TransactionType) (inventory : list (InventoryItem num)) (s : Sys) :
  validateItems type inventory (items (form s)) = None ->
  let ev := emitted type inventory s in
  let l := items (form s) in
  let n := List.length l in
  exists url w1,
    requests ev = requestsFrom type (commonData (form s)) url 0 l /\
    List.length (requests ev) = n /\
    map req_itemName (requests ev) = map itemName l /\
    sinkRun (requests ev) w1 =
      (outcomes ev, world (snd (handleSubmit type inventory s))) /\
    pipelineEvents ev =
      EvProgress (Some (0, n))
      :: loopEvents type (commonData (form s)) url n 0 l (outcomes ev)
      ++ [EvProgress None] /\
    progressValues ev =
      Some (0, n) :: map (fun i => Some (i + 1, n)) (seq 0 n) ++ [None].
Proof.
  intros Hv.
  destruct (handleSubmit_valid_emitted type inventory s Hv)
    as (url & upEv & outs & w1 & w & f1 & HU & HS & HL & HK & HR & HE & HO).
  cbv zeta. exists url, w1. rewrite HO, HR, HE. cbn [world].
  rewrite (requests_validEvents _ _ _ _ _ _ _ _ _ HU HL),
    (pipelineEvents_validEvents _ _ _ _ _ _ _ _ _ HU).
  rewrite requestsFrom_length, requestsFrom_names.
  repeat (split; [reflexivity || assumption|]).
  rewrite <- progress_pipeline,
    (pipelineEvents_validEvents _ _ _ _ _ _ _ _ _ HU).
  unfold progressValues. cbn [flat_map app]. rewrite flat_map_app.
  cbn [flat_map app]. f_equal. f_equal.
  apply progress_loopEvents; assumption.
Qed.

Lemma uploads_validEvents type common l upEv url outs :
  uploads (validEvents type common l upEv url outs) = uploads upEv.
Proof.
  destruct (finish_events_quiet (successes outs)
              (map itemName (failedEntries l outs))) as (_ & _ & _ & _ & B).
  pose proof (uploads_loopEvents type common url (List.length l) l 0 outs)
    as C.
  unfold Form.validEvents, uploads in *. cbn [flat_map app].
  rewrite flat_map_app. cbn [flat_map app].
  rewrite flat_map_app. cbn [flat_map app]. rewrite B, C. cbn [app].
  apply app_nil_r.
Qed.


(** *** The handler, from one await to the next *)

Lemma handleSubmitLoop_run type l common url i rest sc failed (s : Sys) :
  handleSubmitLoop type l common url i rest sc failed s =
    match rest with
    | [] =>
        (None,
         {| form := finishForm sc failed (set_progress None (form s));
            world := world s;
            trace := trace s ++ EvProgress None :: finishEvents sc failed |})
    | item :: rest' =>
        (Some {| c_type := type; c_items := l; c_commonData := common;
                 c_awaited := AwaitSubmit url i item rest' sc failed |},
         {| form := set_progress (Some (i + 1, List.length l)) (form s);
            world := world s;
            trace := trace s ++ [EvProgress (Some (i + 1, List.length l))] |})
    end.
Proof.
  destruct rest as [|item rest']; unfold Form.handleSubmitLoop.
  - unfold finish, finishForm, finishEvents.
    destruct (List.length failed =? 0)%nat; [|destruct (0 <? sc)%nat];
      unfold bind, setProgress, setMessage, setItems, setCommonData,
        removeFile, onSuccess, freshId, setLoading, update, emit, bind, ret;
      cbn; rewrite <- ?app_assoc; reflexivity.
  - unfold bind, setProgress, update, emit, bind, ret. cbn. reflexivity.
Qed.

Lemma complete_None fuel (s : Sys) :
  Form.complete submitTransaction uploadFileToDrive fuel (None, s) =
    (None, s).
Proof. destruct fuel; reflexivity. Qed.

Lemma submitLoop_cons {A} (K : nat * list string -> M A) type common url
    total i item rest sc failed (s : Sys) :
  bind (submitLoop type common url total i (item :: rest) sc failed) K s =
    let (ok, w1) :=
      submitTransaction (mkRequest type common url i item) (world s) in
    bind (submitLoop type common url total (S i) rest
            (if ok then S sc else sc)
            (if ok then failed else failed ++ [itemName item])) K
      {| form := set_progress (Some (i + 1, total)) (form s); world := w1;
         trace := (trace s ++ [EvProgress (Some (i + 1, total))])
                  ++ [EvSubmit (mkRequest type common url i item) ok] |}.
Proof.
  cbn [Form.submitLoop].
  unfold bind, setProgress, callSubmit, update, emit, bind. cbn.
  destruct (submitTransaction (mkRequest type common url i item) (world s))
    as [[] w1]; reflexivity.
Qed.

Lemma handleSubmitResume_submit type l common url i item rest sc failed
    (s : Sys) :
  handleSubmitResume
    {| c_type := type; c_items := l; c_commonData := common;
       c_awaited := AwaitSubmit url i item rest sc failed |} s =
    let (ok, w1) :=
      submitTransaction (mkRequest type common url i item) (world s) in
    handleSubmitLoop type l common url (S i) rest
      (if ok then S sc else sc)
      (if ok then failed else failed ++ [itemName item])
      {| form := form s; world := w1;
         trace :=
           trace s ++ [EvSubmit (mkRequest type common url i item) ok] |}.
Proof.
  unfold Form.handleSubmitResume. cbn [c_awaited c_type c_items c_commonData].
  unfold bind, callSubmit.
  destruct (submitTransaction (mkRequest type common url i item) (world s))
    as [[] w1]; reflexivity.
Qed.

Lemma handleSubmitResume_upload type l common file (s : Sys) :
  handleSubmitResume
    {| c_type := type; c_items := l; c_commonData := common;
       c_awaited := AwaitUpload file |} s =
    let (r, w1) :=
      uploadFileToDrive file (JS.join "_" (map itemName l)) (world s) in
    handleSubmitLoop type l common
      (if uploadOk r then up_fileUrl r else "") 0 l 0 []
      {| form := set_progress (Some (0, List.length l))
                   ((if uploadOk r then fun f => f
                     else set_message (Some (uploadWarning r)))
                      (set_uploadingFile false (form s)));
         world := w1;
         trace := trace s
                  ++ EvUpload file (JS.join "_" (map itemName l)) r
                  :: (if uploadOk r then []
                      else [EvMessage (Some (uploadWarning r))])
                  ++ [EvProgress (Some (0, List.length l))] |}.
Proof.
  unfold Form.handleSubmitResume. cbn [c_awaited c_type c_items c_commonData].
  unfold bind at 1. unfold callUpload.
  destruct (uploadFileToDrive file (JS.join "_" (map itemName l)) (world s))
    as [r w1].
  destruct (uploadOk r);
    unfold bind, setUploadingFile, setMessage, setProgress, update, emit,
      bind, ret; cbn [form world trace]; rewrite <- ?app_assoc; reflexivity.
Qed.

(** Run with nothing in between, the pieces make up [handleSubmit]. *)
Lemma handleSubmitLoop_complete type l common url rest :
  forall fuel i sc failed (s : Sys),
  List.length rest <= fuel ->
  Form.complete submitTransaction uploadFileToDrive fuel
    (handleSubmitLoop type l common url i rest sc failed s) =
  (None,
   snd (bind (submitLoop type common url (List.length l) i rest sc failed)
          (fun r =>
             bind (setProgress None)
               (fun _ =>
                  bind (finish (fst r) (snd r))
                    (fun _ => setLoading false))) s)).
Proof.
  induction rest as [|item rest IH]; intros fuel i sc failed s Hfuel.
  - rewrite handleSubmitLoop_run, complete_None.
    f_equal. cbn [Form.submitLoop]. unfold bind at 1, ret at 1. cbn [fst snd].
    unfold finish, finishForm, finishEvents.
    destruct (List.length failed =? 0)%nat; [|destruct (0 <? sc)%nat];
      unfold bind, setProgress, setMessage, setItems, setCommonData,
        removeFile, onSuccess, freshId, setLoading, update, emit, bind, ret;
      cbn; rewrite <- ?app_assoc; reflexivity.
  - rewrite handleSubmitLoop_run.
    destruct fuel as [|fuel]; [cbn in Hfuel; lia|].
    cbn [Form.complete]. rewrite handleSubmitResume_submit, submitLoop_cons.
    cbn [form world trace]. cbn in Hfuel.
    destruct (submitTransaction (mkRequest type common url i item) (world s))
      as [ok w1].
    rewrite IH by lia. reflexivity.
Qed.

(** The two renderings of [handleSubmit] agree: a call started and
    resumed at each of its [await]s with nothing in between ends, after
    at most one step for the upload and one for each row, in the state
    the uninterrupted [handleSubmit] ends in. *)
Lemma handleSubmit_complete type inventory (s : Sys) :
  Form.complete submitTransaction uploadFileToDrive
    (S (List.length (items (form s))))
    (handleSubmitStart type inventory s) =
  (None, snd (handleSubmit type inventory s)).
Proof.
  unfold Form.handleSubmitStart, Form.handleSubmit.
  destruct (validateItems type inventory (items (form s))) as [e|] eqn:Hv.
  - unfold bind, setMessage, setLoading, update, emit, bind, ret. cbn.
    reflexivity.
  - unfold Form.uploadStep.
    destruct type; [|destruct (selectedFile (form s)) as [f|] eqn:Hf].
    + unfold bind at 1. unfold setLoading at 1, update at 1.
      cbn beta iota.
      unfold bind at 1.
      unfold setMessage at 1, bind at 1, update at 1, emit at 1.
      cbn beta iota.
      unfold bind at 1. unfold setProgress at 1, bind at 1, update at 1,
        emit at 1. cbn beta iota.
      rewrite handleSubmitLoop_complete by lia. reflexivity.
    + unfold bind at 1. unfold setLoading at 1, update at 1.
      cbn beta iota.
      unfold bind at 1.
      unfold setMessage at 1, bind at 1, update at 1, emit at 1.
      cbn beta iota.
      unfold bind at 1. unfold setUploadingFile at 1, update at 1.
      cbn beta iota.
      unfold ret at 1. cbn [Form.complete form world trace snd].
      rewrite handleSubmitResume_upload. cbn [form world trace].
      destruct (uploadFileToDrive f
                  (JS.join "_" (map itemName (items (form s)))) (world s))
        as [r w1] eqn:E.
      rewrite handleSubmitLoop_complete by lia. f_equal.
      unfold bind, setLoading, setMessage, setUploadingFile, callUpload,
        setProgress, update, emit, bind, ret.
      cbn [form world trace fst snd]. rewrite E.
      destruct (uploadOk r); cbn [form world trace fst snd];
        rewrite <- ?app_assoc; reflexivity.
    + unfold bind at 1. unfold setLoading at 1, update at 1.
      cbn beta iota.
      unfold bind at 1.
      unfold setMessage at 1, bind at 1, update at 1, emit at 1.
      cbn beta iota.
      unfold bind at 1. unfold setProgress at 1, bind at 1, update at 1,
        emit at 1. cbn beta iota.
      rewrite handleSubmitLoop_complete by lia. reflexivity.
Qed.

(** *** Row identifiers *)

Lemma NoDup_map_filter {A B} (g : A -> B) (p : A -> bool) (l : list A) :
  NoDup (map g l) -> NoDup (map g (filter p l)).
Proof.
  induction l as [|a l IH]; cbn; intros H; [constructor|].
  inversion H as [|x xs Hnotin Hnd]; subst.
  destruct (p a); cbn; auto. constructor; auto.
  intros Hin. apply Hnotin. apply in_map_iff in Hin.
  destruct Hin as (y & Hy & Hf). apply filter_In in Hf.
  rewrite <- Hy. apply in_map. tauto.
Qed.

Lemma distinctIds_map (g : ItemEntry -> ItemEntry) (f f' : @State File) :
  (forall item, id (g item) = id item) ->
  items f' = map g (items f) -> nextId f' = nextId f ->
  distinctIds f -> distinctIds f'.
Proof.
  intros Hg Hi Hn (Hnd & Hlt). unfold Form.distinctIds.
  rewrite Hi, Hn, map_map. split.
  - erewrite map_ext; [exact Hnd|]. intros a. apply Hg.
  - intros item Hin. apply in_map_iff in Hin. destruct Hin as (x & <- & Hx).
    rewrite Hg. auto.
Qed.

Lemma distinctIds_same (f f' : @State File) :
  items f' = items f -> nextId f <= nextId f' ->
  distinctIds f -> distinctIds f'.
Proof.
  intros Hi Hn (Hnd & Hlt). unfold Form.distinctIds. rewrite Hi.
  split; auto. intros item Hin. specialize (Hlt item Hin). lia.
Qed.

Lemma distinctIds_filter (p : ItemEntry -> bool) (f f' : @State File) :
  items f' = filter p (items f) -> nextId f' = nextId f ->
  distinctIds f -> distinctIds f'.
Proof.
  intros Hi Hn (Hnd & Hlt). unfold Form.distinctIds.
  rewrite Hn, Hi. split.
  - apply NoDup_map_filter; assumption.
  - intros item Hin. apply filter_In in Hin. apply Hlt. tauto.
Qed.

Lemma sameData_distinctIds (f f1 : @State File) :
  sameData f f1 -> distinctIds f -> distinctIds f1.
Proof.
  intros (Hi & _ & _ & _ & Hn). apply distinctIds_same; [exact Hi|lia].
Qed.

(** Removing the rows with a given identifier removes at most one of two
    rows with distinct identifiers. *)
Lemma filter_id_nonempty (i : nat) (l : list ItemEntry) :
  NoDup (map id l) -> 1 < List.length l ->
  filter (fun item => negb (id item =? i)%nat) l <> [].
Proof.
  destruct l as [|a [|b l]]; cbn [List.length]; try lia.
  intros Hnd _. cbn [map] in Hnd.
  inversion Hnd as [|x xs Hnotin _]; subst.
  cbn [filter].
  destruct (Nat.eqb_spec (id a) i) as [Ea|Ea]; cbn [negb]; [|discriminate].
  destruct (Nat.eqb_spec (id b) i) as [Eb|Eb]; cbn [negb]; [|discriminate].
  exfalso. apply Hnotin. left. congruence.
Qed.

(** What the classification leaves of the rows. *)
Lemma finishForm_items sc failed (f : @State File) :
  items (finishForm sc failed f) =
    if (List.length failed =? 0)%nat then [blankItem (nextId f)]
    else if (0 <? sc)%nat
         then filter (fun item => JS.includes (itemName item) failed) (items f)
         else items f.
Proof.
  unfold finishForm.
  destruct (List.length failed =? 0)%nat; [|destruct (0 <? sc)%nat];
    reflexivity.
Qed.

Lemma finishForm_distinctIds sc failed (f : @State File) :
  distinctIds f -> distinctIds (finishForm sc failed f).
Proof.
  intros Hd. unfold finishForm.
  destruct (List.length failed =? 0)%nat; [|destruct (0 <? sc)%nat].
  - unfold Form.distinctIds. cbn. split.
    + constructor; [tauto|constructor].
    + intros item [<-|[]]. cbn. lia.
  - eapply distinctIds_filter; [| |exact Hd]; reflexivity.
  - eapply distinctIds_same; [| |exact Hd]; cbn; auto.
Qed.

Lemma finishForm_nonempty sc failed (f : @State File) :
  items f <> [] -> incl failed (map itemName (items f)) ->
  items (finishForm sc failed f) <> [].
Proof.
  intros Hne Hincl. rewrite finishForm_items.
  destruct failed as [|name failed]; cbn [List.length Nat.eqb];
    [discriminate|].
  destruct (0 <? sc)%nat; [|exact Hne].
  assert (Hin : In name (map itemName (items f))) by (apply Hincl; now left).
  apply in_map_iff in Hin. destruct Hin as (item & E & Hin).
  intros Hnil.
  assert (H : In item (filter (fun item =>
                 JS.includes (itemName item) (name :: failed)) (items f))).
  { apply filter_In. split; [exact Hin|]. apply includes_In. left. auto. }
  rewrite Hnil in H. destruct H.
Qed.

(** What a call leaves when it is started and when it is resumed: up to
    its next [await] it writes none of the rows, the common fields, the
    attachment and the counter, and at its end it classifies. *)
Lemma handleSubmitStart_outcome type inventory (s : Sys) :
  match handleSubmitStart type inventory s with
  | (Some c, s') =>
      sameData (form s) (form s') /\ loading (form s') = true /\
      pendingNames c = map itemName (items (form s))
  | (None, s') =>
      (sameData (form s) (form s') /\ loading (form s') = false) \/
      (items (form s) = [] /\
       exists f1, sameData (form s) f1 /\ form s' = finishForm 0 [] f1)
  end.
Proof.
  unfold Form.handleSubmitStart.
  destruct (validateItems type inventory (items (form s))) as [e|] eqn:Hv.
  - unfold bind, setMessage, setLoading, update, emit, bind, ret. cbn.
    left. repeat split.
  - assert (Hloop : forall s1 : Sys,
              sameData (form s) (form s1) -> loading (form s1) = true ->
              match handleSubmitLoop type (items (form s))
                      (commonData (form s)) "" 0 (items (form s)) 0 [] s1 with
              | (Some c, s') =>
                  sameData (form s) (form s') /\ loading (form s') = true /\
                  pendingNames c = map itemName (items (form s))
              | (None, s') =>
                  (sameData (form s) (form s') /\ loading (form s') = false) \/
                  (items (form s) = [] /\
                   exists f1, sameData (form s) f1 /\
                              form s' = finishForm 0 [] f1)
              end).
    { intros s1 HS HL. rewrite handleSubmitLoop_run.
      destruct (items (form s)) as [|item rest] eqn:El.
      - right. split; [reflexivity|].
        exists (set_progress None (form s1)). split; [|reflexivity].
        destruct HS as (A & B & C & D & E). repeat split; cbn; assumption.
      - cbn [form]. split; [|split; [exact HL|reflexivity]].
        destruct HS as (A & B & C & D & E). repeat split; cbn; assumption. }
    destruct type; [|destruct (selectedFile (form s)) as [f|]].
    + unfold bind at 1. unfold setLoading at 1, update at 1. cbn beta iota.
      unfold bind at 1.
      unfold setMessage at 1, bind at 1, update at 1, emit at 1.
      cbn beta iota.
      unfold bind at 1. unfold setProgress at 1, bind at 1, update at 1,
        emit at 1. cbn beta iota.
      apply Hloop; cbn; repeat split.
    + unfold bind, setLoading, setMessage, setUploadingFile, update, emit,
        bind, ret. cbn. repeat split.
    + unfold bind at 1. unfold setLoading at 1, update at 1. cbn beta iota.
      unfold bind at 1.
      unfold setMessage at 1, bind at 1, update at 1, emit at 1.
      cbn beta iota.
      unfold bind at 1. unfold setProgress at 1, bind at 1, update at 1,
        emit at 1. cbn beta iota.
      apply Hloop; cbn; repeat split.
Qed.

Lemma handleSubmitResume_outcome (c : Call) (s : Sys) :
  match handleSubmitResume c s with
  | (Some c', s') =>
      sameData (form s) (form s') /\ loading (form s') = loading (form s) /\
      incl (pendingNames c') (pendingNames c)
  | (None, s') =>
      exists sc failed f1,
        sameData (form s) f1 /\ form s' = finishForm sc failed f1 /\
        incl failed (pendingNames c)
  end.
Proof.
  assert (Hloop : forall type l common url i rest sc failed (s1 : Sys),
            sameData (form s) (form s1) ->
            loading (form s1) = loading (form s) ->
            incl (failed ++ map itemName rest) (pendingNames c) ->
            match handleSubmitLoop type l common url i rest sc failed s1 with
            | (Some c', s') =>
                sameData (form s) (form s') /\
                loading (form s') = loading (form s) /\
                incl (pendingNames c') (pendingNames c)
            | (None, s') =>
                exists sc failed f1,
                  sameData (form s) f1 /\ form s' = finishForm sc failed f1 /\
                  incl failed (pendingNames c)
            end).
  { intros type l common url i rest sc failed s1 HS HL Hincl.
    rewrite handleSubmitLoop_run.
    destruct HS as (A & B & C & D & E).
    destruct rest as [|item rest].
    - exists sc, failed, (set_progress None (form s1)).
      split; [repeat split; cbn; assumption|]. split; [reflexivity|].
      rewrite app_nil_r in Hincl. exact Hincl.
    - split; [repeat split; cbn; assumption|]. split; [exact HL|].
      exact Hincl. }
  destruct c as [type l common [file|url i item rest sc failed]].
  - rewrite handleSubmitResume_upload.
    destruct (uploadFileToDrive file (JS.join "_" (map itemName l)) (world s))
      as [r w1].
    apply Hloop.
    + destruct (uploadOk r); repeat split.
    + destruct (uploadOk r); reflexivity.
    + cbn. apply incl_refl.
  - rewrite handleSubmitResume_submit.
    destruct (submitTransaction (mkRequest type common url i item) (world s))
      as [ok w1].
    apply Hloop; [repeat split|reflexivity|].
    unfold Form.pendingNames. cbn [c_awaited].
    destruct ok.
    + intros x Hx. apply in_app_or in Hx. apply in_or_app.
      destruct Hx as [Hx|Hx]; [now left|right; now right].
    + intros x Hx. rewrite <- app_assoc in Hx. exact Hx.
Qed.

(** The edits of the rows, one by one. *)
Lemma updateItem_items i field value (s : Sys) :
  form (snd (updateItem i field value s)) =
    set_items (map (fun item =>
                 if (id item =? i)%nat then setField item field value
                 else item) (items (form s))) (form s).
Proof. reflexivity. Qed.

Lemma autoFillUnit_ids type inventory (s : Sys) :
  exists g,
    (forall item, id (g item) = id item /\ itemName (g item) = itemName item) /\
    items (form (snd (autoFillUnit type inventory s))) =
      map g (items (form s)) /\
    nextId (form (snd (autoFillUnit type inventory s))) = nextId (form s) /\
    loading (form (snd (autoFillUnit type inventory s))) = loading (form s).
Proof.
  destruct type.
  - eexists. split; [|cbn; split; [reflexivity|split; reflexivity]].
    intros item. cbn.
    destruct (JS.truthy (itemName item)); [|split; reflexivity].
    destruct (find _ inventory) as [inv|]; [|split; reflexivity].
    destruct (negb (unit item =? inv_unit inv)); split; reflexivity.
  - exists (fun item => item). split; [split; reflexivity|].
    cbn. rewrite map_id. repeat split.
Qed.

Lemma perform_distinctIds (a : Action) (m : Live) :
  distinctIds (form (sys m)) -> distinctIds (form (sys (perform a m))).
Proof.
  intros Hd. destruct a as [i field value| |i|c|file preview| |type inventory
                           |type inventory|k|]; cbn [Form.perform sys].
  - eapply (distinctIds_map (fun item =>
      if (id item =? i)%nat then setField item field value else item));
      [| | |exact Hd]; cbn; auto.
    intros item. destruct (id item =? i)%nat; [destruct field|]; reflexivity.
  - destruct Hd as (Hnd & Hlt). unfold Form.distinctIds. cbn.
    rewrite map_app. cbn. split.
    + apply NoDup_app; [assumption|constructor; [tauto|constructor]|].
      intros x Hx [<-|[]]. apply in_map_iff in Hx.
      destruct Hx as (y & Hy & Hin). specialize (Hlt y Hin). lia.
    + intros item Hin. apply in_app_or in Hin.
      destruct Hin as [Hin|[<-|[]]]; [specialize (Hlt item Hin); lia|cbn; lia].
  - unfold Form.removeItem.
    destruct (List.length (items (form (sys m))) <=? 1)%nat; [exact Hd|].
    eapply distinctIds_filter; [| |exact Hd]; reflexivity.
  - eapply distinctIds_same; [| |exact Hd]; cbn; auto.
  - eapply distinctIds_same; [| |exact Hd]; cbn; auto.
  - eapply distinctIds_same; [| |exact Hd]; cbn; auto.
  - destruct (autoFillUnit_ids type inventory (sys m))
      as (g & Hg & Hi & Hn & _).
    eapply distinctIds_map; [| | |exact Hd]; [|exact Hi|exact Hn].
    intros item. apply Hg.
  - destruct (submitDisabled (form (sys m))); [exact Hd|].
    pose proof (handleSubmitStart_outcome type inventory (sys m)) as H.
    destruct (handleSubmitStart type inventory (sys m)) as [[c|] s'];
      cbn [sys].
    + eapply sameData_distinctIds; [apply H|exact Hd].
    + destruct H as [[HS _]|(_ & f1 & HS & ->)].
      * eapply sameData_distinctIds; eassumption.
      * apply finishForm_distinctIds.
        eapply sameData_distinctIds; eassumption.
  - destruct (nth_error (calls m) k) as [c|]; [|exact Hd].
    pose proof (handleSubmitResume_outcome c (sys m)) as H.
    destruct (handleSubmitResume c (sys m)) as [[c'|] s']; cbn [sys].
    + eapply sameData_distinctIds; [apply H|exact Hd].
    + destruct H as (sc & failed & f1 & HS & -> & _).
      apply finishForm_distinctIds.
      eapply sameData_distinctIds; eassumption.
  - eapply distinctIds_same; [| |exact Hd]; cbn; auto.
Qed.

Lemma runActions_distinctIds (acts : list Action) :
  forall m : Live, distinctIds (form (sys m)) ->
  distinctIds (form (sys (runActions acts m))).
Proof.
  unfold Form.runActions.
  induction acts as [|a acts IH]; intros m Hd; cbn; [assumption|].
  apply IH. apply perform_distinctIds. assumption.
Qed.

Lemma reachable_distinctIds (w : World) (acts : list Action) :
  distinctIds (form (sys (runActions acts (initialLive w)))).
Proof.
  apply runActions_distinctIds. unfold Form.distinctIds. cbn. split.
  - constructor; [tauto|constructor].
  - intros item [<-|[]]. cbn. lia.
Qed.

(** *** The item list is never empty, unless it is cut while a call waits *)

Lemma perform_keepsRows (a : Action) (m : Live) :
  keepsRows m ->
  (negb (disturbs a) || (List.length (calls m) =? 0)%nat) = true ->
  keepsRows (perform a m).
Proof.
  intros Hk Hquiet. pose proof Hk as (Hne & Hd & Hlen & Hcalls).
  assert (Hedit : forall s' : Sys,
            items (form s') <> [] -> distinctIds (form s') ->
            loading (form s') = loading (form (sys m)) ->
            (calls m = [] \/
             incl (map itemName (items (form (sys m))))
                  (map itemName (items (form s')))) ->
            keepsRows {| sys := s'; calls := calls m |}).
  { intros s' Hne' Hd' Hl' Hnames. unfold Form.keepsRows. cbn [sys calls].
    split; [exact Hne'|]. split; [exact Hd'|]. split; [exact Hlen|].
    intros c Hc. destruct (Hcalls c Hc) as [HL Hincl].
    split; [congruence|].
    destruct Hnames as [E|Hnames]; [rewrite E in Hc; destruct Hc|].
    intros x Hx. apply Hnames, Hincl, Hx. }
  assert (Hd' : distinctIds (form (sys (perform a m))))
    by (apply perform_distinctIds; exact Hd).
  assert (Hnocall : disturbs a = true -> calls m = []).
  { intros E. rewrite E in Hquiet. cbn in Hquiet. apply Nat.eqb_eq in Hquiet.
    destruct (calls m); [reflexivity|discriminate]. }
  destruct a as [i field value| |i|c|file preview| |type inventory
                |type inventory|k|]; cbn [Form.perform] in *.
  - apply Hedit; [| exact Hd' |reflexivity|].
    + cbn. destruct (items (form (sys m))); [congruence|discriminate].
    + destruct field; [left; apply Hnocall; reflexivity| |];
        right; cbn; rewrite map_map; intros x Hx; apply in_map_iff in Hx;
        destruct Hx as (y & <- & Hy); apply in_map_iff; exists y;
        (split; [destruct (id y =? i)%nat; reflexivity|exact Hy]).
  - apply Hedit; [|exact Hd'|reflexivity|].
    + cbn. destruct (items (form (sys m))); discriminate.
    + right. cbn. rewrite map_app. apply incl_appl, incl_refl.
  - apply Hedit; [|exact Hd'| |left; apply Hnocall; reflexivity].
    + unfold Form.removeItem.
      destruct (Nat.leb_spec (List.length (items (form (sys m)))) 1);
        [exact Hne|].
      cbn. apply filter_id_nonempty; [apply Hd|assumption].
    + unfold Form.removeItem.
      destruct (List.length (items (form (sys m))) <=? 1)%nat; reflexivity.
  - apply Hedit; [exact Hne|exact Hd'|reflexivity|right; apply incl_refl].
  - apply Hedit; [exact Hne|exact Hd'|reflexivity|right; apply incl_refl].
  - apply Hedit; [exact Hne|exact Hd'|reflexivity|right; apply incl_refl].
  - destruct (autoFillUnit_ids type inventory (sys m))
      as (g & Hg & Hi & Hn & HL).
    apply Hedit; [|exact Hd'|exact HL|].
    + rewrite Hi. destruct (items (form (sys m))); [congruence|discriminate].
    + right. rewrite Hi, map_map.
      rewrite (map_ext (fun x => itemName (g x)) itemName);
        [apply incl_refl|].
      intros item. apply Hg.
  - unfold Form.submitDisabled in *.
    destruct (loading (form (sys m))) eqn:HL; cbn [orb] in *; [exact Hk|].
    assert (Hnone : calls m = []).
    { destruct (calls m) as [|c cs]; [reflexivity|].
      destruct (Hcalls c (or_introl eq_refl)). congruence. }
    destruct (uploadingFile (form (sys m))); [exact Hk|].
    pose proof (handleSubmitStart_outcome type inventory (sys m)) as H.
    destruct (handleSubmitStart type inventory (sys m)) as [[c|] s'];
      cbn [sys calls] in *; rewrite Hnone; cbn [app Form.waiting].
    + destruct H as ((A & _) & HL' & Hp).
      unfold Form.keepsRows. cbn [sys calls].
      split; [rewrite A; exact Hne|]. split; [exact Hd'|].
      split; [cbn; lia|].
      intros c0 [<-|[]]. split; [exact HL'|]. rewrite Hp, A. apply incl_refl.
    + unfold Form.keepsRows. cbn [sys calls].
      split; [|split; [exact Hd'|split; [cbn; lia|intros ? []]]].
      destruct H as [[(A & _) _]|(E & _)]; [rewrite A; exact Hne|].
      contradiction.
  - destruct (nth_error (calls m) k) as [c|] eqn:Ek; [|exact Hk].
    assert (Hone : calls m = [c] /\ k = 0).
    { destruct (calls m) as [|c0 [|c1 cs]]; cbn in Hlen; try lia.
      - destruct k; discriminate.
      - destruct k as [|[|k]]; cbn in Ek; [|discriminate|discriminate].
        inversion Ek. auto. }
    destruct Hone as [Ec ->]. rewrite Ec in *.
    destruct (Hcalls c (or_introl eq_refl)) as [HL Hincl].
    pose proof (handleSubmitResume_outcome c (sys m)) as H.
    destruct (handleSubmitResume c (sys m)) as [[c'|] s'];
      cbn [sys calls firstn skipn app Form.waiting] in *.
    + destruct H as ((A & _) & HL' & Hp).
      unfold Form.keepsRows. cbn [sys calls].
      split; [rewrite A; exact Hne|]. split; [exact Hd'|].
      split; [cbn; lia|].
      intros c0 [<-|[]]. split; [congruence|]. rewrite A.
      intros x Hx. apply Hincl, Hp, Hx.
    + destruct H as (sc & failed & f1 & (A & HS) & E & Hf).
      unfold Form.keepsRows. cbn [sys calls].
      split; [|split; [exact Hd'|split; [cbn; lia|intros ? []]]].
      rewrite E. apply finishForm_nonempty; [rewrite A; exact Hne|].
      rewrite A. intros x Hx. apply Hincl, Hf, Hx.
  - apply Hedit; [exact Hne|exact Hd'|reflexivity|right; apply incl_refl].
Qed.

Lemma runActions_keepsRows (acts : list Action) :
  forall m : Live,
  keepsRows m ->
  undisturbed submitTransaction uploadFileToDrive acts m = true ->
  keepsRows (runActions acts m).
Proof.
  unfold Form.runActions.
  induction acts as [|a acts IH]; intros m Hk Hq; cbn; [assumption|].
  cbn [Form.undisturbed] in Hq. apply andb_true_iff in Hq.
  destruct Hq as [Hq1 Hq2].
  apply IH; [apply perform_keepsRows; assumption|exact Hq2].
Qed.

Lemma initialLive_keepsRows (w : World) : keepsRows (initialLive w).
Proof.
  unfold Form.keepsRows. cbn. split; [discriminate|]. split.
  - split; [constructor; [tauto|constructor]|].
    intros item [<-|[]]. cbn. lia.
  - split; [lia|intros ? []].
Qed.

(** A call that nothing interrupts leaves a row: the blank one, the
    refused ones or those it found; given no row at all, it finds nothing
    to refuse and nothing to send, and leaves the blank one. *)
Lemma handleSubmit_nonempty type inventory (s : Sys) :
  items (form (snd (handleSubmit type inventory s))) <> [].
Proof.
  destruct (validateItems type inventory (items (form s))) as [e|] eqn:Hv.
  - rewrite (handleSubmit_invalid _ _ _ _ Hv). cbn [snd form].
    cbn [items set_loading set_message]. intros E. rewrite E in Hv.
    discriminate.
  - destruct (handleSubmit_valid_emitted type inventory s Hv)
      as (url & upEv & outs & w1 & w & f1 & HU & HS & HL & HK & HR & HE & HO).
    rewrite HR. cbn [form]. destruct HS as (Hit & _).
    destruct (items (form s)) as [|item rest] eqn:El.
    + rewrite finishForm_items. destruct outs; discriminate.
    + apply finishForm_nonempty; cbn; rewrite Hit; [discriminate|].
      intros x Hx. apply in_map_iff in Hx. destruct Hx as (y & <- & Hy).
      apply in_map. eapply failedEntries_incl. exact Hy.
Qed.


End FormFacts.

(** *** The form on sample batches *)

(** C1, as written, fails on a batch whose first row is blank or names
    an item the snapshot does not hold: the row asking for ten bolts out
    of five is never looked at, and the error published is the one of the
    row in front. *)
Lemma insufficient_stock_masked_by_earlier_row :
  let short := Sample.entry 2 "Bolt" "10" "pcs" in
  let blank := [Sample.entry 1 "" "" ""; short] in
  let unknown := [Sample.entry 1 "Washer" "1" "pcs"; short] in
  find (fun i => inv_name i =? Form.itemName short) [Sample.bolt]
    = Some Sample.bolt /\
  @num_ltb Z Sample.ZNumber (inv_quantity Sample.bolt)
    (@Number Z Sample.ZNumber (Form.quantity short)) = true /\
  @Form.validateItems Z Sample.ZNumber ISSUE [Sample.bolt] blank =
    Some Form.MissingField /\
  @Form.validateItems Z Sample.ZNumber ISSUE [Sample.bolt] unknown =
    Some (Form.UnknownItem "Washer") /\
  Form.message (Form.form (Sample.run ISSUE [Sample.bolt]
                             (Sample.formWith unknown None []))) =
    Some {| Form.msg_type := Form.error;
            Form.text :=
              (JS.quoted "Washer" ++ " is not a valid item.")%string |}.
Proof. vm_compute. repeat split. Qed.

Lemma insufficient_stock_aborts_batch_witness :
  let pre := [Sample.entry 1 "Nut" "7" "pcs"] in
  let item := Sample.entry 2 "Bolt" "10" "pcs" in
  let inventory := [Sample.bolt; Sample.nut] in
  let s := Sample.formWith (pre ++ [item]) (Some "invoice.pdf") [true; true] in
  Form.items (Form.form s) = pre ++ item :: [] /\
  find (fun i => inv_name i =? Form.itemName item) inventory
    = Some Sample.bolt /\
  @num_ltb Z Sample.ZNumber (inv_quantity Sample.bolt)
    (@Number Z Sample.ZNumber (Form.quantity item)) = true /\
  Form.requests
    (Sample.emitted ISSUE inventory s) = [].
Proof.
  cbv zeta. split; [reflexivity|]. split; [reflexivity|]. split; [reflexivity|].
  exact (proj1 (proj2
    (@insufficient_stock_aborts_batch Z Sample.ZNumber string (list bool)
       Sample.scriptedSink Sample.fileStore [Sample.bolt; Sample.nut]
       (Sample.formWith
          [Sample.entry 1 "Nut" "7" "pcs"; Sample.entry 2 "Bolt" "10" "pcs"]
          (Some "invoice.pdf") [true; true])
       [Sample.entry 1 "Nut" "7" "pcs"] [] (Sample.entry 2 "Bolt" "10" "pcs")
       Sample.bolt eq_refl eq_refl eq_refl))).
Defined.

Lemma all_succeeded_resets_form_witness :
  let inventory := [Sample.bolt; Sample.nut] in
  let s := Sample.formWith
             [Sample.entry 1 "Bolt" "3" "pcs"; Sample.entry 2 "Nut" "7" "pcs"]
             None [true; true] in
  @Form.validateItems Z Sample.ZNumber ISSUE inventory
    (Form.items (Form.form s)) = None /\
  Form.items (Form.form (Sample.run ISSUE inventory s)) = [Form.blankItem 10].
Proof.
  cbv zeta. split; [reflexivity|].
  refine (proj1 (proj2 (proj2
    (@all_succeeded_resets_form Z Sample.ZNumber string (list bool)
       Sample.scriptedSink Sample.fileStore ISSUE [Sample.bolt; Sample.nut]
       (Sample.formWith
          [Sample.entry 1 "Bolt" "3" "pcs"; Sample.entry 2 "Nut" "7" "pcs"]
          None [true; true])
       eq_refl _)))).
  vm_compute. repeat constructor.
Defined.


(** C4, as written, fails on a batch of one row: the progress value of
    the row is the third event of the call and the request whose answer
    it would report is the fourth; with the value published before the
    loop and the clearing after it, one row has three progress values. *)
Lemma progress_published_before_outcome :
  let inventory := [Sample.bolt] in
  let s := Sample.formWith [Sample.entry 1 "Bolt" "3" "pcs"] None [true] in
  let ev := Sample.emitted ISSUE inventory s in
  @Form.validateItems Z Sample.ZNumber ISSUE inventory
    (Form.items (Form.form s)) = None /\
  Form.indexOf (Form.isProgress (1, 1)) ev = Some 2 /\
  Form.indexOf (Form.isSubmitOf "Bolt") ev = Some 3 /\
  Form.progressValues ev = [Some (0, 1); Some (1, 1); None].
Proof. vm_compute. repeat split. Qed.

Lemma progress_precedes_each_submission_witness :
  let inventory := [Sample.bolt; Sample.nut] in
  let s := Sample.formWith
             [Sample.entry 1 "Bolt" "3" "pcs"; Sample.entry 2 "Nut" "7" "pcs"]
             None [true; false] in
  let ev := Sample.emitted ISSUE inventory s in
  @Form.validateItems Z Sample.ZNumber ISSUE inventory
    (Form.items (Form.form s)) = None /\
  List.length (Form.requests ev) = 2 /\
  map req_itemName (Form.requests ev) = ["Bolt"; "Nut"] /\
  Form.progressValues ev = [Some (0, 2); Some (1, 2); Some (2, 2); None].
Proof.
  cbv zeta. split; [reflexivity|].
  destruct (@progress_precedes_each_submission Z Sample.ZNumber string
       (list bool) Sample.scriptedSink Sample.fileStore ISSUE
       [Sample.bolt; Sample.nut]
       (Sample.formWith
          [Sample.entry 1 "Bolt" "3" "pcs"; Sample.entry 2 "Nut" "7" "pcs"]
          None [true; false])
       eq_refl) as (url & w1 & _ & Hlen & Hnames & _ & _ & Hprog).
  split; [exact Hlen|]. split; [exact Hnames|]. exact Hprog.
Defined.




(** ** Facts about objects used as dictionaries *)

Section ObjFacts.
Context {V : Type}.
Implicit Types (o : JS.Obj V) (k : string) (v : V).

Lemma getOwn_None k o : JS.getOwn k o = None <-> ~ In k (JS.keys o).
Proof.
  induction o as [|[k' v'] o IH]; cbn; [tauto|].
  destruct (String.eqb_spec k' k) as [E|E].
  - split; [discriminate|]. intros H. exfalso. apply H. now left.
  - rewrite IH. tauto.
Qed.

Lemma getOwn_In k v o : JS.getOwn k o = Some v -> In (k, v) o.
Proof.
  induction o as [|[k' v'] o IH]; cbn; [discriminate|].
  destruct (String.eqb_spec k' k) as [E|E]; [|auto].
  intros H. inversion H; subst. now left.
Qed.

Lemma In_getOwn k v o :
  NoDup (JS.keys o) -> In (k, v) o -> JS.getOwn k o = Some v.
Proof.
  induction o as [|[k' v'] o IH]; cbn; [tauto|].
  intros ND [E|Hin].
  - inversion E; subst. now rewrite String.eqb_refl.
  - inversion ND as [|x xs Hnotin ND']; subst.
    destruct (String.eqb_spec k' k) as [E|E]; [|auto].
    subst. exfalso. apply Hnotin.
    change k with (fst (k, v)). now apply in_map.
Qed.

Lemma removeKey_notin k o : ~ In k (JS.keys o) -> JS.removeKey k o = o.
Proof.
  unfold JS.removeKey.
  induction o as [|[k' v'] o IH]; cbn; [reflexivity|].
  intros H. destruct (String.eqb_spec k' k) as [E|E]; cbn.
  - exfalso. apply H. now left.
  - f_equal. apply IH. tauto.
Qed.

Lemma removeKey_In k k' v' o :
  In (k', v') (JS.removeKey k o) <-> k' <> k /\ In (k', v') o.
Proof.
  unfold JS.removeKey. rewrite filter_In. cbn [fst].
  destruct (String.eqb_spec k' k); cbn; intuition congruence.
Qed.

Lemma removeKey_keys k o : ~ In k (JS.keys (JS.removeKey k o)).
Proof.
  unfold JS.keys. rewrite in_map_iff. intros ([k' v'] & E & Hin).
  cbn in E. subst. apply removeKey_In in Hin. tauto.
Qed.

Lemma removeKey_NoDup k o :
  NoDup (JS.keys o) -> NoDup (JS.keys (JS.removeKey k o)).
Proof. apply NoDup_map_filter. Qed.

(** A new property is put somewhere among the old ones, after all of
    them when its key is not an array index. *)
Lemma place_split k v o :
  exists o1 o2,
    o = o1 ++ o2 /\ JS.place k v o = o1 ++ (k, v) :: o2 /\
    (JS.arrayIndex k = None -> o2 = []).
Proof.
  induction o as [|[k' v'] o IH]; cbn.
  - exists [], []. repeat split.
  - destruct (JS.precedes k k') eqn:P.
    + exists [], ((k', v') :: o). repeat split.
      intros N. unfold JS.precedes in P. rewrite N in P. discriminate.
    + destruct IH as (o1 & o2 & E1 & E2 & E3).
      exists ((k', v') :: o1), o2. cbn. rewrite E2, <- E1. repeat split.
      exact E3.
Qed.

Lemma place_perm k v o : Permutation (JS.place k v o) ((k, v) :: o).
Proof.
  destruct (place_split k v o) as (o1 & o2 & E1 & E2 & _).
  rewrite E2, E1. symmetry. apply Permutation_middle.
Qed.

(** An old property is rewritten where it stands. *)
Lemma replace_split k v v0 o :
  JS.getOwn k o = Some v0 ->
  exists o1 o2,
    o = o1 ++ (k, v0) :: o2 /\ JS.replace k v o = o1 ++ (k, v) :: o2 /\
    ~ In k (JS.keys o1).
Proof.
  induction o as [|[k' v'] o IH]; cbn; [discriminate|].
  destruct (String.eqb_spec k' k) as [E|E].
  - intros H. inversion H; subst. exists [], o. repeat split. intros [].
  - intros H. destruct (IH H) as (o1 & o2 & E1 & E2 & E3).
    exists ((k', v') :: o1), o2. cbn. rewrite E2, <- E1. repeat split.
    intros [F|F]; [congruence|tauto].
Qed.

Lemma setOwn_perm k v o :
  NoDup (JS.keys o) ->
  Permutation (JS.setOwn k v o) ((k, v) :: JS.removeKey k o).
Proof.
  intros ND. unfold JS.setOwn.
  destruct (JS.getOwn k o) as [v0|] eqn:G.
  - destruct (replace_split k v v0 o G) as (o1 & o2 & E1 & E2 & E3).
    rewrite E2. subst o. unfold JS.removeKey. rewrite filter_app. cbn.
    rewrite String.eqb_refl. cbn.
    unfold JS.keys in ND. rewrite map_app in ND. cbn in ND.
    apply NoDup_remove in ND. destruct ND as [_ Hnotin].
    fold (JS.removeKey k o1). fold (JS.removeKey k o2).
    rewrite !removeKey_notin.
    + symmetry. apply Permutation_middle.
    + intros H. apply Hnotin. apply in_or_app. now right.
    + exact E3.
  - rewrite place_perm. apply getOwn_None in G.
    now rewrite (removeKey_notin _ _ G).
Qed.

Lemma getOwn_perm k v0 o :
  NoDup (JS.keys o) -> JS.getOwn k o = Some v0 ->
  Permutation o ((k, v0) :: JS.removeKey k o).
Proof.
  intros ND G.
  destruct (replace_split k v0 v0 o G) as (o1 & o2 & E1 & E2 & E3).
  unfold JS.keys in ND. rewrite E1, map_app in ND. cbn in ND.
  apply NoDup_remove in ND. destruct ND as [_ Hnotin].
  rewrite E1 at 2. unfold JS.removeKey. rewrite filter_app. cbn.
  rewrite String.eqb_refl. cbn.
  fold (JS.removeKey k o1). fold (JS.removeKey k o2).
  rewrite !removeKey_notin.
  - rewrite E1. symmetry. apply Permutation_middle.
  - intros H. apply Hnotin. apply in_or_app. now right.
  - exact E3.
Qed.

Lemma setOwn_NoDup k v o :
  NoDup (JS.keys o) -> NoDup (JS.keys (JS.setOwn k v o)).
Proof.
  intros ND. unfold JS.keys.
  eapply Permutation_NoDup;
    [symmetry; apply Permutation_map, setOwn_perm; exact ND|].
  cbn. constructor; [apply removeKey_keys|apply removeKey_NoDup; exact ND].
Qed.

Lemma setOwn_In k v k' v' o :
  NoDup (JS.keys o) ->
  (In (k', v') (JS.setOwn k v o) <->
   (k' = k /\ v' = v) \/ (k' <> k /\ In (k', v') o)).
Proof.
  intros ND. split.
  - intros H. apply (Permutation_in _ (setOwn_perm k v o ND)) in H.
    destruct H as [E|H]; [inversion E; auto|].
    apply removeKey_In in H. auto.
  - intros H.
    apply (Permutation_in _ (Permutation_sym (setOwn_perm k v o ND))).
    destruct H as [[-> ->]|H]; [now left|right].
    apply removeKey_In. exact H.
Qed.

Lemma setOwn_keys k v o :
  forall k', In k' (JS.keys (JS.setOwn k v o)) <-> k' = k \/ In k' (JS.keys o).
Proof.
  intros k'. unfold JS.setOwn.
  destruct (JS.getOwn k o) as [v0|] eqn:G.
  - destruct (replace_split k v v0 o G) as (o1 & o2 & E1 & E2 & _).
    rewrite E2, E1. unfold JS.keys. rewrite !map_app. cbn.
    rewrite !in_app_iff. cbn. intuition.
  - destruct (place_split k v o) as (o1 & o2 & E1 & E2 & _).
    rewrite E2, E1. unfold JS.keys. rewrite !map_app. cbn.
    rewrite !in_app_iff. cbn. intuition.
Qed.

End ObjFacts.

(** ** Facts about the reports view *)

Section SortFacts.
Context {A : Type} (cmp : A -> A -> Z).

Lemma insert_perm (x : A) (l : list A) :
  Permutation (JS.insert cmp x l) (x :: l).
Proof.
  induction l as [|y l IH]; cbn; [reflexivity|].
  destruct (cmp x y <=? 0)%Z; [reflexivity|].
  rewrite IH. apply perm_swap.
Qed.

Lemma sort_perm (l : list A) : Permutation (JS.sort cmp l) l.
Proof.
  induction l as [|x l IH]; cbn; [reflexivity|].
  rewrite insert_perm. now constructor.
Qed.

Lemma sort_In (x : A) (l : list A) : In x (JS.sort cmp l) <-> In x l.
Proof.
  split; apply Permutation_in; [|symmetry]; apply sort_perm.
Qed.

End SortFacts.

(** Sorting in descending order of a numeric key: the comparator is
    [key b - key a]. *)
Section SortByKey.
Context {A : Type} (key : A -> nat).
Let cmp (a b : A) : Z := (Z.of_nat (key b) - Z.of_nat (key a))%Z.
Let desc (a b : A) : Prop := key b <= key a.

Lemma insert_sorted (x : A) (l : list A) :
  StronglySorted desc l -> StronglySorted desc (JS.insert cmp x l).
Proof.
  induction 1 as [|y l Hs IH Hall]; cbn.
  - constructor; constructor.
  - destruct (Z.leb_spec (cmp x y) 0) as [Hle|Hgt]; unfold cmp in *.
    + constructor; [constructor; assumption|].
      constructor; [unfold desc; lia|].
      eapply Forall_impl; [|exact Hall]. unfold desc. intros z Hz. lia.
    + constructor; [exact IH|].
      eapply Permutation_Forall; [symmetry; apply insert_perm|].
      constructor; [unfold desc; lia|exact Hall].
Qed.

Lemma sort_sorted (l : list A) : StronglySorted desc (JS.sort cmp l).
Proof.
  induction l as [|x l IH]; cbn; [constructor|].
  apply insert_sorted. exact IH.
Qed.

(** The elements of one key keep their order. *)
Lemma insert_class (q : A -> bool) (n : nat) (x : A) (l : list A) :
  filter (fun e => q e && (key e =? n)%nat) (JS.insert cmp x l) =
  filter (fun e => q e && (key e =? n)%nat) (x :: l).
Proof.
  induction l as [|y l IH]; cbn; [reflexivity|].
  destruct (Z.leb_spec (cmp x y) 0) as [Hle|Hgt]; unfold cmp in *;
    [reflexivity|].
  cbn [filter]. rewrite IH. cbn [filter].
  destruct (Nat.eqb_spec (key x) n) as [Ex|Ex];
    destruct (Nat.eqb_spec (key y) n) as [Ey|Ey];
    rewrite ?andb_false_r, ?andb_true_r; try reflexivity.
  lia.
Qed.

Lemma sort_class (q : A -> bool) (n : nat) (l : list A) :
  filter (fun e => q e && (key e =? n)%nat) (JS.sort cmp l) =
  filter (fun e => q e && (key e =? n)%nat) l.
Proof.
  induction l as [|x l IH]; cbn [JS.sort fold_right]; [reflexivity|].
  fold (JS.sort cmp l). rewrite insert_class. cbn [filter]. now rewrite IH.
Qed.

End SortByKey.

Section ReportsFacts.
Import Reports.
Context {num : Type} {NO : NumberOps num} {DO : DateOps}.
Variable typeValue : TransactionType -> string.

Local Abbreviation Transaction := (Reports.Transaction num).
Local Abbreviation Floor := (Floor.t num).
Local Abbreviation csvRow := (Reports.csvRow typeValue).
Local Abbreviation csvRows := (Reports.csvRows typeValue).
Local Abbreviation csvContent := (Reports.csvContent typeValue).

(** *** The filter *)

Lemma filtered_In (f : Filters) (transactions : list Transaction) t :
  In t (filteredTransactions f transactions) <->
  In t transactions /\ matches f t = true.
Proof.
  unfold filteredTransactions. rewrite sort_In, filter_In. reflexivity.
Qed.

Lemma matches_spec (f : Filters) (t : Transaction) :
  matches f t = true <->
  matchesType f t = true /\ matchesLocation f t = true /\
  matchesStart f t = true /\ matchesEnd f t = true.
Proof.
  unfold matches. cbn [andb]. rewrite !andb_true_iff. tauto.
Qed.

(** *** The aggregation, one transaction after the other *)

Lemma visit_location t (fl : Floor) :
  Floor.location (visit t fl) = Floor.location fl.
Proof.
  unfold visit, touch, withItems, countFloor.
  destruct (type t), (JS.time_gt _ _); reflexivity.
Qed.

Lemma visit_issued t (fl : Floor) :
  Floor.issued (visit t fl) =
    if isIssue t then S (Floor.issued fl) else Floor.issued fl.
Proof.
  unfold visit, touch, withItems, countFloor, isIssue.
  destruct (type t), (JS.time_gt _ _); reflexivity.
Qed.

Lemma visit_received t (fl : Floor) :
  Floor.received (visit t fl) =
    if isReceive t then S (Floor.received fl) else Floor.received fl.
Proof.
  unfold visit, touch, withItems, countFloor, isReceive.
  destruct (type t), (JS.time_gt _ _); reflexivity.
Qed.

Lemma visit_issuedQty t (fl : Floor) :
  Floor.issuedQty (visit t fl) =
    if isIssue t then num_add (Floor.issuedQty fl) (quantity t)
    else Floor.issuedQty fl.
Proof.
  unfold visit, touch, withItems, countFloor, isIssue.
  destruct (type t), (JS.time_gt _ _); reflexivity.
Qed.

Lemma visit_receivedQty t (fl : Floor) :
  Floor.receivedQty (visit t fl) =
    if isReceive t then num_add (Floor.receivedQty fl) (quantity t)
    else Floor.receivedQty fl.
Proof.
  unfold visit, touch, withItems, countFloor, isReceive.
  destruct (type t), (JS.time_gt _ _); reflexivity.
Qed.

Lemma visit_lastActivity t (fl : Floor) :
  Floor.lastActivity (visit t fl) =
    if JS.time_gt (parseDate (date t)) (parseDate (Floor.lastActivity fl))
    then date t else Floor.lastActivity fl.
Proof.
  unfold visit, touch, withItems, countFloor.
  destruct (type t); cbn [Floor.lastActivity];
    destruct (JS.time_gt _ _); reflexivity.
Qed.

Lemma floorStep_Some (m m' : JS.Obj Floor) t :
  floorStep m t = Some m' ->
  inheritedName t = false /\
  m' = JS.setOwn (location t) (visit t (entryFor m t)) m.
Proof.
  unfold floorStep, inheritedName.
  destruct (JS.inherited (location t)); [discriminate|].
  destruct (JS.inherited (itemName t)); [discriminate|].
  intros H. inversion H. split; reflexivity.
Qed.

Lemma floorStep_None (m : JS.Obj Floor) t :
  floorStep m t = None <-> inheritedName t = true.
Proof.
  unfold floorStep, inheritedName.
  destruct (JS.inherited (location t)); [cbn; tauto|].
  destruct (JS.inherited (itemName t)); cbn; split; congruence.
Qed.

Lemma sumQuantity_snoc (l : list Transaction) t :
  sumQuantity (l ++ [t]) = num_add (sumQuantity l) (quantity t).
Proof. unfold sumQuantity. rewrite fold_left_app. reflexivity. Qed.

Lemma filter_snoc {A} (p : A -> bool) (l : list A) (x : A) :
  filter p (l ++ [x]) = if p x then filter p l ++ [x] else filter p l.
Proof.
  rewrite filter_app. cbn. destruct (p x); [reflexivity|apply app_nil_r].
Qed.

Lemma time_gt_irrefl (a : option Z) : JS.time_gt a a = false.
Proof. destruct a; cbn; [apply Z.ltb_irrefl|reflexivity]. Qed.

Lemma time_gt_later (a b c : option Z) :
  JS.time_gt b a = true -> JS.time_gt c a = false -> JS.time_gt c b = false.
Proof.
  destruct a as [a|], b as [b|], c as [c|]; cbn; try discriminate; auto.
  rewrite Z.ltb_lt, !Z.ltb_ge. lia.
Qed.

Lemma entryOK_other seen k e t :
  location t <> k -> entryOK seen k e -> entryOK (seen ++ [t]) k e.
Proof.
  intros Hne (H1 & H2 & H3 & H4 & H5 & H6 & H7).
  assert (Hat : atLocation k t = false).
  { unfold atLocation. destruct (String.eqb_spec (location t) k); congruence. }
  unfold entryOK, issuedAt, receivedAt. rewrite !filter_snoc, Hat.
  rewrite !andb_false_r. repeat (split; [assumption|]).
  intros t' Hin Hk. apply in_app_or in Hin.
  destruct Hin as [Hin|[<-|[]]]; [auto|congruence].
Qed.

Lemma entryOK_visit_old seen t e :
  entryOK seen (location t) e ->
  entryOK (seen ++ [t]) (location t) (visit t e).
Proof.
  intros (H1 & H2 & H3 & H4 & H5 & H6 & H7).
  assert (Hat : atLocation (location t) t = true).
  { unfold atLocation. apply String.eqb_refl. }
  unfold entryOK, issuedAt, receivedAt. rewrite !filter_snoc, Hat.
  rewrite !andb_true_r.
  rewrite visit_location, visit_issued, visit_received, visit_issuedQty,
    visit_receivedQty, visit_lastActivity.
  split; [assumption|].
  split; [destruct (isIssue t); [rewrite length_app; cbn;
                                 unfold issuedAt in H2; lia|exact H2]|].
  split; [destruct (isReceive t); [rewrite length_app; cbn;
                                   unfold receivedAt in H3; lia|exact H3]|].
  split; [destruct (isIssue t); [rewrite sumQuantity_snoc; f_equal; exact H4
                                |exact H4]|].
  split; [destruct (isReceive t); [rewrite sumQuantity_snoc; f_equal; exact H5
                                  |exact H5]|].
  rewrite map_app, in_app_iff. cbn [map In].
  destruct (JS.time_gt (parseDate (date t))
              (parseDate (Floor.lastActivity e))) eqn:G.
  - split; [right; now left|].
    intros t' Hin Hk. apply in_app_or in Hin.
    destruct Hin as [Hin|[<-|[]]]; [|apply time_gt_irrefl].
    eapply time_gt_later; [exact G|]. auto.
  - split; [left; exact H6|].
    intros t' Hin Hk. apply in_app_or in Hin.
    destruct Hin as [Hin|[<-|[]]]; [auto|exact G].
Qed.

Lemma filter_none {A} (p : A -> bool) (l : list A) :
  (forall x, In x l -> p x = false) -> filter p l = [].
Proof.
  induction l as [|a l IH]; cbn; intros H; [reflexivity|].
  rewrite (H a (or_introl eq_refl)). apply IH. auto.
Qed.

Lemma entryOK_visit_new seen t :
  (forall t', In t' seen -> location t' <> location t) ->
  entryOK (seen ++ [t]) (location t) (visit t (newFloor t)).
Proof.
  intros Hnew.
  assert (Hat : atLocation (location t) t = true).
  { unfold atLocation. apply String.eqb_refl. }
  assert (Hnone : forall p, filter (fun x => p x && atLocation (location t) x)
                              seen = []).
  { intros p. apply filter_none. intros x Hx. unfold atLocation.
    destruct (String.eqb_spec (location x) (location t)) as [E|E];
      [exfalso; eapply Hnew; eassumption|apply andb_false_r]. }
  assert (Hnone' : filter (atLocation (location t)) seen = []).
  { apply filter_none. intros x Hx. unfold atLocation.
    destruct (String.eqb_spec (location x) (location t)) as [E|E];
      [exfalso; eapply Hnew; eassumption|reflexivity]. }
  unfold entryOK, issuedAt, receivedAt. rewrite !filter_snoc, Hat.
  rewrite !andb_true_r, !Hnone, Hnone'.
  rewrite visit_location, visit_issued, visit_received, visit_issuedQty,
    visit_receivedQty, visit_lastActivity.
  cbn [newFloor Floor.location Floor.issued Floor.received Floor.issuedQty
       Floor.receivedQty Floor.lastActivity app].
  rewrite time_gt_irrefl.
  split; [reflexivity|].
  split; [destruct (isIssue t); reflexivity|].
  split; [destruct (isReceive t); reflexivity|].
  split; [destruct (isIssue t); reflexivity|].
  split; [destruct (isReceive t); reflexivity|].
  split; [now left|].
  intros t' Hin Hk. apply in_app_or in Hin.
  destruct Hin as [Hin|[<-|[]]]; [|apply time_gt_irrefl].
  exfalso. eapply Hnew; eassumption.
Qed.

Lemma floorStep_mapOK seen (m m' : JS.Obj Floor) t :
  mapOK seen m -> floorStep m t = Some m' -> mapOK (seen ++ [t]) m'.
Proof.
  intros (ND & Hent & Hseen) Hstep.
  apply floorStep_Some in Hstep. destruct Hstep as [_ ->].
  split; [apply setOwn_NoDup; exact ND|]. split.
  - intros k e Hin. apply (setOwn_In _ _ _ _ _ ND) in Hin.
    destruct Hin as [[-> ->]|[Hne Hin]].
    + unfold entryFor. destruct (JS.getOwn (location t) m) as [fl|] eqn:G.
      * apply entryOK_visit_old. apply Hent. now apply getOwn_In.
      * apply entryOK_visit_new. intros t' Hin' E.
        apply getOwn_None in G. apply G. rewrite <- E. auto.
    + apply entryOK_other; [congruence|auto].
  - intros t' Hin. apply setOwn_keys. apply in_app_or in Hin.
    destruct Hin as [Hin|[<-|[]]]; [right; auto|now left].
Qed.

Lemma forEach_mapOK (rest : list Transaction) :
  forall seen (m m' : JS.Obj Floor),
  mapOK seen m -> forEach m rest = Some m' -> mapOK (seen ++ rest) m'.
Proof.
  induction rest as [|t rest IH]; intros seen m m' Hok Hrun; cbn in Hrun.
  - inversion Hrun; subst. now rewrite app_nil_r.
  - destruct (floorStep m t) as [m1|] eqn:Hstep; [|discriminate].
    replace (seen ++ t :: rest) with ((seen ++ [t]) ++ rest)
      by (rewrite <- app_assoc; reflexivity).
    eapply IH; [|exact Hrun]. eapply floorStep_mapOK; eassumption.
Qed.

Lemma forEach_None (rest : list Transaction) :
  forall m : JS.Obj Floor,
  forEach m rest = None <-> Exists (fun t => inheritedName t = true) rest.
Proof.
  induction rest as [|t rest IH]; intros m; cbn.
  - split; [discriminate|]. intros H. inversion H.
  - destruct (floorStep m t) as [m1|] eqn:Hstep.
    + rewrite IH. split; [now right|].
      intros H. inversion H as [? ? Ht|]; subst; [|assumption].
      apply floorStep_None with (m := m) in Ht. congruence.
    + split; [|reflexivity]. intros _. left.
      now apply floorStep_None with (m := m).
Qed.

Lemma mapOK_empty : mapOK [] ([] : JS.Obj Floor).
Proof.
  split; [constructor|]. split; [intros k e []|intros t []].
Qed.

Lemma floorSummary_Some (filtered : list Transaction) (fs : list Floor) :
  floorSummary filtered = Some fs ->
  exists m, forEach [] filtered = Some m /\
            fs = JS.sort byActivityDesc (JS.values m) /\ mapOK filtered m.
Proof.
  unfold floorSummary.
  destruct (forEach [] filtered) as [m|] eqn:Hrun; [|discriminate].
  intros H. inversion H; subst. exists m.
  split; [reflexivity|]. split; [reflexivity|].
  apply (forEach_mapOK filtered [] [] m mapOK_empty Hrun).
Qed.

Lemma floorSummary_entry (filtered : list Transaction) (fs : list Floor) e :
  floorSummary filtered = Some fs -> In e fs ->
  entryOK filtered (Floor.location e) e.
Proof.
  intros H Hin. apply floorSummary_Some in H.
  destruct H as (m & _ & -> & (_ & Hent & _)).
  apply sort_In in Hin. unfold JS.values in Hin. apply in_map_iff in Hin.
  destruct Hin as ([k e'] & E & Hin). cbn in E. subst e'.
  pose proof (Hent k e Hin) as Hok.
  destruct Hok as (Hloc & _). rewrite Hloc. apply Hent. exact Hin.
Qed.

(** *** Sums over the locations

    The sums of a floor add up the quantities in the order of the list,
    and so does the total of the statistics; the floors added up take the
    same quantities in another order and in other groups. The two agree
    where the additions are exact: [exact] holds of the numbers that are
    counts of some unit, [val] is the count, and adding two of them is
    adding their counts as long as these stay within [bound]. (Of the
    numbers of the language the whole ones up to 2^53 are such, the unit
    being one, as are the multiples of a power of two up to 2^53 units.) *)

Section Sums.
Variable val : num -> Z.
Variable exact : num -> Prop.
Variable bound : Z.
Hypothesis exact_zero : exact num_zero /\ val num_zero = 0%Z.
Hypothesis exact_add : forall a b : num,
  exact a -> exact b -> (Z.abs (val a) + Z.abs (val b) <= bound)%Z ->
  exact (num_add a b) /\ val (num_add a b) = (val a + val b)%Z.
Hypothesis exact_inj : forall a b : num,
  exact a -> exact b -> val a = val b -> a = b.

Local Abbreviation zsum := (fold_right Z.add 0%Z).
Local Abbreviation size := (fun x : num => Z.abs (val x)).
Local Abbreviation count := (fun t : Transaction => val (quantity t)).
Local Abbreviation weight := (fun t : Transaction => Z.abs (val (quantity t))).

Lemma zsum_nonneg {A} (w : A -> Z) (l : list A) :
  (forall x, 0 <= w x)%Z -> (0 <= zsum (map w l))%Z.
Proof.
  intros H. induction l as [|x l IH]; cbn; [lia|]. specialize (H x). lia.
Qed.

Lemma zsum_abs {A} (w : A -> Z) (l : list A) :
  (Z.abs (zsum (map w l)) <= zsum (map (fun x => Z.abs (w x)) l))%Z.
Proof. induction l as [|x l IH]; cbn; lia. Qed.

Lemma zsum_le {A} (v w : A -> Z) (l : list A) :
  (forall x, In x l -> v x <= w x)%Z -> (zsum (map v l) <= zsum (map w l))%Z.
Proof.
  induction l as [|x l IH]; intros H; cbn; [lia|].
  pose proof (H x (or_introl eq_refl)).
  assert (zsum (map v l) <= zsum (map w l))%Z
    by (apply IH; intros y Hy; apply H; now right).
  lia.
Qed.

Lemma zsum_filter_le {A} (w : A -> Z) (p : A -> bool) (l : list A) :
  (forall x, 0 <= w x)%Z ->
  (zsum (map w (filter p l)) <= zsum (map w l))%Z.
Proof.
  intros H. induction l as [|x l IH]; cbn; [lia|].
  specialize (H x). destruct (p x); cbn; lia.
Qed.

Lemma zsum_perm (l l' : list Z) : Permutation l l' -> zsum l = zsum l'.
Proof. induction 1; cbn in *; lia. Qed.

Lemma zsum_add {A} (v w : A -> Z) (l : list A) :
  zsum (map (fun x => v x + w x)%Z l) = (zsum (map v l) + zsum (map w l))%Z.
Proof. induction l as [|x l IH]; cbn in *; lia. Qed.

Lemma zsum_zero {A} (l : list A) : zsum (map (fun _ => 0%Z) l) = 0%Z.
Proof. induction l; cbn; auto. Qed.

Lemma zsum_one (x : string) (w : Z) (ks : list string) :
  NoDup ks -> In x ks ->
  zsum (map (fun k => if x =? k then w else 0%Z) ks) = w.
Proof.
  induction ks as [|k ks IH]; cbn; [tauto|]. intros ND Hin.
  inversion ND as [|? ? Hnotin ND']; subst.
  destruct (String.eqb_spec x k) as [E|E].
  - subst. replace (zsum (map (fun k0 => if k =? k0 then w else 0%Z) ks))
      with 0%Z; [lia|].
    clear IH Hin ND ND'.
    induction ks as [|k' ks IHk]; cbn; [reflexivity|].
    destruct (String.eqb_spec k k') as [E|E].
    + exfalso. apply Hnotin. now left.
    + rewrite <- IHk; [lia|]. intros H. apply Hnotin. now right.
  - destruct Hin as [Hin|Hin]; [congruence|]. rewrite IH; auto.
Qed.

(** A weight of the transactions that satisfy [p], summed location by
    location. *)
Lemma weight_by_location (w : Transaction -> Z) (p : Transaction -> bool)
    (ks : list string) (l : list Transaction) :
  NoDup ks -> (forall t, In t l -> In (location t) ks) ->
  zsum (map (fun k =>
          zsum (map w (filter (fun t => p t && atLocation k t) l))) ks) =
  zsum (map w (filter p l)).
Proof.
  intros ND. induction l as [|t l IH]; intros Hin; cbn [filter].
  - cbn. apply zsum_zero.
  - rewrite (map_ext _ (fun k =>
      (if (location t =? k)%string then (if p t then w t else 0) else 0) +
      zsum (map w (filter (fun t => p t && atLocation k t) l)))%Z).
    2:{ intros k. unfold atLocation at 1.
        destruct (p t), (location t =? k)%string; reflexivity. }
    rewrite zsum_add, IH by (intros t' H; apply Hin; now right).
    rewrite zsum_one; [|exact ND|apply Hin; now left].
    destruct (p t); reflexivity.
Qed.

Lemma fold_exact (l : list num) :
  forall acc,
  exact acc -> Forall exact l ->
  (Z.abs (val acc) + zsum (map size l) <= bound)%Z ->
  exact (fold_left num_add l acc) /\
  val (fold_left num_add l acc) = (val acc + zsum (map val l))%Z.
Proof.
  induction l as [|x l IH]; intros acc Ha Hl Hb; cbn in *.
  - split; [exact Ha|lia].
  - inversion Hl as [|? ? Hx Hl']; subst.
    pose proof (zsum_nonneg size l ltac:(intros; lia)) as Hpos.
    destruct (exact_add acc x Ha Hx ltac:(lia)) as [He Hv].
    destruct (IH (num_add acc x) He Hl' ltac:(lia)) as [He' Hv'].
    split; [exact He'|lia].
Qed.

Lemma total_exact (l : list num) :
  Forall exact l -> (zsum (map size l) <= bound)%Z ->
  exact (total l) /\ val (total l) = zsum (map val l).
Proof.
  intros Hl Hb. destruct exact_zero as [H0 V0].
  destruct (fold_exact l num_zero H0 Hl ltac:(lia)) as [He Hv].
  split; [exact He|]. unfold total. lia.
Qed.

Lemma sumQuantity_total (l : list Transaction) :
  sumQuantity l = total (map quantity l).
Proof.
  unfold sumQuantity, total. generalize (@num_zero num NO).
  induction l as [|t l IH]; intros z; cbn; [reflexivity|apply IH].
Qed.

Lemma sumQuantity_exact (l : list Transaction) :
  (forall t, In t l -> exact (quantity t)) ->
  (zsum (map weight l) <= bound)%Z ->
  exact (sumQuantity l) /\ val (sumQuantity l) = zsum (map count l).
Proof.
  intros Hl Hb. rewrite sumQuantity_total.
  destruct (total_exact (map quantity l)) as [He Hv].
  - apply Forall_forall. intros x Hx. apply in_map_iff in Hx.
    destruct Hx as (t & <- & Ht). auto.
  - rewrite map_map. exact Hb.
  - split; [exact He|]. rewrite Hv, map_map. reflexivity.
Qed.

(** A quantity field of the floors that holds, for each floor, the sum
    over the transactions of the floor that satisfy [p], adds up over the
    floors to the sum over all the transactions of the list that satisfy
    [p]. *)
Lemma floors_total (f : Floor -> num) (p : Transaction -> bool)
    (filtered : list Transaction) (fs : list Floor) (m : JS.Obj Floor) :
  Permutation fs (JS.values m) -> mapOK filtered m ->
  (forall k e, In (k, e) m ->
     f e = sumQuantity (filter (fun t => p t && atLocation k t) filtered)) ->
  (forall t, In t filtered -> exact (quantity t)) ->
  (zsum (map weight filtered) <= bound)%Z ->
  total (map f fs) = sumQuantity (filter p filtered).
Proof.
  intros Hperm (ND & Hent & Hseen) Hf Hq Hb.
  assert (Hpos : forall t : Transaction, (0 <= weight t)%Z) by (intros; lia).
  assert (Hsub : forall q : Transaction -> bool,
            exact (sumQuantity (filter q filtered)) /\
            val (sumQuantity (filter q filtered)) =
              zsum (map count (filter q filtered))).
  { intros q. apply sumQuantity_exact.
    - intros t Ht. apply filter_In in Ht. apply Hq. tauto.
    - pose proof (zsum_filter_le weight q filtered Hpos). lia. }
  assert (Hfloor : forall e, In e fs ->
            exists k, In (k, e) m /\
              f e = sumQuantity
                      (filter (fun t => p t && atLocation k t) filtered)).
  { intros e He. apply (Permutation_in _ Hperm) in He. unfold JS.values in He.
    apply in_map_iff in He. destruct He as ([k e'] & E & Hin). cbn in E.
    subst e'. exists k. split; [exact Hin|]. now apply Hf. }
  assert (Hkeys : forall w : Transaction -> Z,
            zsum (map (fun e =>
                    zsum (map w (filter (fun t =>
                       p t && atLocation (Floor.location e) t) filtered))) fs)
            = zsum (map w (filter p filtered))).
  { intros w.
    rewrite (zsum_perm _ _ (Permutation_map _ Hperm)).
    rewrite <- (weight_by_location w p (JS.keys m) filtered ND Hseen).
    f_equal. clear - Hent. induction m as [|[k e] m IH]; [reflexivity|].
    cbn. f_equal.
    - destruct (Hent k e (or_introl eq_refl)) as [-> _]. reflexivity.
    - apply IH. intros k' e' Hin. apply Hent. now right. }
  assert (Hloc : forall e, In e fs ->
            f e = sumQuantity (filter (fun t =>
                    p t && atLocation (Floor.location e) t) filtered)).
  { intros e He. destruct (Hfloor e He) as (k & Hin & E).
    destruct (Hent k e Hin) as [-> _]. exact E. }
  destruct (total_exact (map f fs)) as [He Hv].
  - apply Forall_forall. intros x Hx. apply in_map_iff in Hx.
    destruct Hx as (e & <- & Hin). rewrite (Hloc e Hin). apply Hsub.
  - rewrite map_map.
    apply Z.le_trans with (m := zsum (map weight (filter p filtered)));
      [|apply Z.le_trans with (m := zsum (map weight filtered));
        [apply zsum_filter_le; exact Hpos|exact Hb]].
    rewrite <- (Hkeys weight).
    apply zsum_le. intros e Hin. rewrite (Hloc e Hin).
    rewrite (proj2 (Hsub _)). apply zsum_abs.
  - apply exact_inj; [exact He|apply Hsub|].
    rewrite Hv, map_map, (proj2 (Hsub p)), <- (Hkeys count).
    f_equal. apply map_ext_in. intros e Hin. rewrite (Hloc e Hin).
    apply Hsub.
Qed.


End Sums.

(** *** The order of the summary *)

Lemma newSet_snoc (l : list string) (x : string) :
  JS.newSet (l ++ [x]) = JS.setAdd x (JS.newSet l).
Proof. unfold JS.newSet. rewrite fold_left_app. reflexivity. Qed.

Lemma includes_false (x : string) (l : list string) :
  ~ In x l -> JS.includes x l = false.
Proof.
  intros H. destruct (JS.includes x l) eqn:E; [|reflexivity].
  apply includes_In in E. contradiction.
Qed.

Lemma replace_keys {V} k (v v0 : V) (o : JS.Obj V) :
  JS.getOwn k o = Some v0 -> JS.keys (JS.replace k v o) = JS.keys o.
Proof.
  intros G. destruct (replace_split k v v0 o G) as (o1 & o2 & E1 & E2 & _).
  rewrite E2, E1. unfold JS.keys. rewrite !map_app. reflexivity.
Qed.

Lemma floorStep_keysOK seen (m m' : JS.Obj Floor) t :
  keysOK seen m -> floorStep m t = Some m' -> keysOK (seen ++ [t]) m'.
Proof.
  unfold keysOK. intros Hk Hstep.
  apply floorStep_Some in Hstep. destruct Hstep as [_ ->].
  rewrite map_app. cbn [map]. rewrite filter_snoc. unfold JS.setOwn.
  destruct (JS.getOwn (location t) m) as [fl|] eqn:G.
  - rewrite (replace_keys _ _ _ _ G).
    destruct (plainName (location t)) eqn:P; [|exact Hk].
    rewrite newSet_snoc. unfold JS.setAdd. rewrite <- Hk.
    assert (Hin : In (location t) (filter plainName (JS.keys m))).
    { apply filter_In. split; [|exact P].
      apply getOwn_In in G. unfold JS.keys.
      change (location t) with (fst (location t, fl)). now apply in_map. }
    apply includes_In in Hin. now rewrite Hin.
  - destruct (place_split (location t) (visit t (entryFor m t)) m)
      as (o1 & o2 & E1 & E2 & E3).
    apply getOwn_None in G.
    rewrite E2. unfold JS.keys in *. rewrite map_app. cbn [map fst].
    rewrite filter_app. cbn [filter].
    destruct (plainName (location t)) eqn:P.
    + unfold plainName in P.
      destruct (JS.arrayIndex (location t)) eqn:AI; [discriminate|].
      rewrite (E3 eq_refl) in *. rewrite app_nil_r in E1. subst o1.
      cbn [map filter]. rewrite newSet_snoc. unfold JS.setAdd. rewrite <- Hk.
      rewrite includes_false; [reflexivity|].
      intros Hin. apply filter_In in Hin. tauto.
    + rewrite <- Hk, E1, map_app, filter_app. reflexivity.
Qed.

Lemma forEach_keysOK (rest : list Transaction) :
  forall seen (m m' : JS.Obj Floor),
  keysOK seen m -> forEach m rest = Some m' -> keysOK (seen ++ rest) m'.
Proof.
  induction rest as [|t rest IH]; intros seen m m' Hok Hrun; cbn in Hrun.
  - inversion Hrun; subst. now rewrite app_nil_r.
  - destruct (floorStep m t) as [m1|] eqn:Hstep; [|discriminate].
    replace (seen ++ t :: rest) with ((seen ++ [t]) ++ rest)
      by (rewrite <- app_assoc; reflexivity).
    eapply IH; [|exact Hrun]. eapply floorStep_keysOK; eassumption.
Qed.

Lemma count_split (k : string) (l : list Transaction) :
  List.length (filter (issuedAt k) l) + List.length (filter (receivedAt k) l) =
  List.length (filter (atLocation k) l).
Proof.
  unfold issuedAt, receivedAt, isIssue, isReceive.
  induction l as [|t l IH]; cbn; [reflexivity|].
  destruct (type t), (atLocation k t); cbn; lia.
Qed.

Lemma entryOK_activity seen k (e : Floor) :
  entryOK seen k e ->
  activity e = List.length (filter (atLocation k) seen).
Proof.
  intros (_ & H2 & H3 & _). unfold activity.
  rewrite H2, H3. apply count_split.
Qed.

Lemma class_locations (cnt : string -> nat) (n : nat) (m : JS.Obj Floor) :
  (forall k e, In (k, e) m ->
     Floor.location e = k /\ activity e = cnt k) ->
  map Floor.location
    (filter (fun e => plainName (Floor.location e) && (activity e =? n)%nat)
            (JS.values m)) =
  filter (fun k => (cnt k =? n)%nat) (filter plainName (JS.keys m)).
Proof.
  induction m as [|[k e] m IH]; intros H; [reflexivity|].
  cbn [JS.values JS.keys map snd fst filter].
  destruct (H k e (or_introl eq_refl)) as [Hl Ha]. rewrite Hl, Ha.
  fold (JS.values m). fold (JS.keys m).
  destruct (plainName k); cbn [andb filter].
  - destruct (cnt k =? n)%nat; cbn [map]; rewrite IH;
      try (intros k' e' Hin; apply H; now right); now rewrite ?Hl.
  - apply IH. intros k' e' Hin. apply H. now right.
Qed.

Lemma place_index {V} k n (v : V) :
  JS.arrayIndex k = Some n ->
  forall I S (o : JS.Obj V),
  JS.keys o = I ++ S ->
  Forall (fun k => plainName k = false) I ->
  Forall (fun k => plainName k = true) S ->
  StronglySorted indexLe I ->
  exists I', JS.keys (JS.place k v o) = I' ++ S /\
             Permutation I' (k :: I) /\ StronglySorted indexLe I'.
Proof.
  intros Hk. unfold JS.keys.
  induction I as [|i I IH]; intros S o E HI HS Hs.
  - cbn in E. exists [k]. split; [|split; [reflexivity|repeat constructor]].
    destruct o as [|[k' v'] o]; cbn in *; [now subst|].
    destruct S as [|s S]; [discriminate|]. inversion E; subst.
    inversion HS as [|? ? Hp _]; subst. unfold plainName in Hp.
    unfold JS.precedes. rewrite Hk.
    match type of Hp with context [JS.arrayIndex ?x] =>
      destruct (JS.arrayIndex x) end; [discriminate|reflexivity].
  - destruct o as [|[k' v'] o]; [discriminate|]. cbn in E.
    inversion E as [[Ek Eo]]. subst k'.
    inversion HI as [|? ? Hp HI']; subst. unfold plainName in Hp.
    destruct (JS.arrayIndex i) as [a|] eqn:Ei; [|discriminate].
    inversion Hs as [|? ? Hs' Hall]; subst.
    cbn [JS.place]. unfold JS.precedes. rewrite Hk, Ei.
    destruct (N.ltb_spec n a) as [Hlt|Hge].
    + exists (k :: i :: I). split; [cbn; now rewrite Eo|].
      split; [reflexivity|]. constructor; [exact Hs|].
      constructor; [unfold indexLe; rewrite Hk, Ei; lia|].
      rewrite Forall_forall in *. intros j Hj.
      specialize (Hall j Hj). specialize (HI' j Hj).
      unfold indexLe, plainName in *. rewrite Hk. rewrite Ei in Hall.
      destruct (JS.arrayIndex j); [lia|discriminate].
    + destruct (IH S o Eo HI' HS Hs') as (I' & E' & Hperm & Hs'').
      exists (i :: I'). split; [cbn; now rewrite E'|].
      split; [rewrite Hperm; apply perm_swap|].
      constructor; [exact Hs''|].
      eapply Permutation_Forall; [symmetry; exact Hperm|].
      constructor; [unfold indexLe; rewrite Ei, Hk; lia|exact Hall].
Qed.

Lemma newSet_plain (l : list string) :
  Forall (fun k => plainName k = true) l ->
  Forall (fun k => plainName k = true) (JS.newSet l).
Proof.
  intros H. apply Forall_forall. intros x Hx.
  rewrite Forall_forall in H. apply H.
  clear H. revert Hx. unfold JS.newSet.
  assert (G : forall acc, In x (fold_left (fun set y => JS.setAdd y set) l acc)
                          -> In x acc \/ In x l).
  { induction l as [|y l IH]; intros acc Hin; cbn in *; [now left|].
    apply IH in Hin. destruct Hin as [Hin|Hin]; [|tauto].
    unfold JS.setAdd in Hin. destruct (JS.includes y acc); [tauto|].
    apply in_app_or in Hin. cbn in Hin. tauto. }
  intros Hx. apply G in Hx. destruct Hx as [[]|Hx]. exact Hx.
Qed.

Lemma floorStep_indexFirst seen (m m' : JS.Obj Floor) t :
  keysOK seen m -> indexFirst seen (JS.keys m) ->
  floorStep m t = Some m' -> indexFirst (seen ++ [t]) (JS.keys m').
Proof.
  intros Hk (I & E & HI & Hs) Hstep.
  pose proof (floorStep_keysOK _ _ _ _ Hk Hstep) as Hk'.
  apply floorStep_Some in Hstep. destruct Hstep as [_ ->].
  unfold JS.setOwn in *. unfold keysOK in *.
  destruct (JS.getOwn (location t) m) as [fl|] eqn:G.
  - rewrite (replace_keys _ _ _ _ G) in *.
    exists I. rewrite <- Hk', Hk. repeat split; assumption.
  - destruct (plainName (location t)) eqn:P.
    + destruct (place_split (location t) (visit t (entryFor m t)) m)
        as (o1 & o2 & E1 & E2 & E3).
      unfold plainName in P.
      destruct (JS.arrayIndex (location t)) eqn:AI; [discriminate|].
      rewrite (E3 eq_refl) in *. rewrite app_nil_r in E1. subst o1.
      rewrite E2 in *. unfold JS.keys in *. rewrite map_app in *.
      cbn [map fst] in *. rewrite filter_app in Hk'. cbn [filter] in Hk'.
      unfold plainName in Hk' at 2. rewrite AI in Hk'.
      exists I. split; [|split; assumption].
      rewrite <- Hk', Hk, E, <- app_assoc. reflexivity.
    + unfold plainName in P.
      destruct (JS.arrayIndex (location t)) as [n|] eqn:AI; [|discriminate].
      destruct (place_index (location t) n (visit t (entryFor m t)) AI
                  I _ m E HI) as (I' & E' & Hperm & Hs').
      * apply newSet_plain. apply Forall_forall. intros x Hx.
        apply filter_In in Hx. tauto.
      * exact Hs.
      * assert (P' : plainName (location t) = false)
          by (unfold plainName; now rewrite AI).
        exists I'. rewrite E'. rewrite map_app. cbn [map].
        rewrite filter_snoc, P'.
        split; [reflexivity|]. split; [|exact Hs'].
        eapply Permutation_Forall; [symmetry; exact Hperm|].
        constructor; [exact P'|exact HI].
Qed.

Lemma forEach_indexFirst (rest : list Transaction) :
  forall seen (m m' : JS.Obj Floor),
  keysOK seen m -> indexFirst seen (JS.keys m) ->
  forEach m rest = Some m' -> indexFirst (seen ++ rest) (JS.keys m').
Proof.
  induction rest as [|t rest IH]; intros seen m m' Hk Hi Hrun; cbn in Hrun.
  - inversion Hrun; subst. now rewrite app_nil_r.
  - destruct (floorStep m t) as [m1|] eqn:Hstep; [|discriminate].
    replace (seen ++ t :: rest) with ((seen ++ [t]) ++ rest)
      by (rewrite <- app_assoc; reflexivity).
    eapply IH; [| |exact Hrun].
    + eapply floorStep_keysOK; eassumption.
    + eapply floorStep_indexFirst; eassumption.
Qed.

Lemma StronglySorted_filter {A} (R : A -> A -> Prop) (p : A -> bool) l :
  StronglySorted R l -> StronglySorted R (filter p l).
Proof.
  induction 1 as [|x l Hs IH Hall]; cbn; [constructor|].
  destruct (p x); [|exact IH]. constructor; [exact IH|].
  rewrite Forall_forall in *. intros y Hy. apply filter_In in Hy.
  apply Hall. tauto.
Qed.

Lemma class_all_locations (cnt : string -> nat) (n : nat) (m : JS.Obj Floor) :
  (forall k e, In (k, e) m ->
     Floor.location e = k /\ activity e = cnt k) ->
  map Floor.location
    (filter (fun e => true && (activity e =? n)%nat) (JS.values m)) =
  filter (fun k => (cnt k =? n)%nat) (JS.keys m).
Proof.
  induction m as [|[k e] m IH]; intros H; [reflexivity|].
  cbn [JS.values JS.keys map snd fst filter andb].
  destruct (H k e (or_introl eq_refl)) as [Hl Ha]. rewrite Ha.
  fold (JS.values m). fold (JS.keys m).
  destruct (cnt k =? n)%nat; cbn [map]; rewrite <- IH;
    try (intros k' e' Hin; apply H; now right); now rewrite ?Hl.
Qed.

(** C8, as the code has it. A summary has one entry for each location
    of the filtered list and for nothing else; an entry counts the
    transactions of its location; the entries stand in descending order
    of that count. Among the entries of one count, those whose location
    is not named by an array index stand in the order in which their
    locations first occur in the filtered list, behind those named by an
    array index, which stand in ascending order of the index. *)
Theorem floor_summary_order (filtered : list Transaction) (fs : list Floor) :
  floorSummary filtered = Some fs ->
  NoDup (map Floor.location fs) /\
  (forall loc, In loc (map Floor.location fs) <->
               In loc (map location filtered)) /\
  (forall e, In e fs ->
     activity e =
       List.length (filter (atLocation (Floor.location e)) filtered)) /\
  StronglySorted (fun a b => activity b <= activity a) fs /\
  (forall n,
     map Floor.location
       (filter (fun e => plainName (Floor.location e) && (activity e =? n)%nat)
               fs) =
     filter (fun loc =>
               (List.length (filter (atLocation loc) filtered) =? n)%nat)
            (JS.newSet (filter plainName (map location filtered)))) /\
  (forall n, exists I,
     map Floor.location (filter (fun e => (activity e =? n)%nat) fs) =
       I ++ filter (fun loc =>
                      (List.length (filter (atLocation loc) filtered) =? n)%nat)
                   (JS.newSet (filter plainName (map location filtered))) /\
     Forall (fun loc => plainName loc = false) I /\
     StronglySorted indexLe I).
Proof.
  intros Hfs.
  destruct (floorSummary_Some _ _ Hfs) as (m & Hrun & Efs & Hok).
  pose proof (forEach_keysOK filtered [] [] m eq_refl Hrun) as Hkeys.
  assert (Hfirst : indexFirst filtered (JS.keys m)).
  { apply (forEach_indexFirst filtered [] [] m eq_refl); [|exact Hrun].
    exists []. repeat split; constructor. }
  cbn [app] in Hkeys. destruct Hok as (ND & Hent & Hseen).
  assert (Hlocs : map Floor.location (JS.values m) = JS.keys m).
  { clear - Hent. induction m as [|[k e] m IH]; [reflexivity|].
    cbn. f_equal.
    - apply (Hent k e). now left.
    - apply IH. intros k' e' Hin. apply Hent. now right. }
  assert (Hperm : Permutation (map Floor.location fs) (JS.keys m)).
  { rewrite <- Hlocs, Efs. apply Permutation_map, sort_perm. }
  assert (Hcnt : forall k e, In (k, e) m ->
            Floor.location e = k /\
            activity e = List.length (filter (atLocation k) filtered)).
  { intros k e Hin. split; [apply (Hent k e Hin)|].
    apply entryOK_activity. apply Hent. exact Hin. }
  split; [eapply Permutation_NoDup; [symmetry; exact Hperm|exact ND]|].
  split.
  { intros loc. split.
    - intros Hin. apply (Permutation_in _ Hperm) in Hin.
      unfold JS.keys in Hin. apply in_map_iff in Hin.
      destruct Hin as ([k e] & E & Hin). cbn in E. subst k.
      destruct (Hent loc e Hin) as (_ & _ & _ & _ & _ & H6 & _).
      apply in_map_iff in H6. destruct H6 as (t & _ & Ht).
      apply filter_In in Ht. destruct Ht as [Ht Hat].
      unfold atLocation in Hat. apply String.eqb_eq in Hat.
      rewrite <- Hat. now apply in_map.
    - intros Hin. apply in_map_iff in Hin. destruct Hin as (t & <- & Ht).
      apply (Permutation_in _ (Permutation_sym Hperm)). auto. }
  split.
  { intros e Hin. apply entryOK_activity.
    eapply floorSummary_entry; eassumption. }
  split; [rewrite Efs; apply (sort_sorted activity)|].
  split.
  - intros n. rewrite Efs. unfold byActivityDesc.
    rewrite (sort_class activity
               (fun e => plainName (Floor.location e)) n (JS.values m)).
    rewrite (class_locations
               (fun k => List.length (filter (atLocation k) filtered)) n m
               Hcnt).
    now rewrite Hkeys.
  - intros n. rewrite Efs. unfold byActivityDesc.
    pose proof (sort_class activity (fun _ => true) n (JS.values m)) as Hc.
    cbn [andb] in Hc. rewrite Hc.
    pose proof (class_all_locations
                  (fun k => List.length (filter (atLocation k) filtered)) n m
                  Hcnt) as Hl.
    cbn [andb] in Hl. rewrite Hl.
    destruct Hfirst as (I & E & HI & Hs). rewrite E, filter_app.
    eexists. split; [reflexivity|]. split.
    + rewrite Forall_forall in *. intros k Hk. apply filter_In in Hk.
      apply HI. tauto.
    + apply StronglySorted_filter. exact Hs.
Qed.

End ReportsFacts.

(** *** The date bounds of the filter *)

Section FilterDates.
Import Reports.
Context {num : Type}.
Variable h : JSDate.Host.

Local Abbreviation Transaction := (Reports.Transaction num).
Local Abbreviation parseDate := (@parseDate (JSDate.ops h)).
Local Abbreviation matchesStart := (@Reports.matchesStart num (JSDate.ops h)).
Local Abbreviation matchesEnd := (@Reports.matchesEnd num (JSDate.ops h)).
Local Abbreviation filteredTransactions :=
  (@Reports.filteredTransactions num (JSDate.ops h)).

Lemma readDate_nonempty (s : string) day rest :
  JSDate.readDate s = Some (day, rest) -> s <> "".
Proof. intros H ->. discriminate. Qed.

(** A date [YYYY-MM-DD] is read as the midnight its day begins with in
    UTC, whatever the clocks of the host. *)
Lemma parse_date_only (s : string) day :
  JSDate.readDate s = Some (day, "") ->
  parseDate s = Some (day * JSDate.msPerDay)%Z.
Proof. intros H. cbn. unfold JSDate.parse. rewrite H. reflexivity. Qed.

Lemma Day_le (t day : Z) :
  (JSDate.Day t <= day <-> t < (day + 1) * JSDate.msPerDay)%Z.
Proof.
  unfold JSDate.Day, JSDate.msPerDay.
  pose proof (Z.div_mod t 86400000 ltac:(lia)) as E.
  pose proof (Z.mod_pos_bound t 86400000 ltac:(lia)) as B.
  split; intros H; nia.
Qed.

Lemma Day_ge (t day : Z) :
  (day <= JSDate.Day t <-> day * JSDate.msPerDay <= t)%Z.
Proof.
  unfold JSDate.Day, JSDate.msPerDay.
  pose proof (Z.div_mod t 86400000 ltac:(lia)) as E.
  pose proof (Z.mod_pos_bound t 86400000 ltac:(lia)) as B.
  split; intros H; nia.
Qed.

(** The end-date test on any host: the date of the transaction lies
    before the instant one day, by the clocks of the host, after the
    midnight in UTC that [endDate] is read as. *)
Lemma matchesEnd_instant (f : Filters) (t : Transaction) (endDay ts : Z) :
  JSDate.readDate (endDate f) = Some (endDay, "") ->
  parseDate (date t) = Some ts ->
  matchesEnd f t = (ts <? JSDate.nextDay h (endDay * JSDate.msPerDay))%Z.
Proof.
  intros He Hts. unfold Reports.matchesEnd.
  rewrite (truthy_nonempty _ (readDate_nonempty _ _ _ He)).
  rewrite Hts, (parse_date_only _ _ He). reflexivity.
Qed.

Lemma matchesStart_instant (f : Filters) (t : Transaction)
    (startDay ts : Z) :
  JSDate.readDate (startDate f) = Some (startDay, "") ->
  parseDate (date t) = Some ts ->
  matchesStart f t = (startDay * JSDate.msPerDay <=? ts)%Z.
Proof.
  intros He Hts. unfold Reports.matchesStart.
  rewrite (truthy_nonempty _ (readDate_nonempty _ _ _ He)).
  rewrite Hts, (parse_date_only _ _ He). reflexivity.
Qed.

(** C6, as the code has it. Let [endDate] be a date [YYYY-MM-DD], as
    the date input of the view delivers it. A transaction passes the
    end-date test exactly when its date lies before the instant one day,
    by the clocks of the host, after the midnight in UTC the end date
    begins with. Where these clocks keep one offset from UTC, that is:
    exactly when the day its date falls on in UTC is the end date or an
    earlier one, at whatever time of that day; every transaction its
    date puts on the end date by the clocks of the host then passes if
    these are not behind UTC; and the transaction is in the filtered list
    exactly when it also passes the tests of the type, the location and
    the start date. With [startDate] a date [YYYY-MM-DD], a transaction
    passes the start-date test exactly when the day its date falls on in
    UTC is the start date or a later one, and then, if the clocks of the
    host keep one offset and are not behind UTC, so is the day it falls
    on by these. *)
Theorem end_date_bound_admits_whole_day
    (f : Filters) (transactions : list Transaction)
    (t : Transaction) (endDay ts : Z) :
  JSDate.readDate (endDate f) = Some (endDay, "") ->
  parseDate (date t) = Some ts ->
  (matchesEnd f t = true <->
   (ts < JSDate.nextDay h (endDay * JSDate.msPerDay))%Z) /\
  (forall startDay,
     JSDate.readDate (startDate f) = Some (startDay, "") ->
     (matchesStart f t = true <-> (startDay <= JSDate.Day ts)%Z)) /\
  forall offset, JSDate.steady h offset ->
    (matchesEnd f t = true <-> (JSDate.Day ts <= endDay)%Z) /\
    ((0 <= offset)%Z -> JSDate.localDay h ts = endDay ->
     matchesEnd f t = true) /\
    (In t (filteredTransactions f transactions) <->
       In t transactions /\ matchesType f t = true /\
       matchesLocation f t = true /\ matchesStart f t = true /\
       (JSDate.Day ts <= endDay)%Z) /\
    (forall startDay,
       JSDate.readDate (startDate f) = Some (startDay, "") ->
       (0 <= offset)%Z -> matchesStart f t = true ->
       (startDay <= JSDate.localDay h ts)%Z).
Proof.
  intros He Hts.
  assert (Hstart : forall startDay,
            JSDate.readDate (startDate f) = Some (startDay, "") ->
            (matchesStart f t = true <-> (startDay <= JSDate.Day ts)%Z)).
  { intros startDay Hs.
    rewrite (matchesStart_instant f t startDay ts Hs Hts), Z.leb_le.
    symmetry. apply Day_ge. }
  split; [rewrite (matchesEnd_instant f t endDay ts He Hts); apply Z.ltb_lt|].
  split; [exact Hstart|].
  intros offset Hz.
  assert (Hnext : JSDate.nextDay h (endDay * JSDate.msPerDay)
                  = ((endDay + 1) * JSDate.msPerDay)%Z).
  { unfold JSDate.nextDay, JSDate.UTC, JSDate.LocalTime. rewrite !Hz. lia. }
  assert (Hend : matchesEnd f t = true <-> (JSDate.Day ts <= endDay)%Z).
  { rewrite (matchesEnd_instant f t endDay ts He Hts), Hnext, Z.ltb_lt.
    symmetry. apply Day_le. }
  split; [exact Hend|]. split; [|split].
  - intros Hoff Hloc. apply Hend.
    unfold JSDate.localDay, JSDate.LocalTime in Hloc. rewrite Hz in Hloc.
    apply Day_le.
    assert (H : (JSDate.Day (ts + offset) <= endDay)%Z) by lia.
    apply Day_le in H. lia.
  - rewrite (filtered_In (DO := JSDate.ops h)),
      (matches_spec (DO := JSDate.ops h)), Hend. tauto.
  - intros startDay Hs Hoff Hm. apply (Hstart startDay Hs), Day_ge in Hm.
    unfold JSDate.localDay, JSDate.LocalTime. rewrite Hz.
    apply Day_ge. lia.
Qed.

End FilterDates.

(** *** The reports on sample logs *)

(** C6, as written, fails on a machine whose clocks are behind UTC. The
    end date is the fifth of March; of the two receipts, one is dated
    half past nine in the evening of that day without a time zone, which
    is the time of the machine, the other at the same instant in UTC, as
    [toISOString] writes it. Both fall on the fifth of March there, and
    that is the date the view shows for them; the filter leaves out
    both, for it takes the day to end with midnight in UTC, which is
    seven o'clock in the evening there. *)
Lemma end_day_transaction_left_out_west_of_utc :
  let f := {| Reports.filterType := Reports.AllTypes;
              Reports.filterLocation := "All";
              Reports.startDate := "";
              Reports.endDate := "2024-03-05" |} in
  let t1 := Sample.tx "2024-03-05T21:30" RECEIVE "Nut" 4 "Lobby" in
  let t2 := Sample.tx "2024-03-06T02:30:00.000Z" RECEIVE "Bolt" 2 "Lobby" in
  JSDate.steady Sample.west (-18000000) /\
  JSDate.readDate (Reports.endDate f) = Some (19787%Z, "") /\
  JSDate.parse Sample.west (Reports.date t1) = Some 1709692200000%Z /\
  JSDate.parse Sample.west (Reports.date t2) = Some 1709692200000%Z /\
  JSDate.localDay Sample.west 1709692200000 = 19787%Z /\
  JSDate.toLocaleDateString Sample.west (Some 1709692200000%Z) = "5/3/2024" /\
  JSDate.nextDay Sample.west (19787 * JSDate.msPerDay) = 1709683200000%Z /\
  @Reports.filteredTransactions Z (JSDate.ops Sample.west) f [t1; t2] = [].
Proof. vm_compute. repeat split. Qed.

Lemma end_date_bound_admits_whole_day_witness :
  let f := {| Reports.filterType := Reports.AllTypes;
              Reports.filterLocation := "All";
              Reports.startDate := "2024-03-01";
              Reports.endDate := "2024-03-05" |} in
  let t := Sample.tx "2024-03-05T23:45" RECEIVE "Nut" 4 "Lobby" in
  let log := [Sample.tx "2024-03-06T09:00" ISSUE "Bolt" 1 "Lobby"; t] in
  JSDate.steady Sample.india 19800000 /\
  JSDate.readDate (Reports.endDate f) = Some (19787%Z, "") /\
  JSDate.parse Sample.india (Reports.date t) = Some 1709662500000%Z /\
  JSDate.localDay Sample.india 1709662500000 = 19787%Z /\
  @Reports.matchesEnd Z (JSDate.ops Sample.india) f t = true /\
  @Reports.filteredTransactions Z (JSDate.ops Sample.india) f log = [t].
Proof.
  cbv zeta.
  assert (Hz : JSDate.steady Sample.india 19800000)
    by (intros ? ?; reflexivity).
  split; [exact Hz|]. split; [reflexivity|]. split; [reflexivity|].
  split; [reflexivity|]. split; [|reflexivity].
  apply (proj1 (proj2 (proj2 (proj2
    (@end_date_bound_admits_whole_day Z Sample.india
       {| Reports.filterType := Reports.AllTypes;
          Reports.filterLocation := "All";
          Reports.startDate := "2024-03-01";
          Reports.endDate := "2024-03-05" |}
       [Sample.tx "2024-03-06T09:00" ISSUE "Bolt" 1 "Lobby";
        Sample.tx "2024-03-05T23:45" RECEIVE "Nut" 4 "Lobby"]
       (Sample.tx "2024-03-05T23:45" RECEIVE "Nut" 4 "Lobby")
       19787%Z 1709662500000%Z eq_refl eq_refl)) 19800000%Z Hz)));
    [discriminate|reflexivity].
Defined.



(** C8, as written, fails where floors are called by their numbers.
    The log holds one issue for the floor "1" and a later one for the
    floor "2"; the filter, left as it starts, puts the later one in
    front, so that the aggregation meets the floor "2" first; both floors
    have one transaction, and the summary still lists the floor "1" in
    front. *)
Lemma numbered_floors_listed_in_numeric_order :
  let log := [Sample.tx "2024-03-01" ISSUE "Bolt" 3 "1";
              Sample.tx "2024-03-02" ISSUE "Nut" 4 "2"] in
  let filtered := Sample.filteredTransactions Reports.resetFilters log in
  map Reports.location filtered = ["2"; "1"] /\
  JS.newSet (map Reports.location filtered) = ["2"; "1"] /\
  option_map (map (fun e => (Floor.location e, Reports.activity e)))
             (Sample.floorSummary filtered) = Some [("1", 1); ("2", 1)].
Proof. vm_compute. repeat split. Qed.

Lemma floor_summary_order_witness :
  let log := [Sample.tx "2024-03-01" ISSUE "Bolt" 3 "Atrium";
              Sample.tx "2024-03-02" RECEIVE "Nut" 4 "Roof";
              Sample.tx "2024-03-03" ISSUE "Nut" 5 "Lobby";
              Sample.tx "2024-02-27" ISSUE "Bolt" 2 "Lobby"] in
  let filtered := Sample.filteredTransactions Reports.resetFilters log in
  let fs := match Sample.floorSummary filtered with
            | Some fs => fs
            | None => []
            end in
  map Reports.location filtered = ["Lobby"; "Roof"; "Atrium"; "Lobby"] /\
  Sample.floorSummary filtered = Some fs /\
  map Floor.location fs = ["Lobby"; "Roof"; "Atrium"] /\
  map Floor.location
    (filter (fun e => Reports.plainName (Floor.location e)
                      && (Reports.activity e =? 1)%nat) fs) =
  ["Roof"; "Atrium"].
Proof.
  cbv zeta. split; [reflexivity|]. split; [reflexivity|].
  split; [reflexivity|].
  pose proof (@floor_summary_order Z Sample.ZNumber Sample.UtcDates
                (Sample.filteredTransactions Reports.resetFilters
                   [Sample.tx "2024-03-01" ISSUE "Bolt" 3 "Atrium";
                    Sample.tx "2024-03-02" RECEIVE "Nut" 4 "Roof";
                    Sample.tx "2024-03-03" ISSUE "Nut" 5 "Lobby";
                    Sample.tx "2024-02-27" ISSUE "Bolt" 2 "Lobby"])
                _ eq_refl)
    as (_ & _ & _ & _ & Hclass & _).
  exact (Hclass 1).
Defined.

(** ** Facts about strings *)

Section StrFacts.

Lemma prefix_spec (sub s : string) :
  String.prefix sub s = true <-> exists post, s = (sub ++ post)%string.
Proof.
  revert sub. induction s as [|b s IH]; intros [|a sub]; cbn.
  - split; [exists ""; reflexivity|reflexivity].
  - split; [discriminate|]. intros (post & E). discriminate.
  - split; [exists (String b s); reflexivity|reflexivity].
  - destruct (ascii_dec a b) as [->|N].
    + rewrite IH. split; intros (post & E); exists post; congruence.
    + split; [discriminate|]. intros (post & E). congruence.
Qed.

(** [s.includes(sub)] holds exactly when [s] is [sub] with something in
    front and something behind. *)
Lemma includes_spec (s sub : string) :
  JS.Str.includes s sub = true <->
  exists pre post, s = (pre ++ sub ++ post)%string.
Proof.
  induction s as [|c s IH]; cbn [JS.Str.includes].
  - rewrite orb_false_r, prefix_spec. split.
    + intros (post & E). exists "", post. exact E.
    + intros ([|a pre] & post & E); [exists post; exact E|discriminate].
  - rewrite orb_true_iff, prefix_spec, IH. split.
    + intros [(post & E)|(pre & post & E)].
      * exists "", post. exact E.
      * exists (String c pre), post. cbn. now rewrite E.
    + intros ([|a pre] & post & E).
      * left. exists post. exact E.
      * right. cbn in E. inversion E; subst. exists pre, post. reflexivity.
Qed.

Lemma append_assoc (a b c : string) :
  ((a ++ b) ++ c = a ++ (b ++ c))%string.
Proof. induction a as [|x a IH]; cbn; [reflexivity|now rewrite IH]. Qed.

Lemma append_nil_r (a : string) : (a ++ "")%string = a.
Proof. induction a as [|x a IH]; cbn; [reflexivity|now rewrite IH]. Qed.

Lemma includes_empty (s : string) : JS.Str.includes s "" = true.
Proof. apply includes_spec. exists "", s. reflexivity. Qed.

Lemma includes_refl (s : string) : JS.Str.includes s s = true.
Proof.
  apply includes_spec. exists "", "". cbn. now rewrite append_nil_r.
Qed.

Lemma includes_trans (a b c : string) :
  JS.Str.includes a b = true -> JS.Str.includes b c = true ->
  JS.Str.includes a c = true.
Proof.
  rewrite !includes_spec. intros (p1 & q1 & ->) (p2 & q2 & ->).
  exists (p1 ++ p2)%string, (q2 ++ q1)%string.
  now rewrite !append_assoc.
Qed.

Lemma append_length (a b : string) :
  String.length (a ++ b) = String.length a + String.length b.
Proof. induction a as [|x a IH]; cbn; [reflexivity|now rewrite IH]. Qed.

Lemma append_inv_head (p a b : string) :
  (p ++ a = p ++ b)%string -> a = b.
Proof.
  induction p as [|x p IH]; cbn; intros H; [exact H|]. inversion H; auto.
Qed.

Lemma append_inv_tail (a b q : string) :
  (a ++ q = b ++ q)%string -> a = b.
Proof.
  revert b. induction a as [|x a IH]; intros [|y b] H; cbn in H.
  - reflexivity.
  - apply (f_equal String.length) in H. cbn in H.
    rewrite append_length in H. lia.
  - apply (f_equal String.length) in H. cbn in H.
    rewrite append_length in H. lia.
  - inversion H; subst. f_equal. now apply IH.
Qed.

(** A joined text with one of its pieces singled out. *)
Lemma join_split (sep : string) (pre post : list string) :
  exists p q, forall x,
    JS.join sep (pre ++ x :: post) = (p ++ x ++ q)%string.
Proof.
  unfold JS.join. induction pre as [|y pre IH]; cbn [app].
  - destruct post as [|z post].
    + exists "", "". intros x. cbn. now rewrite append_nil_r.
    + exists "", (sep ++ String.concat sep (z :: post))%string.
      intros x. reflexivity.
  - destruct IH as (p & q & IH).
    exists (y ++ sep ++ p)%string, q. intros x.
    replace (String.concat sep (y :: pre ++ x :: post))
      with (y ++ sep ++ String.concat sep (pre ++ x :: post))%string
      by (destruct pre; reflexivity).
    rewrite IH, !append_assoc. reflexivity.
Qed.

End StrFacts.

(** ** Facts about the CSV export *)

Section CsvRead.

Lemma scan_shape (s : string) :
  forall mode, exists field row rows,
    Csv.scan mode s = (field :: row) :: rows.
Proof.
  induction s as [|c s IH]; intros mode; [cbn; eauto|].
  destruct (IH Csv.Start) as (f0 & r0 & rs0 & E0).
  destruct (IH Csv.Unquoted) as (f1 & r1 & rs1 & E1).
  destruct (IH Csv.Quoted) as (f2 & r2 & rs2 & E2).
  destruct (IH Csv.QuoteSeen) as (f3 & r3 & rs3 & E3).
  destruct mode; cbn [Csv.scan]; rewrite ?E0, ?E1, ?E2, ?E3;
    destruct (Ascii.eqb c JS.quoteChar), (Ascii.eqb c Csv.comma),
      (Ascii.eqb c Csv.lineFeed);
    cbn [Csv.pushChar Csv.newField Csv.newRow];
    do 3 eexists; reflexivity.
Qed.

Lemma scan_tail (mode : Csv.Mode) (tail : string) :
  Csv.isTail tail = true -> mode <> Csv.Quoted ->
  Csv.scan mode tail = Csv.scan Csv.Start tail.
Proof.
  destruct tail as [|c s]; [reflexivity|]. cbn [Csv.isTail]. intros H Hm.
  assert (Hq : Ascii.eqb c JS.quoteChar = false).
  { destruct (Ascii.eqb_spec c Csv.comma) as [->|];
      [reflexivity|].
    destruct (Ascii.eqb_spec c Csv.lineFeed) as [->|]; [reflexivity|].
    discriminate. }
  destruct mode; cbn [Csv.scan]; rewrite ?Hq; try reflexivity;
    try congruence;
    (destruct (Ascii.eqb c Csv.comma); [reflexivity|];
     destruct (Ascii.eqb c Csv.lineFeed); [reflexivity|discriminate]).
Qed.

Lemma scan_unquoted (u tail field : string) row rows :
  Csv.noSeparator u = true -> Csv.isTail tail = true ->
  Csv.scan Csv.Start tail = (field :: row) :: rows ->
  Csv.scan Csv.Unquoted (u ++ tail) = ((u ++ field)%string :: row) :: rows.
Proof.
  intros Hu Ht E. induction u as [|c u IH]; cbn [append].
  - rewrite scan_tail by (assumption || discriminate). exact E.
  - cbn [Csv.noSeparator] in Hu. apply andb_true_iff in Hu.
    destruct Hu as [Hc Hu]. apply andb_true_iff in Hc.
    destruct Hc as [Hc1 Hc2]. apply negb_true_iff in Hc1, Hc2.
    cbn [Csv.scan]. rewrite Hc1, Hc2, (IH Hu). reflexivity.
Qed.

Lemma scan_plain (u tail field : string) row rows :
  Csv.plain u = true -> Csv.isTail tail = true ->
  Csv.scan Csv.Start tail = (field :: row) :: rows ->
  Csv.scan Csv.Start (u ++ tail) = ((u ++ field)%string :: row) :: rows.
Proof.
  intros Hu Ht E. unfold Csv.plain in Hu. apply andb_true_iff in Hu.
  destruct Hu as [Hs Hq]. destruct u as [|c u]; [exact E|].
  apply negb_true_iff in Hq. cbn [Csv.noSeparator] in Hs.
  apply andb_true_iff in Hs. destruct Hs as [Hc Hs].
  apply andb_true_iff in Hc. destruct Hc as [Hc1 Hc2].
  apply negb_true_iff in Hc1, Hc2.
  cbn [append Csv.scan]. rewrite Hq, Hc1, Hc2.
  rewrite (scan_unquoted u tail field row rows Hs Ht E). reflexivity.
Qed.

Lemma scan_inQuotes (q tail field : string) row rows :
  Csv.noQuote q = true -> Csv.isTail tail = true ->
  Csv.scan Csv.Start tail = (field :: row) :: rows ->
  Csv.scan Csv.Quoted (q ++ String JS.quoteChar tail) =
    ((q ++ field)%string :: row) :: rows.
Proof.
  intros Hq Ht E. induction q as [|c q IH]; cbn [append].
  - cbn [Csv.scan]. rewrite Ascii.eqb_refl.
    rewrite scan_tail by (assumption || discriminate). exact E.
  - cbn [Csv.noQuote] in Hq. apply andb_true_iff in Hq.
    destruct Hq as [Hc Hq]. apply negb_true_iff in Hc.
    cbn [Csv.scan]. rewrite Hc, (IH Hq). reflexivity.
Qed.

Lemma scan_cell (c : Csv.Cell) (tail field : string) row rows :
  Csv.wellWritten c = true -> Csv.isTail tail = true ->
  Csv.scan Csv.Start tail = (field :: row) :: rows ->
  Csv.scan Csv.Start (Csv.written c ++ tail) =
    ((Csv.content c ++ field)%string :: row) :: rows.
Proof.
  destruct c as [u|q]; cbn [Csv.wellWritten Csv.written Csv.content].
  - apply scan_plain.
  - intros Hq Ht E. unfold JS.quoted. cbn [append].
    rewrite append_assoc. cbn [append Csv.scan]. rewrite Ascii.eqb_refl.
    apply scan_inQuotes; assumption.
Qed.

Lemma scan_comma (s : string) :
  Csv.scan Csv.Start ("," ++ s) = Csv.newField (Csv.scan Csv.Start s).
Proof. reflexivity. Qed.

Lemma scan_newline (s : string) :
  Csv.scan Csv.Start (Reports.newline ++ s) =
    Csv.newRow (Csv.scan Csv.Start s).
Proof. reflexivity. Qed.

(** One record, its cells joined by commas, in front of the end of the
    text or of a line feed. *)
Lemma scan_record (cells : list Csv.Cell) (tail : string) rest :
  cells <> [] -> forallb Csv.wellWritten cells = true ->
  Csv.isTail tail = true -> Csv.scan Csv.Start tail = [""] :: rest ->
  Csv.scan Csv.Start (JS.join "," (map Csv.written cells) ++ tail) =
    map Csv.content cells :: rest.
Proof.
  intros Hne Hw Ht E. induction cells as [|c cells IH]; [congruence|].
  cbn [forallb] in Hw. apply andb_true_iff in Hw. destruct Hw as [Hc Hw].
  destruct cells as [|c' cells].
  - cbn [map JS.join String.concat].
    rewrite (scan_cell c tail "" [] rest Hc Ht E).
    cbn [map]. f_equal. f_equal.
    clear. induction (Csv.content c) as [|x a IHa]; cbn;
      [reflexivity|now rewrite IHa].
  - assert (IH' := IH ltac:(discriminate) Hw). clear IH.
    change (JS.join "," (map Csv.written (c :: c' :: cells)))
      with (Csv.written c ++ ","
            ++ JS.join "," (map Csv.written (c' :: cells)))%string.
    rewrite !append_assoc.
    rewrite (scan_cell c _ "" (map Csv.content (c' :: cells)) rest Hc).
    + cbn [map]. f_equal. f_equal.
      clear. induction (Csv.content c) as [|x a IHa]; cbn;
        [reflexivity|now rewrite IHa].
    + reflexivity.
    + rewrite scan_comma, IH'. reflexivity.
Qed.

(** Records that are well written are read back as they were written:
    one record for each, in their order, each with the contents of its
    cells. *)
Lemma read_records (rows : list (list Csv.Cell)) :
  rows <> [] ->
  (forall cells, In cells rows ->
     cells <> [] /\ forallb Csv.wellWritten cells = true) ->
  Csv.read (JS.join Reports.newline
              (map (fun cells => JS.join "," (map Csv.written cells)) rows)) =
    map (map Csv.content) rows.
Proof.
  unfold Csv.read. intros Hne Hall.
  induction rows as [|cells rows IH]; [congruence|].
  destruct (Hall cells (or_introl eq_refl)) as [Hc Hw].
  destruct rows as [|cells' rows].
  - cbn [map JS.join String.concat].
    rewrite <- (append_nil_r (JS.join "," (map Csv.written cells))).
    apply scan_record; auto.
  - assert (IH' := IH ltac:(discriminate)
                     ltac:(intros ? ?; apply Hall; now right)). clear IH.
    change (JS.join Reports.newline
              (map (fun cs => JS.join "," (map Csv.written cs))
                   (cells :: cells' :: rows)))
      with (JS.join "," (map Csv.written cells) ++ Reports.newline
            ++ JS.join Reports.newline
                 (map (fun cs => JS.join "," (map Csv.written cs))
                      (cells' :: rows)))%string.
    rewrite (scan_record cells _ (map (map Csv.content) (cells' :: rows)));
      auto.
    rewrite scan_newline, IH'. reflexivity.
Qed.

End CsvRead.

Section CsvExport.
Import Reports.
Context {num : Type} {NO : NumberOps num} {DO : DateOps}.
Variable typeValue : TransactionType -> string.

Local Abbreviation Transaction := (Reports.Transaction num).
Local Abbreviation csvRow := (Reports.csvRow typeValue).
Local Abbreviation csvRows := (Reports.csvRows typeValue).
Local Abbreviation csvContent := (Reports.csvContent typeValue).
Local Abbreviation csvFields := (Reports.csvFields typeValue).
Local Abbreviation csvCells := (Reports.csvCells typeValue).
Local Abbreviation csvSafe := (Reports.csvSafe typeValue).

Lemma orElse_empty (s : string) : JS.orElse s "" = s.
Proof.
  unfold JS.orElse, JS.truthy.
  destruct (String.eqb_spec s ""); cbn; [now subst|reflexivity].
Qed.

(** The array [downloadCSV] builds for a transaction holds its cells as
    they are written, and these hold the columns of the transaction. *)
Lemma csvRow_written (t : Transaction) :
  csvRow t = map Csv.written (csvCells t).
Proof.
  unfold Reports.csvRow, Reports.csvCells. cbn [map Csv.written].
  rewrite !orElse_empty. destruct (JS.truthy (notes t)); reflexivity.
Qed.

Lemma csvCells_content (t : Transaction) :
  map Csv.content (csvCells t) = csvFields t.
Proof.
  unfold Reports.csvCells, Reports.csvFields. cbn [map Csv.content].
  do 7 f_equal. unfold JS.truthy.
  destruct (String.eqb_spec (notes t) "") as [E|E]; cbn;
    [now rewrite E|reflexivity].
Qed.


End CsvExport.

(** *** The export on sample logs *)



(** ** More about the issue/receive form *)

Section FormMore.
Import Form.
Context {num : Type} {NO : NumberOps num} {File World : Type}.
Variable submitTransaction : TransactionRequest num -> World -> bool * World.
Variable uploadFileToDrive : File -> string -> World -> UploadResult * World.

Local Abbreviation handleSubmit :=
  (Form.handleSubmit submitTransaction uploadFileToDrive).
Local Abbreviation emitted :=
  (Form.emitted submitTransaction uploadFileToDrive).
Local Abbreviation runActions :=
  (Form.runActions submitTransaction uploadFileToDrive).
Local Abbreviation sinkRun := (Form.sinkRun submitTransaction).
Local Abbreviation initialSys := (@Form.initialSys num File World).
Local Abbreviation initialLive := (@Form.initialLive num File World).
Local Abbreviation Action := (@Form.Action num File).
Local Abbreviation Sys := (@Form.Sys num File World).
Local Abbreviation Event := (@Form.Event num File).
Local Abbreviation reachable_distinctIds :=
  (reachable_distinctIds submitTransaction uploadFileToDrive).

Lemma truthy_true (x : string) : JS.truthy x = true <-> x <> "".
Proof.
  unfold JS.truthy. destruct (String.eqb_spec x ""); cbn; split; congruence.
Qed.

Lemma validateItems_None type (inventory : list (InventoryItem num)) l :
  validateItems type inventory l = None <->
  Forall (fun item => validateItem type inventory item = None) l.
Proof.
  induction l as [|item l IH]; cbn.
  - split; [constructor|reflexivity].
  - destruct (validateItem type inventory item) eqn:E.
    + split; [discriminate|]. intros H. inversion H; subst. congruence.
    + rewrite IH. split; [intros H; constructor; assumption|].
      intros H. inversion H; assumption.
Qed.

Lemma validateItems_Some type (inventory : list (InventoryItem num)) l e :
  validateItems type inventory l = Some e <->
  exists pre item post,
    l = pre ++ item :: post /\
    Forall (fun r => validateItem type inventory r = None) pre /\
    validateItem type inventory item = Some e.
Proof.
  induction l as [|item l IH]; cbn.
  - split; [discriminate|]. intros (pre & it & post & E & _).
    destruct pre; discriminate.
  - destruct (validateItem type inventory item) as [e'|] eqn:E.
    + split.
      * intros H. exists [], item, l. repeat split; [constructor|congruence].
      * intros ([|p pre] & it & post & El & Hpre & Hit); cbn in El;
          inversion El; subst; [congruence|].
        inversion Hpre; subst. congruence.
    + rewrite IH. split.
      * intros (pre & it & post & El & Hpre & Hit).
        exists (item :: pre), it, post. subst. repeat split; auto.
      * intros ([|p pre] & it & post & El & Hpre & Hit); cbn in El;
          inversion El; subst; [congruence|].
        inversion Hpre; subst. exists pre, it, post. auto.
Qed.

(** A batch passes validation exactly when each of its rows passes on
    its own. A receive row passes when its three fields are filled in,
    whatever the inventory holds; an issue row when, besides, the
    inventory holds an item of its name and the first such item has not
    less than the number the row asks for. Rows are compared with the
    snapshot one by one: what other rows ask of the same item does not
    count. *)
Theorem validation_passes_row_by_row
    (type : TransactionType) (inventory : list (InventoryItem num))
    (l : list ItemEntry) :
  (validateItems type inventory l = None <->
   Forall (fun item => validateItem type inventory item = None) l) /\
  (forall item,
     validateItem RECEIVE inventory item = None <->
     itemName item <> "" /\ quantity item <> "" /\ unit item <> "") /\
  (forall item,
     validateItem ISSUE inventory item = None <->
     itemName item <> "" /\ quantity item <> "" /\ unit item <> "" /\
     exists selectedItem,
       find (fun i => inv_name i =? itemName item) inventory
         = Some selectedItem /\
       num_ltb (inv_quantity selectedItem) (Number (quantity item)) = false).
Proof.
  split; [apply validateItems_None|]. split.
  - intros item. unfold validateItem.
    rewrite <- !truthy_true.
    destruct (JS.truthy (itemName item)), (JS.truthy (quantity item)),
      (JS.truthy (unit item)); cbn; intuition congruence.
  - intros item. unfold validateItem.
    rewrite <- !truthy_true.
    destruct (JS.truthy (itemName item)), (JS.truthy (quantity item)),
      (JS.truthy (unit item)); cbn; try (intuition congruence).
    destruct (find _ inventory) as [inv|].
    + destruct (num_ltb (inv_quantity inv) (Number (quantity item))) eqn:E.
      * split; [discriminate|]. intros (_ & _ & _ & x & Hx & Hlt).
        inversion Hx; subst. congruence.
      * split; [|reflexivity]. intros _. repeat split. eauto.
    + split; [discriminate|]. intros (_ & _ & _ & x & Hx & _). discriminate.
Qed.


Lemma finishForm_flags sc failed (f : @State File) :
  loading (finishForm sc failed f) = false /\
  uploadingFile (finishForm sc failed f) = uploadingFile f /\
  progress (finishForm sc failed f) = progress f.
Proof.
  unfold finishForm.
  destruct (List.length failed =? 0)%nat; [|destruct (0 <? sc)%nat];
    repeat split.
Qed.

Lemma uploadStep_uploadingFile type l file (s : Sys) :
  uploadingFile (form (snd (Form.uploadStep uploadFileToDrive type l file s))) =
    match type, file with
    | RECEIVE, Some _ => false
    | _, _ => uploadingFile (form s)
    end.
Proof.
  unfold Form.uploadStep. destruct type; [reflexivity|].
  destruct file as [f|]; [|reflexivity].
  unfold bind, setUploadingFile, update, callUpload; cbn [form world trace].
  destruct (uploadFileToDrive f (JS.join "_" (map itemName l)) (world s))
    as [r w].
  cbn [form world trace]. destruct (uploadOk r); reflexivity.
Qed.

Lemma handleSubmit_uploadingFile type inventory (s : Sys) :
  uploadingFile (form (snd (handleSubmit type inventory s))) =
    match validateItems type inventory (items (form s)),
          type, selectedFile (form s) with
    | None, RECEIVE, Some _ => false
    | _, _, _ => uploadingFile (form s)
    end.
Proof.
  destruct (validateItems type inventory (items (form s))) as [e|] eqn:Hv.
  - rewrite (handleSubmit_invalid _ _ _ _ _ _ Hv). reflexivity.
  - unfold Form.handleSubmit. rewrite Hv.
    unfold bind at 1. unfold setLoading at 1, update at 1.
    unfold bind at 1. unfold setMessage at 1, bind at 1, update at 1, emit at 1.
    cbn [form world trace].
    unfold bind at 1.
    match goal with |- context [Form.uploadStep _ ?t ?l ?f ?s1] =>
      pose proof (uploadStep_uploadingFile t l f s1) as HU;
      destruct (Form.uploadStep uploadFileToDrive t l f s1) as [url s2]
    end.
    cbn [snd form] in HU.
    unfold bind at 1.
    unfold setProgress at 1, bind at 1, update at 1, emit at 1.
    cbn [form world trace].
    unfold bind at 1.
    match goal with
    | |- context [Form.submitLoop _ ?t ?c ?u ?n ?i ?l ?a ?b ?s1] =>
      destruct (submitLoop_run submitTransaction t c u n l i a b s1)
        as (outs & w2 & HL & HK & HR2)
    end.
    rewrite HR2. cbn [form world trace fst snd app].
    unfold bind at 1.
    unfold setProgress at 1, bind at 1, update at 1, emit at 1.
    cbn [form world trace].
    rewrite finish_run. cbn [snd form].
    match goal with |- context [finishForm ?a ?b ?c] =>
      destruct (finishForm_flags a b c) as (_ & -> & _)
    end.
    destruct (items (form s)); cbn [uploadingFile set_progress]; rewrite HU;
      destruct type; reflexivity.
Qed.


(** The call on a batch that fails validation publishes the error of
    the first row that fails a check and does nothing else: the rows in
    front of that row pass, its error is the message left in the form,
    neither collaborator is called and [onSuccess] is not, and every other
    field of the form is as it was. *)
Theorem failed_validation_publishes_first_error
    (type : TransactionType) (inventory : list (InventoryItem num))
    (s : Sys) (e : ValidationError) :
  validateItems type inventory (items (form s)) = Some e ->
  let s' := snd (handleSubmit type inventory s) in
  let m := Some {| msg_type := error; text := errorText e |} in
  (exists pre item post,
     items (form s) = pre ++ item :: post /\
     Forall (fun r => validateItem type inventory r = None) pre /\
     validateItem type inventory item = Some e) /\
  emitted type inventory s = [EvMessage None; EvMessage m] /\
  message (form s') = m /\
  loading (form s') = false /\
  world s' = world s /\
  items (form s') = items (form s) /\
  commonData (form s') = commonData (form s) /\
  selectedFile (form s') = selectedFile (form s) /\
  filePreview (form s') = filePreview (form s) /\
  progress (form s') = progress (form s) /\
  uploadingFile (form s') = uploadingFile (form s) /\
  nextId (form s') = nextId (form s).
Proof.
  intros Hv. cbv zeta.
  rewrite (emitted_invalid _ _ _ _ _ _ Hv),
    (handleSubmit_invalid _ _ _ _ _ _ Hv).
  split; [apply validateItems_Some; exact Hv|].
  repeat split.
Qed.

(** Whatever the batch and whatever the collaborators answer, the call
    ends with [loading] off, with [uploadingFile] off if it was off when
    the call began, so that the submit button, disabled while either flag
    is on, is enabled again, and, when the batch passed validation, with
    the progress cleared. *)
Theorem submit_ends_with_controls_enabled
    (type : TransactionType) (inventory : list (InventoryItem num))
    (s : Sys) :
  let f' := form (snd (handleSubmit type inventory s)) in
  loading f' = false /\
  (uploadingFile (form s) = false ->
     uploadingFile f' = false /\ submitDisabled f' = false) /\
  (validateItems type inventory (items (form s)) = None ->
     progress f' = None) /\
  (validateItems type inventory (items (form s)) <> None ->
     progress f' = progress (form s)).
Proof.
  cbv zeta.
  assert (Hload : loading (form (snd (handleSubmit type inventory s)))
                  = false).
  { destruct (validateItems type inventory (items (form s))) as [e|] eqn:Hv.
    - rewrite (handleSubmit_invalid _ _ _ _ _ _ Hv). reflexivity.
    - destruct (handleSubmit_valid_emitted submitTransaction
                  uploadFileToDrive type inventory s Hv)
        as (url & upEv & outs & w1 & w & f1 & _ & _ & _ & _ & HR & _).
      rewrite HR. cbn [form]. apply finishForm_flags. }
  split; [exact Hload|]. split; [|split].
  - intros Hoff.
    assert (Hup : uploadingFile (form (snd (handleSubmit type inventory s)))
                  = false).
    { rewrite handleSubmit_uploadingFile.
      destruct (validateItems type inventory (items (form s)));
        [exact Hoff|].
      destruct type; [exact Hoff|].
      destruct (selectedFile (form s)); [reflexivity|exact Hoff]. }
    split; [exact Hup|]. unfold submitDisabled. now rewrite Hload, Hup.
  - intros Hv.
    destruct (handleSubmit_valid_emitted submitTransaction
                uploadFileToDrive type inventory s Hv)
      as (url & upEv & outs & w1 & w & f1 & _ & _ & _ & _ & HR & _).
    rewrite HR. cbn [form].
    destruct (finishForm_flags (successes outs)
                (map itemName (failedEntries (items (form s)) outs))
                (set_progress None f1)) as (_ & _ & ->).
    reflexivity.
  - intros Hv.
    destruct (validateItems type inventory (items (form s))) as [e|] eqn:E;
      [|congruence].
    rewrite (handleSubmit_invalid _ _ _ _ _ _ E). reflexivity.
Qed.

Lemma successes_all_true outs :
  Forall (fun ok => ok = true) outs -> successes outs = List.length outs.
Proof.
  unfold successes. induction 1 as [|ok outs H _ IH]; cbn; auto.
  subst. cbn. now rewrite IH.
Qed.

Lemma successes_failed_total rest :
  forall outs, List.length outs = List.length rest ->
  successes outs + List.length (failedEntries rest outs) = List.length rest.
Proof.
  unfold successes.
  induction rest as [|item rest IH]; intros [|ok outs] H;
    cbn in *; try discriminate; auto.
  destruct ok; cbn; rewrite <- (IH outs) by lia; lia.
Qed.

Lemma finishForm_message sc failed (f : @State File) :
  message (finishForm sc failed f) =
    Some (if (List.length failed =? 0)%nat then successMessage sc
          else if (0 <? sc)%nat then partialMessage sc failed
          else failureMessage).
Proof.
  unfold finishForm.
  destruct (List.length failed =? 0)%nat; [|destruct (0 <? sc)%nat];
    reflexivity.
Qed.

(** The message a call on a validated batch leaves is decided by the
    answers of the sink alone, whatever the upload step published before:
    the success message with the number of rows when every request was
    accepted, the partial message with the number accepted and the names
    refused, in their order, when some were accepted and some refused, the
    failure message when all were refused. Accepted and refused requests
    together are as many as the rows. *)
Theorem final_message_classifies_outcomes
    (type : TransactionType) (inventory : list (InventoryItem num))
    (s : Sys) :
  validateItems type inventory (items (form s)) = None ->
  let ev := emitted type inventory s in
  let outs := outcomes ev in
  let m := message (form (snd (handleSubmit type inventory s))) in
  successes outs + List.length (failedNames ev)
    = List.length (items (form s)) /\
  (Forall (fun ok => ok = true) outs ->
     m = Some (successMessage (List.length (items (form s))))) /\
  (In false outs -> In true outs ->
     m = Some (partialMessage (successes outs) (failedNames ev))) /\
  (In false outs -> ~ In true outs -> m = Some failureMessage).
Proof.
  intros Hv. cbv zeta.
  destruct (handleSubmit_valid_emitted submitTransaction uploadFileToDrive
              type inventory s Hv)
    as (url & upEv & outs & w1 & w & f1 & HU & HS & HL & HK & HR & HE & HO).
  rewrite HO, HR, HE. cbn [form].
  rewrite (failedNames_validEvents uploadFileToDrive _ _ _ _ _ _ _ _ _ HU).
  rewrite finishForm_message, !length_map.
  split; [apply successes_failed_total; exact HL|]. split; [|split].
  - intros Hall. rewrite (failedEntries_all_true _ _ Hall). cbn.
    rewrite (successes_all_true _ Hall), HL. reflexivity.
  - intros Hf Ht.
    pose proof (failedEntries_some_false _ _ HL Hf) as Hne.
    destruct (failedEntries (items (form s)) outs) eqn:E; [congruence|].
    cbn [List.length Nat.eqb].
    pose proof (successes_some_true _ Ht) as Hpos.
    apply Nat.ltb_lt in Hpos. rewrite Hpos. reflexivity.
  - intros Hf Ht.
    pose proof (failedEntries_some_false _ _ HL Hf) as Hne.
    destruct (failedEntries (items (form s)) outs) eqn:E; [congruence|].
    cbn [List.length Nat.eqb].
    assert (Hall : Forall (fun ok => ok = false) outs).
    { apply Forall_forall. intros [|] Hin; [contradiction|reflexivity]. }
    rewrite (successes_all_false _ Hall). reflexivity.
Qed.

Lemma requestsFrom_no_url type common i rest :
  Forall (fun r : TransactionRequest num => req_fileUrl r = "")
    (Form.requestsFrom type common "" i rest).
Proof.
  unfold Form.requestsFrom. apply Forall_forall. intros r Hin.
  apply in_map_iff in Hin. destruct Hin as ([k item] & <- & _). cbn.
  destruct (k =? 0)%nat; reflexivity.
Qed.

(** An issue batch, and a receive batch with no file selected, never
    calls the upload collaborator: every request goes out with an empty
    [fileUrl], and the first request reaches the sink in the world the
    call found. A file selected while the form issues stock is ignored. *)
Theorem no_upload_without_receive_attachment
    (type : TransactionType) (inventory : list (InventoryItem num))
    (s : Sys) :
  type = ISSUE \/ selectedFile (form s) = None ->
  let ev := emitted type inventory s in
  uploads ev = [] /\
  Forall (fun r => req_fileUrl r = "") (requests ev) /\
  sinkRun (requests ev) (world s) =
    (outcomes ev, world (snd (handleSubmit type inventory s))).
Proof.
  intros Hno. cbv zeta.
  destruct (validateItems type inventory (items (form s))) as [e|] eqn:Hv.
  - rewrite (emitted_invalid _ _ _ _ _ _ Hv),
      (handleSubmit_invalid _ _ _ _ _ _ Hv).
    repeat split. constructor.
  - destruct (handleSubmit_valid_emitted submitTransaction uploadFileToDrive
                type inventory s Hv)
      as (url & upEv & outs & w1 & w & f1 & HU & HS & HL & HK & HR & HE & HO).
    rewrite HO, HR, HE. cbn [world].
    rewrite (requests_validEvents uploadFileToDrive _ _ _ _ _ _ _ _ _ HU HL),
      uploads_validEvents.
    assert (Hquiet : upEv = [] /\ url = "" /\ w1 = world s).
    { unfold Form.uploadFacts in HU.
      destruct Hno as [->|Hn]; [exact HU|]. rewrite Hn in HU.
      destruct type; exact HU. }
    destruct Hquiet as (-> & -> & ->).
    split; [reflexivity|]. split; [apply requestsFrom_no_url|exact HK].
Qed.


(** *** Row identifiers *)

(** In every form the component can reach, calls of [handleSubmit]
    waiting or not, the rows have pairwise distinct identifiers, all below
    the counter, so that the identifier the next new row draws belongs to
    no row. *)
Theorem row_identifiers_stay_distinct (w : World) (acts : list Action) :
  let f := form (sys (runActions acts (initialLive w))) in
  NoDup (map id (items f)) /\
  (forall item, In item (items f) -> id item < nextId f) /\
  ~ In (nextId f) (map id (items f)).
Proof.
  cbv zeta. destruct (reachable_distinctIds w acts) as (ND & Hlt).
  split; [exact ND|]. split; [exact Hlt|].
  intros Hin. apply in_map_iff in Hin. destruct Hin as (item & E & Hin).
  specialize (Hlt item Hin). lia.
Qed.

(** *** Editing rows *)

Lemma setField_id item field value : id (setField item field value) = id item.
Proof. destruct field; reflexivity. Qed.

Lemma getField_setField item field value :
  getField (setField item field value) field = value.
Proof. destruct field; reflexivity. Qed.

Lemma getField_setField_other item field field' value :
  field <> field' ->
  getField (setField item field value) field' = getField item field'.
Proof. destruct field, field'; intros H; try reflexivity; congruence. Qed.

Lemma setField_twice item field v v' :
  setField (setField item field v) field v' = setField item field v'.
Proof. destruct field; reflexivity. Qed.

Lemma setField_swap item field field' v v' :
  field <> field' ->
  setField (setField item field v) field' v' =
  setField (setField item field' v') field v.
Proof. destruct field, field'; intros H; try reflexivity; congruence. Qed.

(** Edits of rows compose as writes to the cells of a table do: of two
    writes to the same field of the same row the later one stands; writes
    to different rows or to different fields can be made in either order;
    a write to an identifier no row has changes no row; and after a write
    the row of that identifier reads the value in that field and its old
    values in the two others, every other row being as it was. *)
Theorem updateItem_writes_compose
    (s : Sys) (i j : nat) (field field' : Field) (v v' : string) :
  let upd i field v (s : Sys) := snd (updateItem i field v s) in
  upd i field v' (upd i field v s) = upd i field v' s /\
  (i <> j \/ field <> field' ->
   upd j field' v' (upd i field v s) = upd i field v (upd j field' v' s)) /\
  (~ In i (map id (items (form s))) ->
   items (form (upd i field v s)) = items (form s)) /\
  map id (items (form (upd i field v s))) = map id (items (form s)) /\
  (forall n item, nth_error (items (form s)) n = Some item ->
     exists item',
       nth_error (items (form (upd i field v s))) n = Some item' /\
       (id item <> i -> item' = item) /\
       (id item = i ->
          getField item' field = v /\
          forall other, other <> field ->
            getField item' other = getField item other)).
Proof.
  cbv zeta. unfold updateItem, setItems, update. cbn.
  split; [|split; [|split; [|split]]].
  - unfold set_items. cbn. do 2 f_equal. rewrite map_map. apply map_ext.
    intros item.
    destruct (Nat.eqb_spec (id item) i) as [E|E].
    + rewrite setField_id. apply Nat.eqb_eq in E. rewrite E.
      apply setField_twice.
    + destruct (Nat.eqb_spec (id item) i); [contradiction|reflexivity].
  - intros Hdiff. unfold set_items. cbn. do 2 f_equal.
    rewrite !map_map. apply map_ext. intros item.
    destruct (Nat.eqb_spec (id item) i) as [Ei|Ei];
      destruct (Nat.eqb_spec (id item) j) as [Ej|Ej];
      rewrite ?setField_id;
      repeat match goal with
             | |- context [(?a =? ?b)%nat] =>
                 destruct (Nat.eqb_spec a b); try contradiction
             end; try reflexivity.
    destruct Hdiff as [Hd|Hd]; [congruence|]. now apply setField_swap.
  - intros Hnotin. rewrite <- (map_id (items (form s))) at 2.
    apply map_ext_in. intros item Hin.
    destruct (Nat.eqb_spec (id item) i) as [E|E]; [|reflexivity].
    exfalso. apply Hnotin. rewrite <- E. now apply in_map.
  - rewrite map_map. apply map_ext. intros item.
    destruct (id item =? i)%nat; [apply setField_id|reflexivity].
  - intros n item Hn. eexists. split; [apply map_nth_error; exact Hn|].
    destruct (Nat.eqb_spec (id item) i) as [E|E].
    + split; [contradiction|]. intros _.
      split; [apply getField_setField|].
      intros other Ho. apply getField_setField_other. congruence.
    + split; [reflexivity|contradiction].
Qed.

Lemma filter_id_split (i : nat) (l : list ItemEntry) :
  NoDup (map id l) -> In i (map id l) ->
  exists pre item post,
    l = pre ++ item :: post /\ id item = i /\
    filter (fun item => negb (id item =? i)%nat) l = pre ++ post.
Proof.
  induction l as [|a l IH]; cbn; [tauto|].
  intros ND Hin. inversion ND as [|x xs Hnotin ND']; subst.
  destruct (Nat.eqb_spec (id a) i) as [E|E]; cbn [negb].
  - exists [], a, l. repeat split; [exact E|]. cbn.
    clear IH Hin ND ND'. subst i.
    induction l as [|b l IHl]; cbn; [reflexivity|].
    destruct (Nat.eqb_spec (id b) (id a)) as [Eb|Eb]; cbn [negb].
    + exfalso. apply Hnotin. left. exact Eb.
    + f_equal. apply IHl. intros H. apply Hnotin. now right.
  - destruct Hin as [Hin|Hin]; [contradiction|].
    destruct (IH ND' Hin) as (pre & item & post & El & Eid & Ef).
    exists (a :: pre), item, post. cbn. rewrite Ef, <- El. repeat split.
    exact Eid.
Qed.

Lemma filter_id_absent (i : nat) (l : list ItemEntry) :
  ~ In i (map id l) -> filter (fun item => negb (id item =? i)%nat) l = l.
Proof.
  induction l as [|a l IH]; cbn; [reflexivity|]. intros H.
  destruct (Nat.eqb_spec (id a) i) as [E|E]; cbn [negb]; [tauto|].
  f_equal. apply IH. tauto.
Qed.

(** In a form the component can reach that holds two rows or more,
    [removeItem] takes out the one row of the given identifier and leaves
    the others in their order; given an identifier no row has, it changes
    nothing. *)
Theorem removeItem_removes_one_row (w : World) (acts : list Action) (i : nat) :
  let s := sys (runActions acts (initialLive w)) in
  let l := items (form s) in
  let l' := items (form (snd (removeItem i s))) in
  (1 < List.length l -> In i (map id l) ->
     exists pre item post,
       l = pre ++ item :: post /\ id item = i /\ l' = pre ++ post /\
       ~ In i (map id l') /\ List.length l' = List.length l - 1) /\
  (~ In i (map id l) -> l' = l).
Proof.
  cbv zeta. destruct (reachable_distinctIds w acts) as (ND & _).
  unfold removeItem. split.
  - intros Hlen Hin.
    destruct (Nat.leb_spec (List.length
                (items (form (sys (runActions acts (initialLive w)))))) 1);
      [lia|].
    cbn. destruct (filter_id_split i _ ND Hin)
      as (pre & item & post & El & Eid & Ef).
    exists pre, item, post. rewrite Ef.
    split; [exact El|]. split; [exact Eid|]. split; [reflexivity|].
    rewrite El in ND. rewrite map_app in ND. cbn in ND.
    apply NoDup_remove_2 in ND. rewrite Eid in ND. rewrite map_app.
    split; [exact ND|]. rewrite El, !length_app. cbn. lia.
  - intros Hnotin.
    destruct (List.length
                (items (form (sys (runActions acts (initialLive w)))))
                <=? 1)%nat; [reflexivity|].
    cbn. apply filter_id_absent. exact Hnotin.
Qed.

(** In a form the component can reach, [addItem] appends one blank row
    under an identifier no row has. Removing that row again gives back
    the rows there were if there was one; added to an empty list, the row
    is the only one and [removeItem] leaves it. *)
Theorem removeItem_undoes_addItem (w : World) (acts : list Action) :
  let s := sys (runActions acts (initialLive w)) in
  let added := snd (addItem s) in
  let removed := snd (removeItem (nextId (form s)) added) in
  items (form added) = items (form s) ++ [blankItem (nextId (form s))] /\
  ~ In (nextId (form s)) (map id (items (form s))) /\
  (items (form s) <> [] -> items (form removed) = items (form s)) /\
  (items (form s) = [] ->
   items (form removed) = [blankItem (nextId (form s))]).
Proof.
  cbv zeta. destruct (reachable_distinctIds w acts) as (ND & Hlt).
  set (s := sys (runActions acts (initialLive w))) in *.
  assert (Hnew : ~ In (nextId (form s)) (map id (items (form s)))).
  { intros Hin. apply in_map_iff in Hin. destruct Hin as (item & E & Hin).
    specialize (Hlt item Hin). lia. }
  split; [reflexivity|]. split; [exact Hnew|].
  unfold removeItem, addItem, bind, freshId, setItems, update. cbn.
  rewrite length_app. cbn [List.length]. split.
  - intros Hne.
    assert (Hlen : (List.length (items (form s)) + 1 <=? 1)%nat = false).
    { apply Nat.leb_gt. destruct (items (form s)); [congruence|cbn; lia]. }
    rewrite Hlen. cbn [snd form items set_items set_nextId].
    rewrite filter_app. cbn [filter id blankItem].
    rewrite Nat.eqb_refl. cbn [negb]. rewrite app_nil_r.
    apply filter_id_absent. exact Hnew.
  - intros E. rewrite E. reflexivity.
Qed.

(** What the effect does to a row. *)
Lemma autoFillUnit_rows (inventory : list (InventoryItem num)) :
  exists g : ItemEntry -> ItemEntry,
    (forall s : Sys,
       snd (autoFillUnit ISSUE inventory s) =
         {| form := set_items (map g (items (form s))) (form s);
            world := world s; trace := trace s |}) /\
    forall item,
      id (g item) = id item /\ itemName (g item) = itemName item /\
      quantity (g item) = quantity item /\
      unit (g item) =
        match find (fun i => inv_name i =? itemName item) inventory with
        | Some inv => if JS.truthy (itemName item) then inv_unit inv
                      else unit item
        | None => unit item
        end.
Proof.
  eexists. split; [intros s; reflexivity|].
  intros item. cbn beta.
  destruct (JS.truthy (itemName item)).
  - destruct (find (fun i => inv_name i =? itemName item) inventory)
      as [inv|]; [|repeat split].
    destruct (String.eqb_spec (unit item) (inv_unit inv)) as [E|E];
      cbn; repeat split; auto.
  - destruct (find (fun i => inv_name i =? itemName item) inventory);
      repeat split.
Qed.

Lemma item_eta (a b : ItemEntry) :
  id a = id b -> itemName a = itemName b -> quantity a = quantity b ->
  unit a = unit b -> a = b.
Proof. destruct a, b; cbn; intros; subst; reflexivity. Qed.

(** The effect that fills in units settles in one run: a second run
    changes nothing, and the run leaves the names it is triggered by, the
    identifiers and the quantities as they were. In an issue form every
    row with a name the inventory knows then carries the unit of the
    first inventory item of that name, and every other row its old unit;
    in a receive form the run changes nothing. *)
Theorem autoFillUnit_settles
    (type : TransactionType) (inventory : list (InventoryItem num))
    (s : Sys) :
  let s1 := snd (autoFillUnit type inventory s) in
  snd (autoFillUnit type inventory s1) = s1 /\
  map id (items (form s1)) = map id (items (form s)) /\
  map itemName (items (form s1)) = map itemName (items (form s)) /\
  map quantity (items (form s1)) = map quantity (items (form s)) /\
  (type = RECEIVE -> s1 = s) /\
  (type = ISSUE ->
   forall n item, nth_error (items (form s)) n = Some item ->
     exists item',
       nth_error (items (form s1)) n = Some item' /\
       unit item' =
         match find (fun i => inv_name i =? itemName item) inventory with
         | Some inv => if JS.truthy (itemName item) then inv_unit inv
                       else unit item
         | None => unit item
         end).
Proof.
  cbv zeta. destruct type.
  2:{ cbn [autoFillUnit]. unfold ret. cbn. repeat split. discriminate. }
  destruct (autoFillUnit_rows inventory) as (g & Hrun & Hg).
  rewrite !Hrun. cbn [form items set_items world trace].
  split; [|split; [|split; [|split; [|split]]]].
  - unfold set_items. cbn. do 2 f_equal. rewrite map_map. apply map_ext.
    intros item.
    destruct (Hg item) as (A & B & C & D).
    destruct (Hg (g item)) as (A' & B' & C' & D').
    apply item_eta; try congruence.
    rewrite D', B, D.
    destruct (find (fun i => inv_name i =? itemName item) inventory);
      [|reflexivity].
    destruct (JS.truthy (itemName item)); reflexivity.
  - rewrite map_map. apply map_ext. intros item. apply Hg.
  - rewrite map_map. apply map_ext. intros item. apply Hg.
  - rewrite map_map. apply map_ext. intros item. apply Hg.
  - discriminate.
  - intros _ n item Hn. exists (g item).
    split; [apply map_nth_error; exact Hn|apply Hg].
Qed.

Lemma update_split (i : nat) (g : ItemEntry -> ItemEntry) (l : list ItemEntry) :
  NoDup (map id l) -> In i (map id l) ->
  exists pre item post,
    l = pre ++ item :: post /\ id item = i /\
    map (fun x => if (id x =? i)%nat then g x else x) l =
      pre ++ g item :: post.
Proof.
  induction l as [|a l IH]; cbn; [tauto|].
  intros ND Hin. inversion ND as [|x xs Hnotin ND']; subst.
  destruct (Nat.eqb_spec (id a) i) as [E|E].
  - exists [], a, l. repeat split; [exact E|]. cbn. f_equal.
    rewrite <- (map_id l) at 2. apply map_ext_in. intros b Hb.
    destruct (Nat.eqb_spec (id b) i) as [Eb|Eb]; [|reflexivity].
    exfalso. apply Hnotin. rewrite E, <- Eb. now apply in_map.
  - destruct Hin as [Hin|Hin]; [contradiction|].
    destruct (IH ND' Hin) as (pre & item & post & El & Eid & Ef).
    exists (a :: pre), item, post. cbn. rewrite Ef, <- El. repeat split.
    exact Eid.
Qed.

(** In a form the component can reach, an edit of a row's name leaves
    the text the unit effect is keyed by as it was only if it leaves the
    rows as they were: whatever the names hold, commas included, the
    effect is triggered by every edit that changes a name. *)
Theorem name_edit_changes_effect_key
    (w : World) (acts : list Action) (i : nat) (value : string) :
  let s := sys (runActions acts (initialLive w)) in
  let l := items (form s) in
  let l' := items (form (snd (updateItem i F_itemName value s))) in
  unitEffectKey l' = unitEffectKey l <-> l' = l.
Proof.
  cbv zeta. destruct (reachable_distinctIds w acts) as (ND & _).
  split; [|intros ->; reflexivity].
  unfold updateItem, setItems, update. cbn [snd form items set_items].
  set (l := items (form (sys (runActions acts (initialLive w))))) in *.
  destruct (in_dec Nat.eq_dec i (map id l)) as [Hin|Hnotin].
  - destruct (update_split i (fun x => setField x F_itemName value) l ND Hin)
      as (pre & item & post & El & Eid & Ef).
    rewrite Ef. clearbody l. subst l. unfold unitEffectKey.
    rewrite !map_app. cbn [map setField itemName].
    destruct (join_split "," (map itemName pre) (map itemName post))
      as (p & q & Hj).
    rewrite !Hj. intros H. apply append_inv_head, append_inv_tail in H.
    do 2 f_equal. destruct item; cbn in *. now subst.
  - intros _. rewrite <- (map_id l) at 2. apply map_ext_in. intros b Hb.
    destruct (Nat.eqb_spec (id b) i) as [Eb|Eb]; [|reflexivity].
    exfalso. apply Hnotin. rewrite <- Eb. now apply in_map.
Qed.

(** *** Submitting again *)

(** What a call on a validated batch leaves of the rows, the common
    fields and the attachment, by the answers of the sink. *)
Lemma handleSubmit_valid_form type inventory (s : Sys) :
  validateItems type inventory (items (form s)) = None ->
  let outs := outcomes (emitted type inventory s) in
  let failed := failedEntries (items (form s)) outs in
  let f' := form (snd (handleSubmit type inventory s)) in
  List.length outs = List.length (items (form s)) /\
  failedNames (emitted type inventory s) = map itemName failed /\
  items f' =
    (if (List.length failed =? 0)%nat then [blankItem (nextId (form s))]
     else if (0 <? successes outs)%nat
          then filter (fun item =>
                         JS.includes (itemName item) (map itemName failed))
                      (items (form s))
          else items (form s)) /\
  selectedFile f' =
    (if (List.length failed =? 0)%nat then None else selectedFile (form s)) /\
  commonData f' =
    (if (List.length failed =? 0)%nat then blankCommon
     else commonData (form s)).
Proof.
  intros Hv. cbv zeta.
  destruct (handleSubmit_valid_emitted submitTransaction uploadFileToDrive
              type inventory s Hv)
    as (url & upEv & outs & w1 & w & f1 & HU & HS & HL & HK & HR & HE & HO).
  rewrite HO, HR, HE. cbn [form].
  rewrite (failedNames_validEvents uploadFileToDrive _ _ _ _ _ _ _ _ _ HU).
  destruct HS as (Hit & Hcd & Hsf & _ & Hid).
  split; [exact HL|]. split; [reflexivity|].
  unfold finishForm. rewrite length_map.
  destruct (List.length (failedEntries (items (form s)) outs) =? 0)%nat;
    [|destruct (0 <? successes outs)%nat]; cbn;
    rewrite ?Hit, ?Hcd, ?Hsf, ?Hid; repeat split.
Qed.

Lemma validateItems_filter type (inventory : list (InventoryItem num))
    (p : ItemEntry -> bool) l :
  validateItems type inventory l = None ->
  validateItems type inventory (filter p l) = None.
Proof.
  rewrite !validateItems_None, !Forall_forall. intros H item Hin.
  apply filter_In in Hin. apply H. tauto.
Qed.

Lemma uploads_valid type inventory (s : Sys) :
  validateItems type inventory (items (form s)) = None ->
  map (fun u => fst u) (uploads (emitted type inventory s)) =
    match type, selectedFile (form s) with
    | RECEIVE, Some file =>
        [(file, JS.join "_" (map itemName (items (form s))))]
    | _, _ => []
    end.
Proof.
  intros Hv.
  destruct (handleSubmit_valid_emitted submitTransaction uploadFileToDrive
              type inventory s Hv)
    as (url & upEv & outs & w1 & w & f1 & HU & HS & HL & HK & HR & HE & HO).
  rewrite HE, uploads_validEvents. unfold Form.uploadFacts in HU.
  destruct type; [destruct HU as (-> & _); reflexivity|].
  destruct (selectedFile (form s)) as [file|];
    [|destruct HU as (-> & _); reflexivity].
  destruct HU as (r & _ & -> & _). destruct (uploadOk r); reflexivity.
Qed.

Lemma requests_names_valid type inventory (s : Sys) :
  validateItems type inventory (items (form s)) = None ->
  map req_itemName (requests (emitted type inventory s)) =
    map itemName (items (form s)).
Proof.
  intros Hv.
  destruct (handleSubmit_valid_emitted submitTransaction uploadFileToDrive
              type inventory s Hv)
    as (url & upEv & outs & w1 & w & f1 & HU & HS & HL & HK & HR & HE & HO).
  rewrite HE, (requests_validEvents uploadFileToDrive _ _ _ _ _ _ _ _ _ HU HL).
  apply requestsFrom_names.
Qed.


End FormMore.

(** ** Facts about the dropdown *)

Section DropdownFacts.
Import Form.
Context {num : Type} {NO : NumberOps num} {File World : Type}.
Variable toLowerCase : string -> string.

Local Abbreviation filtered := (Dropdown.filtered toLowerCase).
Local Abbreviation Sys := (@Form.Sys num File World).

(** The dropdown offers the inventory items whose name holds the search
    text when both are put in lower case. An item is offered under its
    own name typed in any letter case, an empty search text offers the
    whole inventory, which is what the list shows again after a choice,
    and a search text that holds the previous one offers no item the
    previous one did not. *)
Theorem dropdown_offers_matching_items
    (inventory : list (InventoryItem num)) (st : Dropdown.State) :
  (forall item, In item (filtered inventory st) <->
     In item inventory /\
     exists pre post,
       toLowerCase (inv_name item) =
         (pre ++ toLowerCase (Dropdown.search st) ++ post)%string) /\
  (forall item, In item inventory ->
     toLowerCase (Dropdown.search st) = toLowerCase (inv_name item) ->
     In item (filtered inventory st)) /\
  (toLowerCase (Dropdown.search st) = "" ->
     filtered inventory st = inventory) /\
  (forall name, toLowerCase "" = "" ->
     filtered inventory (snd (Dropdown.select name st)) = inventory /\
     Dropdown.open (snd (Dropdown.select name st)) = false) /\
  (forall st',
     JS.Str.includes (toLowerCase (Dropdown.search st'))
                     (toLowerCase (Dropdown.search st)) = true ->
     incl (filtered inventory st') (filtered inventory st)).
Proof.
  assert (Hall : forall st0, toLowerCase (Dropdown.search st0) = "" ->
            filtered inventory st0 = inventory).
  { intros st0 E. unfold Dropdown.filtered. rewrite E.
    induction inventory as [|x l IH]; cbn [filter]; [reflexivity|].
    rewrite includes_empty. now rewrite IH. }
  split; [|split; [|split; [|split]]].
  - intros item. unfold Dropdown.filtered.
    rewrite filter_In, includes_spec. reflexivity.
  - intros item Hin E. unfold Dropdown.filtered. apply filter_In.
    split; [exact Hin|]. rewrite E. apply includes_refl.
  - apply Hall.
  - intros name E. split; [apply Hall; exact E|reflexivity].
  - intros st' Hinc item Hin. unfold Dropdown.filtered in *.
    apply filter_In in Hin. apply filter_In. split; [tauto|].
    eapply includes_trans; [apply Hin|exact Hinc].
Qed.

Lemma find_name_In (inventory : list (InventoryItem num))
    (it : InventoryItem num) :
  In it inventory ->
  exists inv,
    find (fun x => inv_name x =? inv_name it) inventory = Some inv /\
    inv_name inv = inv_name it.
Proof.
  induction inventory as [|x l IH]; cbn; [tauto|].
  destruct (String.eqb_spec (inv_name x) (inv_name it)) as [E|E].
  - intros _. exists x. auto.
  - intros [->|Hin]; [congruence|auto].
Qed.

(** A name chosen from the dropdown of an issue row, once the unit
    effect has run, is a name validation knows: the row of that
    identifier bears the name and, unless the name is empty, the unit of
    the first inventory item of that name, and validation does not report
    it as an unknown item. *)
Theorem chosen_item_is_known_to_validation
    (inventory : list (InventoryItem num)) (st : Dropdown.State)
    (it : InventoryItem num) (i : nat) (s : Sys) :
  In it (filtered inventory st) ->
  let value := fst (Dropdown.select (inv_name it) st) in
  let s1 := snd (updateItem i F_itemName value s) in
  let s2 := snd (autoFillUnit ISSUE inventory s1) in
  exists inv,
    find (fun x => inv_name x =? inv_name it) inventory = Some inv /\
    forall row, In row (items (form s2)) -> id row = i ->
      itemName row = inv_name it /\
      (inv_name it <> "" -> unit row = inv_unit inv) /\
      (forall name, validateItem ISSUE inventory row
                      <> Some (UnknownItem name)).
Proof.
  intros Hin. cbv zeta. unfold Dropdown.filtered in Hin.
  apply filter_In in Hin. destruct Hin as [Hin _].
  destruct (find_name_In inventory it Hin) as (inv & Hfind & Hname).
  exists inv. split; [exact Hfind|].
  destruct (autoFillUnit_rows (File := File) (World := World) inventory)
    as (g & Hrun & Hg).
  rewrite Hrun. unfold updateItem, setItems, update. cbn.
  intros row Hrow Hid. rewrite map_map in Hrow.
  apply in_map_iff in Hrow. destruct Hrow as (old & E & _).
  subst row.
  match type of Hid with
  | id (g ?x) = _ => destruct (Hg x) as (A & B & C & D)
  end.
  rewrite A in Hid.
  destruct (Nat.eqb_spec (id old) i) as [Ei|Ei]; [|contradiction].
  cbn [setField itemName unit] in B, D. rewrite Hfind in D.
  split; [exact B|]. split.
  - intros Hne. rewrite D. unfold JS.truthy.
    destruct (String.eqb_spec (inv_name it) ""); [contradiction|reflexivity].
  - intros name. unfold validateItem. rewrite B, Hfind.
    match goal with |- context [if ?c then Some MissingField else _] =>
      destruct c; [discriminate|] end.
    destruct (num_ltb _ _); discriminate.
Qed.

End DropdownFacts.

(** *** More sample batches *)

Lemma failed_validation_publishes_first_error_witness :
  let inventory := [Sample.bolt] in
  let s := Sample.formWith
             [Sample.entry 1 "Bolt" "3" "pcs";
              Sample.entry 2 "Washer" "1" "pcs"; Sample.entry 3 "" "" ""]
             (Some "invoice.pdf") [true; true; true] in
  @Form.validateItems Z Sample.ZNumber ISSUE inventory
    (Form.items (Form.form s)) = Some (Form.UnknownItem "Washer") /\
  Sample.emitted ISSUE inventory s =
    [Form.EvMessage None;
     Form.EvMessage
       (Some {| Form.msg_type := Form.error;
                Form.text :=
                  (JS.quoted "Washer" ++ " is not a valid item.")%string |})] /\
  Form.world (Sample.run ISSUE inventory s) = [true; true; true].
Proof.
  cbv zeta. split; [reflexivity|].
  destruct (@failed_validation_publishes_first_error Z Sample.ZNumber string
              (list bool) Sample.scriptedSink Sample.fileStore ISSUE
              [Sample.bolt]
              (Sample.formWith
                 [Sample.entry 1 "Bolt" "3" "pcs";
                  Sample.entry 2 "Washer" "1" "pcs"; Sample.entry 3 "" "" ""]
                 (Some "invoice.pdf") [true; true; true])
              (Form.UnknownItem "Washer") eq_refl)
    as (_ & Hev & _ & _ & Hw & _).
  split; [exact Hev|exact Hw].
Defined.

Lemma final_message_classifies_outcomes_witness :
  let inventory := [Sample.bolt; Sample.nut] in
  let s := Sample.formWith
             [Sample.entry 1 "Bolt" "3" "pcs"; Sample.entry 2 "Nut" "7" "pcs";
              Sample.entry 3 "Bolt" "1" "pcs"]
             None [true; false; false] in
  @Form.validateItems Z Sample.ZNumber ISSUE inventory
    (Form.items (Form.form s)) = None /\
  Form.outcomes (Sample.emitted ISSUE inventory s) = [true; false; false] /\
  Form.message (Form.form (Sample.run ISSUE inventory s)) =
    Some {| Form.msg_type := Form.error;
            Form.text := "1 item(s) saved, but failed: Nut, Bolt" |}.
Proof.
  cbv zeta. split; [reflexivity|]. split; [reflexivity|].
  destruct (@final_message_classifies_outcomes Z Sample.ZNumber string
              (list bool) Sample.scriptedSink Sample.fileStore ISSUE
              [Sample.bolt; Sample.nut]
              (Sample.formWith
                 [Sample.entry 1 "Bolt" "3" "pcs";
                  Sample.entry 2 "Nut" "7" "pcs";
                  Sample.entry 3 "Bolt" "1" "pcs"]
                 None [true; false; false])
              eq_refl)
    as (_ & _ & Hpartial & _).
  unfold Sample.run. rewrite Hpartial.
  - reflexivity.
  - vm_compute. right. left. reflexivity.
  - vm_compute. left. reflexivity.
Defined.

Lemma no_upload_without_receive_attachment_witness :
  let inventory := [Sample.bolt; Sample.nut] in
  let s := Sample.formWith
             [Sample.entry 1 "Bolt" "3" "pcs"; Sample.entry 2 "Nut" "7" "pcs"]
             (Some "invoice.pdf") [true; true] in
  Form.selectedFile (Form.form s) = Some "invoice.pdf" /\
  Form.uploads (Sample.emitted ISSUE inventory s) = [] /\
  map req_fileUrl (Form.requests (Sample.emitted ISSUE inventory s)) =
    [""; ""].
Proof.
  cbv zeta. split; [reflexivity|].
  destruct (@no_upload_without_receive_attachment Z Sample.ZNumber string
              (list bool) Sample.scriptedSink Sample.fileStore ISSUE
              [Sample.bolt; Sample.nut]
              (Sample.formWith
                 [Sample.entry 1 "Bolt" "3" "pcs";
                  Sample.entry 2 "Nut" "7" "pcs"]
                 (Some "invoice.pdf") [true; true])
              (or_introl eq_refl))
    as (Hup & _ & _).
  split; [exact Hup|reflexivity].
Defined.



Lemma removeItem_removes_one_row_witness :
  let acts := [Form.ActAddItem; Form.ActRender; Form.ActAddItem] in
  map Form.id (Form.items (Form.form (Sample.after acts))) = [1; 2; 4] /\
  List.length
    (Form.items (Form.form (snd (Form.removeItem 2 (Sample.after acts)))))
    = 2 /\
  map Form.id
    (Form.items (Form.form (snd (Form.removeItem 2 (Sample.after acts))))) =
    [1; 4].
Proof.
  cbv zeta. split; [reflexivity|].
  destruct (proj1 (@removeItem_removes_one_row Z Sample.ZNumber string
              (list bool) Sample.scriptedSink Sample.fileStore []
              [Form.ActAddItem; Form.ActRender; Form.ActAddItem] 2))
    as (pre & item & post & _ & _ & _ & _ & Hlen).
  - vm_compute. lia.
  - vm_compute. right. left. reflexivity.
  - split; [|reflexivity]. unfold Sample.after, Sample.live.
    rewrite Hlen. reflexivity.
Defined.

Lemma removeItem_undoes_addItem_witness :
  let s := Sample.after [Form.ActAddItem; Form.ActRender] in
  let added := snd (Form.addItem s) in
  let emptied :=
    Form.sys (Sample.live [true; false]
                (Sample.issueBoltAndNut
                 ++ [Form.ActRemoveItem 5; Form.ActRender]
                 ++ Sample.bothAnswers)) in
  (map Form.id (Form.items (Form.form s)) = [1; 2] /\
   Form.nextId (Form.form s) = 4 /\
   map Form.id (Form.items (Form.form added)) = [1; 2; 4] /\
   Form.items (Form.form (snd (Form.removeItem 4 added))) =
     Form.items (Form.form s)) /\
  (Form.items (Form.form emptied) = [] /\
   Form.nextId (Form.form emptied) = 15 /\
   Form.items
     (Form.form (snd (Form.removeItem 15 (snd (Form.addItem emptied))))) =
     [Form.blankItem 15]).
Proof.
  cbv zeta. split.
  - split; [reflexivity|]. split; [reflexivity|]. split; [reflexivity|].
    apply (proj1 (proj2 (proj2
      (@removeItem_undoes_addItem Z Sample.ZNumber string (list bool)
         Sample.scriptedSink Sample.fileStore []
         [Form.ActAddItem; Form.ActRender])))).
    vm_compute. discriminate.
  - split; [reflexivity|]. split; [reflexivity|].
    apply (proj2 (proj2 (proj2
      (@removeItem_undoes_addItem Z Sample.ZNumber string (list bool)
         Sample.scriptedSink Sample.fileStore [true; false]
         (Sample.issueBoltAndNut
          ++ [Form.ActRemoveItem 5; Form.ActRender]
          ++ Sample.bothAnswers))))).
    reflexivity.
Defined.

Lemma dropdown_offers_matching_items_witness :
  let inventory := [Sample.bolt; Sample.nut] in
  let st := {| Dropdown.open := true; Dropdown.search := "T" |} in
  Dropdown.filtered Sample.toLowerCase inventory st = inventory /\
  Dropdown.filtered Sample.toLowerCase inventory
    (Dropdown.setSearch "uT" st) = [Sample.nut] /\
  Dropdown.filtered Sample.toLowerCase inventory
    (snd (Dropdown.select "Nut" (Dropdown.setSearch "uT" st))) = inventory.
Proof.
  cbv zeta. split; [reflexivity|]. split; [reflexivity|].
  exact (proj1 (proj1 (proj2 (proj2 (proj2
    (@dropdown_offers_matching_items Z Sample.toLowerCase
       [Sample.bolt; Sample.nut]
       (Dropdown.setSearch "uT"
          {| Dropdown.open := true; Dropdown.search := "T" |})))))
    "Nut" eq_refl)).
Defined.

Lemma chosen_item_is_known_to_validation_witness :
  let inventory := [Sample.bolt; Sample.nut] in
  let st := {| Dropdown.open := true; Dropdown.search := "NU" |} in
  let s := Sample.formWith [Sample.entry 1 "" "7" ""] None [] in
  let s1 := snd (Form.updateItem 1 Form.F_itemName
                   (fst (Dropdown.select "Nut" st)) s) in
  let s2 := snd (@Form.autoFillUnit Z string (list bool) ISSUE inventory s1) in
  Dropdown.filtered Sample.toLowerCase inventory st = [Sample.nut] /\
  Form.items (Form.form s2) = [Sample.entry 1 "Nut" "7" "pcs"] /\
  Form.unit (Sample.entry 1 "Nut" "7" "pcs") = inv_unit Sample.nut.
Proof.
  cbv zeta. split; [reflexivity|]. split; [reflexivity|].
  destruct (@chosen_item_is_known_to_validation Z Sample.ZNumber string
              (list bool) Sample.toLowerCase [Sample.bolt; Sample.nut]
              {| Dropdown.open := true; Dropdown.search := "NU" |}
              Sample.nut 1
              (Sample.formWith [Sample.entry 1 "" "7" ""] None []))
    as (inv & Hfind & Hrow).
  - vm_compute. left. reflexivity.
  - destruct (Hrow (Sample.entry 1 "Nut" "7" "pcs")) as (_ & Hunit & _).
    + vm_compute. left. reflexivity.
    + reflexivity.
    + rewrite Hunit; [|discriminate]. vm_compute in Hfind.
      inversion Hfind. reflexivity.
Defined.

(** ** More about sorting *)

(** Sorting with a comparator that is a total preorder on the elements
    at hand. *)
Section SortByOrder.
Context {A : Type} (cmp : A -> A -> Z) (ok : A -> Prop).
Let le (a b : A) : Prop := (cmp a b <= 0)%Z.
Hypothesis le_total : forall a b, ok a -> ok b -> le a b \/ le b a.
Hypothesis le_trans : forall a b c,
  ok a -> ok b -> ok c -> le a b -> le b c -> le a c.

Lemma insert_ok (x : A) (l : list A) :
  ok x -> Forall ok l -> Forall ok (JS.insert cmp x l).
Proof.
  intros Hx Hl. eapply Permutation_Forall; [symmetry; apply insert_perm|].
  now constructor.
Qed.

Lemma sort_ok (l : list A) : Forall ok l -> Forall ok (JS.sort cmp l).
Proof.
  intros Hl. eapply Permutation_Forall; [symmetry; apply sort_perm|exact Hl].
Qed.

Lemma insert_sorted_le (x : A) (l : list A) :
  ok x -> Forall ok l ->
  StronglySorted le l -> StronglySorted le (JS.insert cmp x l).
Proof.
  intros Hx Hok Hs. induction Hs as [|y l Hs IH Hall]; cbn.
  - constructor; constructor.
  - inversion Hok as [|? ? Hy Hl]; subst.
    destruct (Z.leb_spec (cmp x y) 0) as [Hle|Hgt].
    + constructor; [constructor; assumption|].
      constructor; [exact Hle|].
      rewrite Forall_forall in *. intros z Hz.
      apply (le_trans x y z); auto.
    + constructor; [apply IH; exact Hl|].
      eapply Permutation_Forall; [symmetry; apply insert_perm|].
      constructor; [|exact Hall].
      destruct (le_total x y Hx Hy) as [H|H]; [unfold le in H; lia|exact H].
Qed.

Lemma sort_sorted_le (l : list A) :
  Forall ok l -> StronglySorted le (JS.sort cmp l).
Proof.
  induction l as [|x l IH]; cbn; intros Hok; [constructor|].
  inversion Hok; subst.
  apply insert_sorted_le; [assumption|apply sort_ok; assumption|auto].
Qed.

End SortByOrder.

(** Sorting in descending order of a key in [Z] that the comparator
    subtracts on the elements at hand: the elements of one key keep
    their order. *)
Section SortByZKey.
Context {A : Type} (cmp : A -> A -> Z) (key : A -> Z) (ok : A -> Prop).
Hypothesis cmp_key : forall a b, ok a -> ok b -> cmp a b = (key b - key a)%Z.

Lemma sort_sorted_key (l : list A) :
  Forall ok l ->
  StronglySorted (fun a b => (key b <= key a)%Z) (JS.sort cmp l).
Proof.
  intros Hok.
  assert (H : StronglySorted (fun a b => (cmp a b <= 0)%Z) (JS.sort cmp l)).
  { apply (sort_sorted_le cmp ok); [| |exact Hok].
    - intros a b Ha Hb. rewrite !cmp_key by assumption. lia.
    - intros a b c Ha Hb Hc. rewrite !cmp_key by assumption. lia. }
  pose proof (sort_ok cmp ok l Hok) as Hall.
  induction H as [|x s Hs IH Hx]; [constructor|].
  inversion Hall as [|? ? Hokx Hoks]; subst.
  constructor; [apply IH; exact Hoks|].
  rewrite Forall_forall in *. intros y Hy. specialize (Hx y Hy).
  rewrite cmp_key in Hx by auto. lia.
Qed.

Lemma insert_class_key (q : A -> bool) (n : Z) (x : A) (l : list A) :
  ok x -> Forall ok l ->
  filter (fun e => q e && (key e =? n)%Z) (JS.insert cmp x l) =
  filter (fun e => q e && (key e =? n)%Z) (x :: l).
Proof.
  intros Hx Hl. induction Hl as [|y l Hy Hl IH]; cbn; [reflexivity|].
  destruct (Z.leb_spec (cmp x y) 0) as [Hle|Hgt]; [reflexivity|].
  rewrite cmp_key in Hgt by assumption.
  cbn [filter]. rewrite IH. cbn [filter].
  destruct (Z.eqb_spec (key x) n) as [Ex|Ex];
    destruct (Z.eqb_spec (key y) n) as [Ey|Ey];
    rewrite ?andb_false_r, ?andb_true_r; try reflexivity.
  lia.
Qed.

Lemma sort_class_key (q : A -> bool) (n : Z) (l : list A) :
  Forall ok l ->
  filter (fun e => q e && (key e =? n)%Z) (JS.sort cmp l) =
  filter (fun e => q e && (key e =? n)%Z) l.
Proof.
  induction l as [|x l IH]; cbn [JS.sort fold_right]; intros Hok;
    [reflexivity|].
  inversion Hok; subst.
  fold (JS.sort cmp l).
  rewrite insert_class_key; [|assumption|apply sort_ok; assumption].
  cbn [filter]. now rewrite IH.
Qed.

End SortByZKey.

(** The order of strings by code units. *)
Section StringOrder.

Lemma ascii_compare_refl (a : ascii) : Ascii.compare a a = Eq.
Proof. unfold Ascii.compare. apply N.compare_refl. Qed.

Lemma ascii_compare_trans (a b c : ascii) :
  Ascii.compare a b = Lt -> Ascii.compare b c = Lt -> Ascii.compare a c = Lt.
Proof.
  unfold Ascii.compare. rewrite !N.compare_lt_iff. lia.
Qed.

Lemma string_compare_lt_trans (a b c : string) :
  String.compare a b = Lt -> String.compare b c = Lt ->
  String.compare a c = Lt.
Proof.
  revert b c. induction a as [|x a IH]; intros [|y b] [|z c]; cbn;
    try discriminate; try reflexivity.
  destruct (Ascii.compare x y) eqn:Exy; try discriminate;
    destruct (Ascii.compare y z) eqn:Eyz; try discriminate.
  - apply Ascii.compare_eq_iff in Exy, Eyz. subst.
    rewrite ascii_compare_refl. apply IH.
  - apply Ascii.compare_eq_iff in Exy. subst. now rewrite Eyz.
  - apply Ascii.compare_eq_iff in Eyz. subst. now rewrite Exy.
  - now rewrite (ascii_compare_trans _ _ _ Exy Eyz).
Qed.

Lemma string_compare_refl (a : string) : String.compare a a = Eq.
Proof.
  induction a as [|x a IH]; cbn; [reflexivity|].
  now rewrite ascii_compare_refl.
Qed.

Lemma defaultCompare_le (a b : string) :
  (JS.Str.defaultCompare a b <= 0)%Z <-> String.compare a b <> Gt.
Proof.
  unfold JS.Str.defaultCompare.
  destruct (String.compare a b); split; intros H; try lia; congruence.
Qed.

Lemma defaultCompare_total (a b : string) :
  (JS.Str.defaultCompare a b <= 0)%Z \/ (JS.Str.defaultCompare b a <= 0)%Z.
Proof.
  rewrite !defaultCompare_le, (String.compare_antisym a b).
  destruct (String.compare b a); cbn; [left|right|left]; congruence.
Qed.

Lemma defaultCompare_trans (a b c : string) :
  (JS.Str.defaultCompare a b <= 0)%Z -> (JS.Str.defaultCompare b c <= 0)%Z ->
  (JS.Str.defaultCompare a c <= 0)%Z.
Proof.
  rewrite !defaultCompare_le. intros Hab Hbc.
  destruct (String.compare a b) eqn:Eab; [| |congruence];
    destruct (String.compare b c) eqn:Ebc; try congruence.
  - apply String.compare_eq_iff in Eab, Ebc. subst.
    now rewrite string_compare_refl.
  - apply String.compare_eq_iff in Eab. subst. now rewrite Ebc.
  - apply String.compare_eq_iff in Ebc. subst. now rewrite Eab.
  - now rewrite (string_compare_lt_trans _ _ _ Eab Ebc).
Qed.

End StringOrder.

(** ** More about the reports view *)

Section SetFacts.

Lemma newSet_snoc_In (l : list string) (x : string) :
  forall y, In y (JS.newSet (l ++ [x])) <-> In y (JS.newSet l) \/ y = x.
Proof.
  intros y. rewrite newSet_snoc. unfold JS.setAdd.
  destruct (JS.includes x (JS.newSet l)) eqn:E.
  - apply includes_In in E. split; [tauto|]. intros [H| ->]; assumption.
  - rewrite in_app_iff. cbn. intuition.
Qed.

(** [new Set(arr)] holds the elements of [arr], each once. *)
Lemma newSet_In (l : list string) :
  forall y, In y (JS.newSet l) <-> In y l.
Proof.
  induction l as [|x l IH] using rev_ind; intros y.
  - cbn. tauto.
  - rewrite newSet_snoc_In, in_app_iff, IH. cbn. intuition.
Qed.

Lemma newSet_NoDup (l : list string) : NoDup (JS.newSet l).
Proof.
  induction l as [|x l IH] using rev_ind; [constructor|].
  rewrite newSet_snoc. unfold JS.setAdd.
  destruct (JS.includes x (JS.newSet l)) eqn:E; [exact IH|].
  apply NoDup_app; [exact IH|constructor; [tauto|constructor]|].
  intros y Hy [<-|[]].
  apply includes_In in Hy. congruence.
Qed.

End SetFacts.

Section ReportsMore.
Import Reports.
Context {num : Type} {NO : NumberOps num} {DO : DateOps}.

Local Abbreviation Transaction := (Reports.Transaction num).
Local Abbreviation Floor := (Floor.t num).
Local Abbreviation Breakdown := (Breakdown.t num).

(** *** Carrying a property of the entries through the aggregation *)

Section Invariant.
Variable P : list Transaction -> string -> Floor -> Prop.
Hypothesis P_other : forall seen k e t,
  location t <> k -> P seen k e -> P (seen ++ [t]) k e.
Hypothesis P_old : forall seen t e,
  entryOK seen (location t) e -> P seen (location t) e ->
  P (seen ++ [t]) (location t) (visit t e).
Hypothesis P_new : forall seen t,
  (forall t', In t' seen -> location t' <> location t) ->
  P (seen ++ [t]) (location t) (visit t (newFloor t)).

Lemma floorStep_invariant seen (m m' : JS.Obj Floor) t :
  mapOK seen m -> (forall k e, In (k, e) m -> P seen k e) ->
  floorStep m t = Some m' ->
  forall k e, In (k, e) m' -> P (seen ++ [t]) k e.
Proof.
  intros (ND & Hent & Hseen) HP Hstep k e Hin.
  apply floorStep_Some in Hstep. destruct Hstep as [_ ->].
  apply (setOwn_In _ _ _ _ _ ND) in Hin.
  destruct Hin as [[-> ->]|[Hne Hin]].
  - unfold entryFor. destruct (JS.getOwn (location t) m) as [fl|] eqn:G.
    + apply getOwn_In in G. apply P_old; auto.
    + apply P_new. intros t' Hin' E.
      apply getOwn_None in G. apply G. rewrite <- E. auto.
  - apply P_other; [congruence|auto].
Qed.

Lemma forEach_invariant (rest : list Transaction) :
  forall seen (m m' : JS.Obj Floor),
  mapOK seen m -> (forall k e, In (k, e) m -> P seen k e) ->
  forEach m rest = Some m' ->
  forall k e, In (k, e) m' -> P (seen ++ rest) k e.
Proof.
  induction rest as [|t rest IH]; intros seen m m' Hok HP Hrun; cbn in Hrun.
  - inversion Hrun; subst. now rewrite app_nil_r.
  - destruct (floorStep m t) as [m1|] eqn:Hstep; [|discriminate].
    replace (seen ++ t :: rest) with ((seen ++ [t]) ++ rest)
      by (rewrite <- app_assoc; reflexivity).
    eapply IH; [| |exact Hrun].
    + eapply floorStep_mapOK; eassumption.
    + eapply floorStep_invariant; eassumption.
Qed.

Lemma floorSummary_invariant (filtered : list Transaction)
    (fs : list Floor) e :
  floorSummary filtered = Some fs -> In e fs ->
  P filtered (Floor.location e) e.
Proof.
  intros Hfs Hin.
  destruct (floorSummary_Some _ _ Hfs) as (m & Hrun & -> & Hok).
  apply sort_In in Hin. unfold JS.values in Hin. apply in_map_iff in Hin.
  destruct Hin as ([k e'] & E & Hin). cbn in E. subst e'.
  destruct Hok as (_ & Hent & _).
  destruct (Hent k e Hin) as (-> & _).
  eapply (forEach_invariant filtered [] [] m mapOK_empty); eauto.
  intros ? ? [].
Qed.

End Invariant.

(** *** The items of a floor *)

Lemma visit_items (t : Transaction) (fl : Floor) :
  Floor.items (visit t fl) = countItem t (Floor.items fl).
Proof.
  unfold visit, touch, withItems, countFloor.
  destruct (type t); cbn;
    match goal with |- context [if ?c then _ else _] => destruct c end;
    reflexivity.
Qed.

Lemma itemAt_other_location loc name (t : Transaction) :
  location t <> loc -> itemAt loc name t = false.
Proof.
  intros H. unfold itemAt, atLocation.
  destruct (String.eqb_spec (location t) loc); [contradiction|reflexivity].
Qed.

Lemma itemAt_other_name loc name (t : Transaction) :
  itemName t <> name -> itemAt loc name t = false.
Proof.
  intros H. unfold itemAt.
  destruct (String.eqb_spec (itemName t) name); [contradiction|].
  apply andb_false_r.
Qed.

Lemma itemAt_same (t : Transaction) : itemAt (location t) (itemName t) t = true.
Proof. unfold itemAt, atLocation. now rewrite !String.eqb_refl. Qed.

Lemma isIssue_type (t : Transaction) :
  isIssue t = match type t with ISSUE => true | RECEIVE => false end.
Proof. unfold isIssue. destruct (type t); reflexivity. Qed.

Lemma isReceive_type (t : Transaction) :
  isReceive t = match type t with ISSUE => false | RECEIVE => true end.
Proof. unfold isReceive. destruct (type t); reflexivity. Qed.

Lemma breakdownOK_other seen loc name (b : Breakdown) (t : Transaction) :
  itemAt loc name t = false ->
  breakdownOK seen loc name b -> breakdownOK (seen ++ [t]) loc name b.
Proof.
  intros H. unfold breakdownOK. cbv zeta. rewrite filter_snoc, H. tauto.
Qed.

Lemma countItem_itemsOK seen (t : Transaction) (its : JS.Obj Breakdown) :
  itemsOK seen (location t) its ->
  itemsOK (seen ++ [t]) (location t) (countItem t its).
Proof.
  intros (ND & Hent & Hseen). unfold countItem.
  split; [apply setOwn_NoDup; exact ND|]. split.
  - intros name b Hin. apply (setOwn_In _ _ _ _ _ ND) in Hin.
    destruct Hin as [[-> ->]|[Hne Hin]].
    2:{ apply breakdownOK_other; [now apply itemAt_other_name|auto]. }
    unfold breakdownOK. cbv zeta. rewrite filter_snoc, itemAt_same.
    destruct (JS.getOwn (itemName t) its) as [b0|] eqn:G.
    + apply getOwn_In in G.
      destruct (Hent _ _ G) as (Hi & Hr & Hp & t0 & rest & Ets & Hu).
      rewrite !filter_snoc, isIssue_type, isReceive_type, map_app.
      cbn [map]. rewrite newSet_snoc, <- Hp.
      split; [|split; [|split]].
      * destruct (type t); cbn [Breakdown.issued];
          [rewrite sumQuantity_snoc|]; now rewrite Hi.
      * destruct (type t); cbn [Breakdown.received];
          [|rewrite sumQuantity_snoc]; now rewrite Hr.
      * destruct (type t); reflexivity.
      * exists t0, (rest ++ [t]). rewrite Ets. split; [reflexivity|].
        destruct (type t); exact Hu.
    + apply getOwn_None in G.
      assert (Hnone : filter (itemAt (location t) (itemName t)) seen = []).
      { apply filter_none. intros t' Hin'.
        destruct (itemAt (location t) (itemName t) t') eqn:E; [|reflexivity].
        exfalso. apply G. unfold itemAt, atLocation in E.
        apply andb_true_iff in E. destruct E as [E1 E2].
        apply String.eqb_eq in E1, E2. rewrite <- E2. apply Hseen; auto. }
      rewrite Hnone. cbn [app filter map].
      rewrite isIssue_type, isReceive_type.
      split; [|split; [|split]].
      * destruct (type t); reflexivity.
      * destruct (type t); reflexivity.
      * destruct (type t); reflexivity.
      * exists t, []. split; [reflexivity|]. destruct (type t); reflexivity.
  - intros t' Hin Hloc. apply setOwn_keys. apply in_app_or in Hin.
    destruct Hin as [Hin|[<-|[]]]; [right; auto|now left].
Qed.

Lemma itemsOK_other seen loc (t : Transaction) (its : JS.Obj Breakdown) :
  location t <> loc -> itemsOK seen loc its -> itemsOK (seen ++ [t]) loc its.
Proof.
  intros Hne (ND & Hent & Hseen). split; [exact ND|]. split.
  - intros name b Hin. apply breakdownOK_other; auto.
    now apply itemAt_other_location.
  - intros t' Hin Hloc. apply in_app_or in Hin.
    destruct Hin as [Hin|[<-|[]]]; [auto|contradiction].
Qed.

Lemma floorSummary_items (filtered : list Transaction) (fs : list Floor) e :
  floorSummary filtered = Some fs -> In e fs ->
  itemsOK filtered (Floor.location e) (Floor.items e).
Proof.
  apply (floorSummary_invariant
           (fun seen k e => itemsOK seen k (Floor.items e))).
  - intros seen k e0 t Hne H. now apply itemsOK_other.
  - intros seen t e0 _ H. rewrite visit_items. now apply countItem_itemsOK.
  - intros seen t Hnew. rewrite visit_items. apply countItem_itemsOK.
    split; [constructor|]. split; [intros ? ? []|].
    intros t' Hin E. exfalso. exact (Hnew t' Hin E).
Qed.

Lemma filter_filter {A} (p q : A -> bool) (l : list A) :
  filter p (filter q l) = filter (fun x => q x && p x) l.
Proof.
  induction l as [|x l IH]; cbn; [reflexivity|].
  destruct (q x); cbn; [destruct (p x)|]; now rewrite IH.
Qed.

(** The item table of a floor adds up the transactions
    [downloadFloorPDF] lists under it: it has one entry for each item
    name among them, and the entry of a name holds the issued and the
    received quantity of the transactions of that name, summed in their
    order, the persons of those transactions, each once and in order of
    first appearance, and the unit of the first of them, or ["pcs"] when
    that one has none. *)
Theorem floor_items_add_up_listed_transactions
    (filtered : list Transaction) (fs : list Floor) :
  floorSummary filtered = Some fs ->
  forall e, In e fs ->
    let listed := locationTransactions filtered e in
    listed <> [] /\
    NoDup (JS.keys (Floor.items e)) /\
    (forall name, In name (JS.keys (Floor.items e)) <->
                  In name (map itemName listed)) /\
    forall name b, In (name, b) (Floor.items e) ->
      let ts := filter (fun t => itemName t =? name) listed in
      Breakdown.issued b = sumQuantity (filter isIssue ts) /\
      Breakdown.received b = sumQuantity (filter isReceive ts) /\
      Breakdown.persons b = JS.newSet (map personName ts) /\
      exists t0 rest,
        ts = t0 :: rest /\ Breakdown.unit b = JS.orElse (unit t0) "pcs".
Proof.
  intros Hfs e Hin. cbv zeta.
  pose proof (floorSummary_items filtered fs e Hfs Hin) as (ND & Hent & Hseen).
  pose proof (floorSummary_entry filtered fs e Hfs Hin)
    as (_ & _ & _ & _ & _ & Hlast & _).
  assert (Hts : forall name,
    filter (fun t : Transaction => itemName t =? name)
      (locationTransactions filtered e) =
    filter (itemAt (Floor.location e) name) filtered).
  { intros name. unfold locationTransactions. rewrite filter_filter.
    reflexivity. }
  split; [|split; [exact ND|split]].
  - unfold locationTransactions. intros E.
    change (fun t : Transaction => location t =? Floor.location e)
      with (atLocation (num := num) (Floor.location e)) in E.
    rewrite E in Hlast. destruct Hlast.
  - intros name. split.
    + intros Hk. unfold JS.keys in Hk. apply in_map_iff in Hk.
      destruct Hk as ([k b] & Ek & Hb). cbn in Ek. subst k.
      destruct (Hent _ _ Hb) as (_ & _ & _ & t0 & rest & Ets & _).
      rewrite <- Hts in Ets.
      assert (H0 : In t0 (filter (fun t : Transaction => itemName t =? name)
                            (locationTransactions filtered e))).
      { rewrite Ets. now left. }
      apply filter_In in H0. destruct H0 as [H0 En].
      apply String.eqb_eq in En. rewrite <- En. now apply in_map.
    + intros Hn. apply in_map_iff in Hn. destruct Hn as (t & <- & Ht).
      unfold locationTransactions in Ht. apply filter_In in Ht.
      destruct Ht as [Ht El]. apply String.eqb_eq in El. now apply Hseen.
  - intros name b Hb. rewrite Hts. apply (Hent _ _ Hb).
Qed.

(** *** The last activity of a floor *)

Lemma lastOf_snoc (l : list Transaction) t :
  l <> [] -> lastOf (l ++ [t]) = later (lastOf l) t.
Proof.
  destruct l as [|t0 rest]; [congruence|]. intros _. cbn [app lastOf].
  now rewrite fold_left_app.
Qed.

Lemma floorSummary_lastActivity (filtered : list Transaction)
    (fs : list Floor) e :
  floorSummary filtered = Some fs -> In e fs ->
  Floor.lastActivity e =
    lastOf (filter (atLocation (Floor.location e)) filtered).
Proof.
  apply (floorSummary_invariant
           (fun seen k e =>
              Floor.lastActivity e = lastOf (filter (atLocation k) seen))).
  - intros seen k e0 t Hne H. rewrite filter_snoc. unfold atLocation at 1.
    destruct (String.eqb_spec (location t) k); [contradiction|exact H].
  - intros seen t e0 Hok H. rewrite filter_snoc. unfold atLocation at 1.
    rewrite String.eqb_refl, lastOf_snoc.
    + rewrite visit_lastActivity, <- H. reflexivity.
    + destruct Hok as (_ & _ & _ & _ & _ & Hl & _). intros E.
      rewrite E in Hl. destruct Hl.
  - intros seen t Hnew. rewrite filter_snoc. unfold atLocation at 1.
    rewrite String.eqb_refl, filter_none.
    + cbn [app lastOf fold_left]. rewrite visit_lastActivity. cbn.
      now rewrite time_gt_irrefl.
    + intros t' Hin. unfold atLocation.
      destruct (String.eqb_spec (location t') (location t)); [|reflexivity].
      exfalso. exact (Hnew t' Hin e0).
Qed.

Lemma fold_later_stays (held : string) (rest : list Transaction) :
  (forall t, In t rest ->
     JS.time_gt (parseDate (date t)) (parseDate held) = false) ->
  fold_left later rest held = held.
Proof.
  induction rest as [|t rest IH]; cbn; [reflexivity|]. intros H.
  unfold later at 2. rewrite (H t (or_introl eq_refl)). apply IH.
  intros t' Hin. apply H. now right.
Qed.

(** *** The order of the filtered list *)

Lemma byDateDesc_key (a b : Transaction) :
  parseDate (date a) <> None -> parseDate (date b) <> None ->
  byDateDesc a b =
    (match parseDate (date b) with Some z => z | None => 0 end
     - match parseDate (date a) with Some z => z | None => 0 end)%Z.
Proof.
  intros Ha Hb. unfold byDateDesc.
  destruct (parseDate (date a)), (parseDate (date b)); congruence.
Qed.

Lemma datedAt_key (z : Z) (t : Transaction) :
  parseDate (date t) <> None ->
  datedAt z t =
    (match parseDate (date t) with Some x => x | None => 0 end =? z)%Z.
Proof.
  intros H. unfold datedAt. destruct (parseDate (date t)); congruence.
Qed.

Lemma filtered_sorted (f : Filters) (txs : list Transaction) :
  (forall t, In t txs -> matches f t = true -> parseDate (date t) <> None) ->
  StronglySorted
    (fun a b => JS.time_ge (parseDate (date a)) (parseDate (date b)) = true)
    (filteredTransactions f txs).
Proof.
  intros Hvalid.
  assert (Hok : Forall (fun t : Transaction => parseDate (date t) <> None)
                  (filter (matches f) txs)).
  { apply Forall_forall. intros t Ht. apply filter_In in Ht.
    apply Hvalid; tauto. }
  pose proof (sort_sorted_key byDateDesc
                (fun t => match parseDate (date t) with
                          | Some z => z | None => 0%Z end)
                (fun t => parseDate (date t) <> None)
                byDateDesc_key _ Hok) as Hs.
  pose proof (sort_ok byDateDesc _ _ Hok) as Hall.
  unfold filteredTransactions.
  induction Hs as [|x s Hs IH Hx]; [constructor|].
  inversion Hall as [|? ? Hokx Hoks]; subst.
  constructor; [apply IH; exact Hoks|].
  rewrite Forall_forall in *. intros y Hy.
  specialize (Hx y Hy). specialize (Hoks y Hy). cbn beta in Hx, Hoks.
  destruct (parseDate (date x)), (parseDate (date y)); try congruence.
  cbn. apply Z.leb_le. exact Hx.
Qed.

(** The filtered list holds the transactions the filters admit, each as
    often as the log does. Where the dates of those transactions are
    valid it runs from the newest to the oldest, and transactions of the
    same instant stand in the order they have in the log. *)
Theorem filtered_list_runs_newest_first
    (f : Filters) (txs : list Transaction) :
  Permutation (filteredTransactions f txs) (filter (matches f) txs) /\
  ((forall t, In t txs -> matches f t = true -> parseDate (date t) <> None) ->
   StronglySorted
     (fun a b => JS.time_ge (parseDate (date a)) (parseDate (date b)) = true)
     (filteredTransactions f txs) /\
   forall z,
     filter (datedAt z) (filteredTransactions f txs) =
     filter (datedAt z) (filter (matches f) txs)).
Proof.
  split; [apply sort_perm|]. intros Hvalid.
  split; [apply filtered_sorted; exact Hvalid|]. intros z.
  assert (Hok : Forall (fun t : Transaction => parseDate (date t) <> None)
                  (filter (matches f) txs)).
  { apply Forall_forall. intros t Ht. apply filter_In in Ht.
    apply Hvalid; tauto. }
  pose proof (sort_class_key byDateDesc
                (fun t => match parseDate (date t) with
                          | Some x => x | None => 0%Z end)
                (fun t => parseDate (date t) <> None)
                byDateDesc_key (fun _ => true) z _ Hok) as Hc.
  cbn [andb] in Hc. unfold filteredTransactions.
  erewrite filter_ext_in;
    [erewrite (filter_ext_in _ _ (filter (matches f) txs))|].
  - exact Hc.
  - intros t Ht. apply datedAt_key.
    rewrite Forall_forall in Hok. now apply Hok.
  - intros t Ht. apply datedAt_key. apply sort_In in Ht.
    rewrite Forall_forall in Hok. now apply Hok.
Qed.

Lemma filtered_nil (f : Filters) (txs : list Transaction) :
  (forall t, In t txs -> matches f t = false) ->
  filteredTransactions f txs = [].
Proof.
  intros H. unfold filteredTransactions. now rewrite (filter_none _ _ H).
Qed.

(** The filters at their edges. Reset, they list the whole log. A date
    bound, once set, hides every transaction whose date is not valid; a
    bound that is itself not a valid date, and a start that lies at or
    after the day following the end, leave nothing listed. A location
    other than ["All"] and a type list only the transactions of that
    location and of that type. *)
Theorem filters_at_their_edges (f : Filters) (txs : list Transaction) :
  Permutation (filteredTransactions resetFilters txs) txs /\
  (startDate f <> "" \/ endDate f <> "" ->
   forall t, In t (filteredTransactions f txs) ->
     parseDate (date t) <> None) /\
  (startDate f <> "" -> parseDate (startDate f) = None ->
   filteredTransactions f txs = []) /\
  (endDate f <> "" -> parseDate (endDate f) = None ->
   filteredTransactions f txs = []) /\
  (forall s e,
     startDate f <> "" -> endDate f <> "" ->
     parseDate (startDate f) = Some s -> parseDate (endDate f) = Some e ->
     (nextDay e <= s)%Z ->
     filteredTransactions f txs = []) /\
  (filterLocation f <> "All" ->
   forall t, In t (filteredTransactions f txs) ->
     location t = filterLocation f) /\
  (forall k, filterType f = OnlyType k ->
   forall t, In t (filteredTransactions f txs) -> type t = k).
Proof.
  split; [|split; [|split; [|split; [|split; [|split]]]]].
  - unfold filteredTransactions. rewrite sort_perm.
    replace (filter (matches resetFilters) txs) with txs; [reflexivity|].
    induction txs as [|t l IH]; cbn; [reflexivity|]. now rewrite <- IH.
  - intros Hset t Ht. apply filtered_In in Ht. destruct Ht as [_ Hm].
    apply matches_spec in Hm. destruct Hm as (_ & _ & Hs & He).
    unfold matchesStart, matchesEnd in *.
    destruct (parseDate (date t)); [discriminate|].
    destruct Hset as [H|H]; rewrite (truthy_nonempty _ H) in *; discriminate.
  - intros Hset Hbad. apply filtered_nil. intros t _.
    unfold matches, matchesStart. rewrite (truthy_nonempty _ Hset), Hbad.
    destruct (parseDate (date t)); cbn; apply andb_false_r.
  - intros Hset Hbad. apply filtered_nil. intros t _.
    unfold matches, matchesEnd. rewrite (truthy_nonempty _ Hset), Hbad.
    destruct (parseDate (date t)); cbn; rewrite ?andb_false_r; reflexivity.
  - intros s e Hs He Ps Pe Hle. apply filtered_nil. intros t _.
    unfold matches, matchesStart, matchesEnd.
    rewrite (truthy_nonempty _ Hs), (truthy_nonempty _ He), Ps, Pe.
    destruct (parseDate (date t)) as [x|]; cbn;
      [|rewrite ?andb_false_r; reflexivity].
    destruct (Z.leb_spec s x), (Z.ltb_spec x (nextDay e)); cbn;
      rewrite ?andb_false_r; try reflexivity. lia.
  - intros Hloc t Ht. apply filtered_In in Ht. destruct Ht as [_ Hm].
    apply matches_spec in Hm. destruct Hm as (_ & Hl & _).
    unfold matchesLocation in Hl. apply orb_true_iff in Hl.
    destruct Hl as [Hl|Hl]; apply String.eqb_eq in Hl; congruence.
  - intros k Hk t Ht. apply filtered_In in Ht. destruct Ht as [_ Hm].
    apply matches_spec in Hm. destruct Hm as (Hty & _).
    unfold matchesType in Hty. rewrite Hk in Hty.
    destruct (type t), k; (reflexivity || discriminate).
Qed.

(** A floor's last activity is the date of the first transaction listed
    under it unless a transaction listed after that one compares later
    than the date held at its turn. It is thus the date of the first one
    whenever no other compares later than it: when that date is not valid,
    no comparison with it succeeding, and, the valid dates of the filtered
    list running from the newest to the oldest, for every floor of the
    summary of such a list. *)
Theorem last_activity_is_first_date_unless_later
    (filtered : list Transaction) (fs : list Floor) :
  floorSummary filtered = Some fs ->
  forall e, In e fs ->
    exists t0 rest,
      locationTransactions filtered e = t0 :: rest /\
      Floor.lastActivity e = fold_left later rest (date t0) /\
      ((forall t, In t rest ->
          JS.time_gt (parseDate (date t)) (parseDate (date t0)) = false) ->
       Floor.lastActivity e = date t0) /\
      (parseDate (date t0) = None -> Floor.lastActivity e = date t0) /\
      (forall f txs,
         filtered = filteredTransactions f txs ->
         (forall t, In t filtered -> parseDate (date t) <> None) ->
         Floor.lastActivity e = date t0).
Proof.
  intros Hfs e Hin.
  pose proof (floorSummary_lastActivity filtered fs e Hfs Hin) as Hlast.
  pose proof (floorSummary_entry filtered fs e Hfs Hin)
    as (_ & _ & _ & _ & _ & Hne & _).
  unfold locationTransactions.
  change (fun t : Transaction => location t =? Floor.location e)
    with (atLocation (num := num) (Floor.location e)).
  destruct (filter (atLocation (Floor.location e)) filtered)
    as [|t0 rest] eqn:El; [destruct Hne|].
  exists t0, rest. split; [reflexivity|]. cbn [lastOf] in Hlast.
  split; [exact Hlast|]. split; [|split].
  - intros H. rewrite Hlast. now apply fold_later_stays.
  - intros Hnan. rewrite Hlast. apply fold_later_stays. intros t _.
    rewrite Hnan. unfold JS.time_gt, JS.time_lt.
    destruct (parseDate (date t)); reflexivity.
  - intros f txs Ef Hvalid. rewrite Hlast. apply fold_later_stays.
    assert (Hs : StronglySorted
              (fun a b : Transaction =>
                 JS.time_ge (parseDate (date a)) (parseDate (date b)) = true)
              (t0 :: rest)).
    { rewrite <- El. apply StronglySorted_filter. rewrite Ef.
      apply filtered_sorted. intros t Ht Hm. apply Hvalid. rewrite Ef.
      apply filtered_In. tauto. }
    inversion Hs as [|? ? _ Hall]; subst. rewrite Forall_forall in Hall.
    intros t Ht. specialize (Hall t Ht).
    unfold JS.time_ge in Hall. unfold JS.time_gt, JS.time_lt.
    destruct (parseDate (date t0)), (parseDate (date t)); try discriminate.
    apply Z.leb_le in Hall. apply Z.ltb_ge. exact Hall.
Qed.

(** *** The choices of the location filter *)

Lemma sorted_distinct_strict (l : list string) :
  NoDup l ->
  StronglySorted (fun a b => (JS.Str.defaultCompare a b <= 0)%Z) l ->
  StronglySorted (fun a b => String.compare a b = Lt) l.
Proof.
  intros ND Hs. induction Hs as [|x l Hs IH Hx]; [constructor|].
  inversion ND as [|? ? Hnotin ND']; subst.
  constructor; [apply IH; exact ND'|].
  rewrite Forall_forall in *. intros y Hy. specialize (Hx y Hy).
  apply defaultCompare_le in Hx.
  destruct (String.compare x y) eqn:E; [|reflexivity|congruence].
  apply String.compare_eq_iff in E. subst. contradiction.
Qed.

(** The location filter offers every location of the log, filtered or
    not, once, in ascending order of the code units of the names; every
    location of a filtered list is among the choices. *)
Theorem location_choices_are_distinct_and_sorted (txs : list Transaction) :
  NoDup (allLocations txs) /\
  (forall loc, In loc (allLocations txs) <->
               exists t, In t txs /\ location t = loc) /\
  StronglySorted (fun a b => String.compare a b = Lt) (allLocations txs) /\
  (forall f t, In t (filteredTransactions f txs) ->
               In (location t) (allLocations txs)).
Proof.
  assert (Hin : forall loc, In loc (allLocations txs) <->
                  exists t, In t txs /\ location t = loc).
  { intros loc. unfold allLocations.
    rewrite sort_In, newSet_In, in_map_iff. split.
    - intros (t & E & Ht). eauto.
    - intros (t & Ht & E). eauto. }
  assert (ND : NoDup (allLocations txs)).
  { unfold allLocations. eapply Permutation_NoDup;
      [symmetry; apply sort_perm|apply newSet_NoDup]. }
  split; [exact ND|]. split; [exact Hin|]. split.
  - apply sorted_distinct_strict; [exact ND|]. unfold allLocations.
    apply (sort_sorted_le JS.Str.defaultCompare (fun _ => True)).
    + intros a b _ _. apply defaultCompare_total.
    + intros a b c _ _ _. apply defaultCompare_trans.
    + apply Forall_forall. intros; exact I.
  - intros f t Ht. apply Hin. exists t. apply filtered_In in Ht.
    split; [tauto|reflexivity].
Qed.

(** *** Counting *)

Lemma list_sum_perm (l l' : list nat) :
  Permutation l l' -> list_sum l = list_sum l'.
Proof. unfold list_sum. induction 1; cbn in *; lia. Qed.

Lemma list_sum_add {A} (f g : A -> nat) (l : list A) :
  list_sum (map (fun x => f x + g x) l) =
  list_sum (map f l) + list_sum (map g l).
Proof. unfold list_sum. induction l as [|x l IH]; cbn in *; lia. Qed.

Lemma list_sum_one (x : string) (ks : list string) :
  NoDup ks -> In x ks ->
  list_sum (map (fun k => if x =? k then 1 else 0) ks) = 1.
Proof.
  induction ks as [|k ks IH]; cbn; [tauto|]. intros ND Hin.
  inversion ND as [|? ? Hnotin ND']; subst.
  destruct (String.eqb_spec x k) as [E|E].
  - subst. f_equal. clear IH Hin ND ND'.
    induction ks as [|k' ks IHk]; cbn; [reflexivity|].
    destruct (String.eqb_spec k k') as [E|E].
    + exfalso. apply Hnotin. now left.
    + apply IHk. intros H. apply Hnotin. now right.
  - destruct Hin as [Hin|Hin]; [congruence|]. now apply IH.
Qed.

Lemma list_sum_zero {A} (l : list A) : list_sum (map (fun _ => 0) l) = 0.
Proof. unfold list_sum. induction l; cbn; auto. Qed.

(** The transactions that satisfy [p], counted location by location. *)
Lemma count_by_location (p : Transaction -> bool) (ks : list string)
    (l : list Transaction) :
  NoDup ks -> (forall t, In t l -> In (location t) ks) ->
  list_sum (map (fun k =>
              List.length (filter (fun t => p t && atLocation k t) l)) ks) =
  List.length (filter p l).
Proof.
  intros ND. induction l as [|t l IH]; intros Hin; cbn [filter].
  - cbn. apply list_sum_zero.
  - rewrite (map_ext _ (fun k =>
      (if p t && (location t =? k) then 1 else 0) +
      List.length (filter (fun t => p t && atLocation k t) l))).
    2:{ intros k. unfold atLocation at 1.
        destruct (p t && (location t =? k)); reflexivity. }
    rewrite list_sum_add, IH by (intros t' H; apply Hin; now right).
    destruct (p t); cbn [andb List.length].
    + rewrite list_sum_one; [lia|exact ND|apply Hin; now left].
    + rewrite list_sum_zero. reflexivity.
Qed.

Lemma map_entries {B} (g : Floor -> B) (h : string -> B) (m : JS.Obj Floor) :
  (forall k e, In (k, e) m -> g e = h k) ->
  map g (JS.values m) = map h (JS.keys m).
Proof.
  induction m as [|[k e] m IH]; intros H; [reflexivity|].
  cbn. f_equal; [apply H; now left|].
  apply IH. intros k' e' Hin. apply H. now right.
Qed.

(** The statistics count what the summary lists: as many distinct
    locations as the summary has floors, as many issue and receive
    transactions as the floors count together, every transaction of the
    list being counted once; a floor counts the issue and the receive
    transactions listed under it; and the distinct items are the item
    names of the list, each counted once. *)
Theorem statistics_count_what_the_summary_lists
    (filtered : list Transaction) (fs : list Floor) :
  floorSummary filtered = Some fs ->
  Stats.uniqueLocations (stats filtered) = List.length fs /\
  list_sum (map Floor.issued fs) = Stats.totalIssued (stats filtered) /\
  list_sum (map Floor.received fs) = Stats.totalReceived (stats filtered) /\
  list_sum (map activity fs) = List.length filtered /\
  (forall e, In e fs ->
     Floor.issued e =
       List.length (filter isIssue (locationTransactions filtered e)) /\
     Floor.received e =
       List.length (filter isReceive (locationTransactions filtered e))) /\
  exists names,
    NoDup names /\
    (forall n, In n names <-> In n (map itemName filtered)) /\
    Stats.uniqueItems (stats filtered) = List.length names.
Proof.
  intros Hfs.
  destruct (floorSummary_Some _ _ Hfs) as (m & Hrun & Efs & Hok).
  destruct Hok as (ND & Hent & Hseen).
  assert (Hperm : Permutation fs (JS.values m)).
  { rewrite Efs. apply sort_perm. }
  assert (Hcount : forall (g : Floor -> nat) (p : Transaction -> bool),
            (forall k e, In (k, e) m ->
               g e = List.length (filter (fun t => p t && atLocation k t)
                                    filtered)) ->
            list_sum (map g fs) = List.length (filter p filtered)).
  { intros g p Hg.
    rewrite (list_sum_perm _ _ (Permutation_map g Hperm)).
    rewrite (map_entries g _ m Hg).
    apply count_by_location; [exact ND|exact Hseen]. }
  split; [|split; [|split; [|split; [|split]]]].
  - cbn [stats Stats.uniqueLocations].
    rewrite (Permutation_length Hperm). unfold JS.values.
    rewrite length_map, <- (length_map fst m).
    apply Permutation_length, NoDup_Permutation;
      [apply newSet_NoDup|exact ND|].
    intros loc. rewrite newSet_In. split.
    + intros Hin. apply in_map_iff in Hin. destruct Hin as (t & <- & Ht).
      now apply Hseen.
    + intros Hin. apply in_map_iff in Hin.
      destruct Hin as ([k e] & E & Hin). cbn in E. subst k.
      destruct (Hent _ _ Hin) as (_ & _ & _ & _ & _ & H6 & _).
      apply in_map_iff in H6. destruct H6 as (t & _ & Ht).
      apply filter_In in Ht. destruct Ht as [Ht Hat].
      unfold atLocation in Hat. apply String.eqb_eq in Hat.
      rewrite <- Hat. now apply in_map.
  - cbn [stats Stats.totalIssued]. apply Hcount. intros k e Hin.
    apply (Hent _ _ Hin).
  - cbn [stats Stats.totalReceived]. apply Hcount. intros k e Hin.
    apply (Hent _ _ Hin).
  - rewrite (Hcount activity (fun _ => true)).
    + f_equal. clear. induction filtered as [|t l IH]; cbn; [reflexivity|].
      now rewrite IH.
    + intros k e Hin. cbn [andb]. apply entryOK_activity.
      now apply Hent.
  - intros e Hin.
    destruct (floorSummary_entry _ _ _ Hfs Hin) as (_ & H2 & H3 & _).
    unfold locationTransactions. rewrite !filter_filter.
    rewrite H2, H3. split; f_equal; apply filter_ext; intros t;
      unfold issuedAt, receivedAt, atLocation; apply andb_comm.
  - exists (JS.newSet (map itemName filtered)).
    split; [apply newSet_NoDup|]. split; [apply newSet_In|reflexivity].
Qed.

(** *** The summary of a filtered list *)

Lemma summary_locations (filtered : list Transaction) (fs : list Floor) :
  floorSummary filtered = Some fs ->
  NoDup (map Floor.location fs) /\
  (forall loc, In loc (map Floor.location fs) <->
               In loc (map location filtered)).
Proof.
  intros Hfs.
  destruct (floorSummary_Some _ _ Hfs) as (m & Hrun & Efs & Hok).
  destruct Hok as (ND & Hent & Hseen).
  assert (Hlocs : map Floor.location (JS.values m) = JS.keys m).
  { rewrite <- (map_id (JS.keys m)). apply map_entries.
    intros k e Hin. apply (Hent k e Hin). }
  assert (Hperm : Permutation (map Floor.location fs) (JS.keys m)).
  { rewrite <- Hlocs, Efs. apply Permutation_map, sort_perm. }
  split; [eapply Permutation_NoDup; [symmetry; exact Hperm|exact ND]|].
  intros loc. split.
  - intros Hin. apply (Permutation_in _ Hperm) in Hin.
    unfold JS.keys in Hin. apply in_map_iff in Hin.
    destruct Hin as ([k e] & E & Hin). cbn in E. subst k.
    destruct (Hent loc e Hin) as (_ & _ & _ & _ & _ & H6 & _).
    apply in_map_iff in H6. destruct H6 as (t & _ & Ht).
    apply filter_In in Ht. destruct Ht as [Ht Hat].
    unfold atLocation in Hat. apply String.eqb_eq in Hat.
    rewrite <- Hat. now apply in_map.
  - intros Hin. apply in_map_iff in Hin. destruct Hin as (t & <- & Ht).
    apply (Permutation_in _ (Permutation_sym Hperm)). auto.
Qed.

Lemma filtered_location (f : Filters) (txs : list Transaction) t :
  filterLocation f <> "All" -> In t (filteredTransactions f txs) ->
  location t = filterLocation f.
Proof.
  intros Hloc Ht. apply filtered_In in Ht. destruct Ht as [_ Hm].
  apply matches_spec in Hm. destruct Hm as (_ & Hl & _).
  unfold matchesLocation in Hl. apply orb_true_iff in Hl.
  destruct Hl as [Hl|Hl]; apply String.eqb_eq in Hl; congruence.
Qed.

Lemma filtered_type (f : Filters) (txs : list Transaction) k t :
  filterType f = OnlyType k -> In t (filteredTransactions f txs) ->
  type t = k.
Proof.
  intros Hk Ht. apply filtered_In in Ht. destruct Ht as [_ Hm].
  apply matches_spec in Hm. destruct Hm as (Hty & _).
  unfold matchesType in Hty. rewrite Hk in Hty.
  destruct (type t), k; (reflexivity || discriminate).
Qed.

Lemma filter_all {A} (p : A -> bool) (l : list A) :
  (forall x, In x l -> p x = true) -> filter p l = l.
Proof.
  induction l as [|x l IH]; cbn; intros H; [reflexivity|].
  rewrite (H x (or_introl eq_refl)). f_equal. apply IH.
  intros y Hy. apply H. now right.
Qed.

(** The filters shape the summary of the list they give. With a
    location chosen, the summary is empty when nothing is listed and
    otherwise has the one floor of that location, which counts the whole
    list. With the type narrowed to issues no floor and no item of a
    floor shows anything received, and with the type narrowed to receipts
    none shows anything issued. *)
Theorem filters_shape_the_summary
    (f : Filters) (txs : list Transaction) (fs : list Floor) :
  floorSummary (filteredTransactions f txs) = Some fs ->
  (filterLocation f <> "All" ->
   (filteredTransactions f txs = [] /\ fs = []) \/
   exists e,
     fs = [e] /\ Floor.location e = filterLocation f /\
     activity e = List.length (filteredTransactions f txs)) /\
  (filterType f = OnlyType ISSUE ->
   forall e, In e fs ->
     Floor.received e = 0 /\ Floor.receivedQty e = num_zero /\
     forall name b, In (name, b) (Floor.items e) ->
       Breakdown.received b = num_zero) /\
  (filterType f = OnlyType RECEIVE ->
   forall e, In e fs ->
     Floor.issued e = 0 /\ Floor.issuedQty e = num_zero /\
     forall name b, In (name, b) (Floor.items e) ->
       Breakdown.issued b = num_zero).
Proof.
  intros Hfs.
  destruct (summary_locations _ _ Hfs) as (ND & Hlocs).
  split; [|split].
  - intros Hloc.
    assert (Hall : forall e, In e fs -> Floor.location e = filterLocation f).
    { intros e He.
      assert (Hin : In (Floor.location e) (map Floor.location fs))
        by now apply in_map.
      apply Hlocs in Hin. apply in_map_iff in Hin.
      destruct Hin as (t & <- & Ht). now apply (filtered_location f txs). }
    destruct fs as [|e fs'].
    + left. split; [|reflexivity].
      destruct (filteredTransactions f txs) as [|t l]; [reflexivity|].
      exfalso. apply (proj2 (Hlocs (location t))). now left.
    + right. exists e.
      assert (Hnil : fs' = []).
      { destruct fs' as [|e' fs'']; [reflexivity|]. exfalso.
        cbn in ND. inversion ND as [|? ? Hnotin _]; subst. apply Hnotin.
        left. rewrite (Hall e), (Hall e'); cbn; auto. }
      subst fs'. split; [reflexivity|].
      split; [apply Hall; now left|].
      rewrite (entryOK_activity (filteredTransactions f txs)
                 (Floor.location e) e)
        by (eapply floorSummary_entry; [exact Hfs|now left]).
      f_equal. apply filter_all. intros t Ht. unfold atLocation.
      rewrite (filtered_location f txs t Hloc Ht), (Hall e) by now left.
      apply String.eqb_refl.
  - intros Hk e He.
    destruct (floorSummary_entry _ _ _ Hfs He) as (_ & _ & H3 & _ & H5 & _).
    assert (Hnone : forall p : Transaction -> bool,
              filter (fun t => isReceive t && p t)
                     (filteredTransactions f txs) = []).
    { intros p. apply filter_none. intros t Ht. unfold isReceive.
      now rewrite (filtered_type f txs ISSUE t Hk Ht). }
    unfold receivedAt in H3, H5.
    rewrite (Hnone (atLocation (Floor.location e))) in H3, H5.
    split; [exact H3|]. split; [exact H5|].
    intros name b Hb.
    destruct (floorSummary_items _ _ _ Hfs He) as (_ & Hent & _).
    destruct (Hent _ _ Hb) as (_ & Hr & _).
    rewrite filter_filter in Hr. rewrite Hr.
    erewrite filter_ext; [rewrite (Hnone (itemAt (Floor.location e) name));
                          reflexivity|].
    intros t. apply andb_comm.
  - intros Hk e He.
    destruct (floorSummary_entry _ _ _ Hfs He) as (_ & H2 & _ & H4 & _).
    assert (Hnone : forall p : Transaction -> bool,
              filter (fun t => isIssue t && p t)
                     (filteredTransactions f txs) = []).
    { intros p. apply filter_none. intros t Ht. unfold isIssue.
      now rewrite (filtered_type f txs RECEIVE t Hk Ht). }
    unfold issuedAt in H2, H4.
    rewrite (Hnone (atLocation (Floor.location e))) in H2, H4.
    split; [exact H2|]. split; [exact H4|].
    intros name b Hb.
    destruct (floorSummary_items _ _ _ Hfs He) as (_ & Hent & _).
    destruct (Hent _ _ Hb) as (Hi & _).
    rewrite filter_filter in Hi. rewrite Hi.
    erewrite filter_ext; [rewrite (Hnone (itemAt (Floor.location e) name));
                          reflexivity|].
    intros t. apply andb_comm.
Qed.

(** *** The order of the items of a floor *)

(** The keys of an object whose properties were created in the order of
    the first occurrences in [names]: those that are array indices first,
    in ascending order, then the others as they first occur. *)
Lemma setOwn_key_order {V} (names : list string) (o : JS.Obj V) k (v : V) :
  (exists I,
     JS.keys o = I ++ JS.newSet (filter plainName names) /\
     Forall (fun k => plainName k = false) I /\ StronglySorted indexLe I) ->
  exists I,
    JS.keys (JS.setOwn k v o) =
      I ++ JS.newSet (filter plainName (names ++ [k])) /\
    Forall (fun k => plainName k = false) I /\ StronglySorted indexLe I.
Proof.
  intros (I & E & HI & Hs). rewrite filter_snoc. unfold JS.setOwn.
  destruct (JS.getOwn k o) as [v0|] eqn:G.
  - rewrite (replace_keys _ _ _ _ G). exists I.
    split; [|split; assumption]. rewrite E. f_equal.
    destruct (plainName k) eqn:P; [|reflexivity].
    rewrite newSet_snoc. unfold JS.setAdd.
    assert (Hin : In k (JS.newSet (filter plainName names))).
    { apply getOwn_In in G.
      assert (Hk : In k (JS.keys o)).
      { unfold JS.keys. change k with (fst (k, v0)). now apply in_map. }
      rewrite E in Hk. apply in_app_or in Hk. destruct Hk as [Hk|Hk]; auto.
      rewrite Forall_forall in HI. specialize (HI k Hk). congruence. }
    apply includes_In in Hin. now rewrite Hin.
  - apply getOwn_None in G.
    destruct (plainName k) eqn:P.
    + destruct (place_split k v o) as (o1 & o2 & E1 & E2 & E3).
      unfold plainName in P.
      destruct (JS.arrayIndex k) eqn:AI; [discriminate|].
      rewrite (E3 eq_refl) in *. rewrite app_nil_r in E1. subst o1.
      exists I. split; [|split; assumption].
      rewrite E2. unfold JS.keys in *. rewrite map_app. cbn [map fst].
      rewrite E, <- app_assoc. f_equal.
      rewrite newSet_snoc. unfold JS.setAdd.
      rewrite includes_false; [reflexivity|].
      intros Hin. apply G. rewrite E. apply in_or_app. now right.
    + unfold plainName in P.
      destruct (JS.arrayIndex k) as [n|] eqn:AI; [|discriminate].
      destruct (place_index k n v AI I _ o E HI) as (I' & E' & Hperm & Hs').
      * apply newSet_plain. apply Forall_forall. intros x Hx.
        apply filter_In in Hx. tauto.
      * exact Hs.
      * exists I'. split; [exact E'|]. split; [|exact Hs'].
        eapply Permutation_Forall; [symmetry; exact Hperm|].
        constructor; [|exact HI]. unfold plainName. now rewrite AI.
Qed.

(** The rows of a floor's item table, which are the entries of its
    [items] as [Object.entries] gives them, stand in the order in which
    the item names first occur among the transactions listed under the
    floor, except that names that are array indices stand in front of the
    others, in ascending order of the index. *)
Theorem floor_item_rows_follow_first_occurrence
    (filtered : list Transaction) (fs : list Floor) e :
  floorSummary filtered = Some fs -> In e fs ->
  exists I,
    JS.keys (Floor.items e) =
      I ++ JS.newSet (filter plainName
                        (map itemName (locationTransactions filtered e))) /\
    Forall (fun name => plainName name = false) I /\
    StronglySorted indexLe I.
Proof.
  unfold locationTransactions.
  change (fun t : Transaction => location t =? Floor.location e)
    with (atLocation (num := num) (Floor.location e)).
  apply (floorSummary_invariant
           (fun seen k e =>
              exists I,
                JS.keys (Floor.items e) =
                  I ++ JS.newSet (filter plainName
                                    (map itemName
                                       (filter (atLocation k) seen))) /\
                Forall (fun name => plainName name = false) I /\
                StronglySorted indexLe I)).
  - intros seen k e0 t Hne H. rewrite filter_snoc. unfold atLocation at 1.
    destruct (String.eqb_spec (location t) k); [contradiction|exact H].
  - intros seen t e0 _ H. rewrite filter_snoc. unfold atLocation at 1.
    rewrite String.eqb_refl, map_app, visit_items. cbn [map].
    unfold countItem. apply setOwn_key_order. exact H.
  - intros seen t Hnew. rewrite filter_snoc. unfold atLocation at 1.
    rewrite String.eqb_refl.
    rewrite (filter_none (atLocation (location t)) seen).
    + rewrite visit_items. unfold countItem.
      change (map itemName ([] ++ [t])) with ([] ++ [itemName t]).
      apply setOwn_key_order. exists []. repeat split; constructor.
    + intros t' Hin. unfold atLocation.
      destruct (String.eqb_spec (location t') (location t)) as [E|E];
        [|reflexivity].
      exfalso. exact (Hnew t' Hin E).
Qed.

End ReportsMore.

(** *** More sample logs *)

Lemma floor_items_add_up_listed_transactions_witness :
  let lobby := hd Sample.noFloor (Sample.floors Sample.log) in
  Sample.floorSummary Sample.log = Some (Sample.floors Sample.log) /\
  Floor.location lobby = "Lobby" /\
  Floor.items lobby =
    [("Bolt", {| Breakdown.issued := 5%Z; Breakdown.received := 10%Z;
                 Breakdown.unit := "box";
                 Breakdown.persons := ["Asha"; "Ravi"] |})] /\
  Breakdown.persons
    {| Breakdown.issued := 5%Z; Breakdown.received := 10%Z;
       Breakdown.unit := "box"; Breakdown.persons := ["Asha"; "Ravi"] |} =
    JS.newSet ["Asha"; "Ravi"; "Asha"].
Proof.
  cbv zeta. split; [reflexivity|]. split; [reflexivity|].
  split; [reflexivity|].
  destruct (@floor_items_add_up_listed_transactions Z Sample.ZNumber
              Sample.UtcDates Sample.log (Sample.floors Sample.log) eq_refl
              (hd Sample.noFloor (Sample.floors Sample.log)))
    as (_ & _ & _ & Hent).
  - vm_compute. left. reflexivity.
  - destruct (Hent "Bolt"
        {| Breakdown.issued := 5%Z; Breakdown.received := 10%Z;
           Breakdown.unit := "box"; Breakdown.persons := ["Asha"; "Ravi"] |})
      as (_ & _ & Hp & _).
    + vm_compute. left. reflexivity.
    + rewrite Hp. reflexivity.
Defined.

Lemma last_activity_is_first_date_unless_later_witness :
  let lobby := hd Sample.noFloor (Sample.floors Sample.undatedLog) in
  Sample.floorSummary Sample.undatedLog =
    Some (Sample.floors Sample.undatedLog) /\
  @parseDate Sample.UtcDates "soon" = None /\
  Floor.lastActivity lobby = "soon".
Proof.
  cbv zeta. split; [reflexivity|]. split; [reflexivity|].
  destruct (@last_activity_is_first_date_unless_later Z Sample.ZNumber
              Sample.UtcDates Sample.undatedLog
              (Sample.floors Sample.undatedLog) eq_refl
              (hd Sample.noFloor (Sample.floors Sample.undatedLog)))
    as (t0 & rest & Hl & _ & _ & Hnan & _).
  - vm_compute. left. reflexivity.
  - vm_compute in Hl. inversion Hl; subst t0 rest. apply Hnan. reflexivity.
Defined.

Lemma statistics_count_what_the_summary_lists_witness :
  Sample.floorSummary Sample.log = Some (Sample.floors Sample.log) /\
  Stats.uniqueLocations (Sample.stats Sample.log) = 2 /\
  Stats.totalIssued (Sample.stats Sample.log) = 3 /\
  map Floor.issued (Sample.floors Sample.log) = [2; 1].
Proof.
  split; [reflexivity|].
  destruct (@statistics_count_what_the_summary_lists Z Sample.ZNumber
              Sample.UtcDates Sample.log (Sample.floors Sample.log) eq_refl)
    as (Hloc & Hiss & _).
  unfold Sample.stats. rewrite Hloc, <- Hiss. repeat split.
Defined.

Lemma filtered_list_runs_newest_first_witness :
  let f := {| Reports.filterType := Reports.OnlyType ISSUE;
              Reports.filterLocation := "All";
              Reports.startDate := "2024-03-02"; Reports.endDate := "" |} in
  let txs := [Sample.tx "2024-03-02" ISSUE "Nut" 1 "Atrium";
              Sample.tx "2024-03-01" ISSUE "Nut" 2 "Atrium";
              Sample.tx "2024-03-03" RECEIVE "Nut" 3 "Atrium";
              Sample.tx "2024-03-04" ISSUE "Bolt" 4 "Lobby";
              Sample.tx "2024-03-02" ISSUE "Bolt" 5 "Lobby"] in
  map Reports.quantity (Sample.filteredTransactions f txs) = [4; 1; 5]%Z /\
  filter (@Reports.datedAt Z Sample.UtcDates 1709337600000)
    (Sample.filteredTransactions f txs) =
    [Sample.tx "2024-03-02" ISSUE "Nut" 1 "Atrium";
     Sample.tx "2024-03-02" ISSUE "Bolt" 5 "Lobby"].
Proof.
  cbv zeta. split; [reflexivity|].
  destruct (proj2 (@filtered_list_runs_newest_first Z Sample.UtcDates
              {| Reports.filterType := Reports.OnlyType ISSUE;
                 Reports.filterLocation := "All";
                 Reports.startDate := "2024-03-02"; Reports.endDate := "" |}
              [Sample.tx "2024-03-02" ISSUE "Nut" 1 "Atrium";
               Sample.tx "2024-03-01" ISSUE "Nut" 2 "Atrium";
               Sample.tx "2024-03-03" RECEIVE "Nut" 3 "Atrium";
               Sample.tx "2024-03-04" ISSUE "Bolt" 4 "Lobby";
               Sample.tx "2024-03-02" ISSUE "Bolt" 5 "Lobby"]))
    as (_ & Hstable).
  - intros t Hin Hm.
    repeat (destruct Hin as [<-|Hin]; [vm_compute; discriminate|]).
    destruct Hin.
  - unfold Sample.filteredTransactions. rewrite Hstable. reflexivity.
Defined.

Lemma filters_at_their_edges_witness :
  let f := {| Reports.filterType := Reports.AllTypes;
              Reports.filterLocation := "All";
              Reports.startDate := "2024-03-05";
              Reports.endDate := "2024-03-01" |} in
  (@nextDay Sample.UtcDates 1709251200000 <= 1709596800000)%Z /\
  Sample.filteredTransactions f Sample.log = [].
Proof.
  cbv zeta. split; [vm_compute; discriminate|].
  exact (proj1 (proj2 (proj2 (proj2 (proj2
    (@filters_at_their_edges Z Sample.UtcDates
       {| Reports.filterType := Reports.AllTypes;
          Reports.filterLocation := "All";
          Reports.startDate := "2024-03-05";
          Reports.endDate := "2024-03-01" |}
       Sample.log)))))
    1709596800000%Z 1709251200000%Z
    ltac:(discriminate) ltac:(discriminate) eq_refl eq_refl
    ltac:(vm_compute; discriminate)).
Defined.

Lemma filters_shape_the_summary_witness :
  let f := {| Reports.filterType := Reports.OnlyType ISSUE;
              Reports.filterLocation := "Lobby";
              Reports.startDate := ""; Reports.endDate := "" |} in
  let fs := Sample.floors (Sample.filteredTransactions f Sample.log) in
  Sample.floorSummary (Sample.filteredTransactions f Sample.log) = Some fs /\
  map (fun e => (Floor.location e, Floor.issued e)) fs = [("Lobby", 2)] /\
  Floor.received (hd Sample.noFloor fs) = 0.
Proof.
  cbv zeta. split; [reflexivity|]. split; [reflexivity|].
  destruct (@filters_shape_the_summary Z Sample.ZNumber Sample.UtcDates
              {| Reports.filterType := Reports.OnlyType ISSUE;
                 Reports.filterLocation := "Lobby";
                 Reports.startDate := ""; Reports.endDate := "" |}
              Sample.log
              (Sample.floors
                 (Sample.filteredTransactions
                    {| Reports.filterType := Reports.OnlyType ISSUE;
                       Reports.filterLocation := "Lobby";
                       Reports.startDate := ""; Reports.endDate := "" |}
                    Sample.log))
              eq_refl)
    as (_ & Hissue & _).
  apply (Hissue eq_refl). vm_compute. left. reflexivity.
Defined.

Lemma floor_item_rows_follow_first_occurrence_witness :
  let log := [Sample.tx "2024-03-04" ISSUE "Nut" 1 "Lobby";
              Sample.tx "2024-03-03" ISSUE "10" 2 "Lobby";
              Sample.tx "2024-03-02" ISSUE "Bolt" 3 "Lobby";
              Sample.tx "2024-03-01" ISSUE "2" 4 "Lobby";
              Sample.tx "2024-03-01" RECEIVE "Nut" 5 "Lobby"] in
  let e := hd Sample.noFloor (Sample.floors log) in
  Sample.floorSummary log = Some (Sample.floors log) /\
  In e (Sample.floors log) /\
  JS.keys (Floor.items e) = ["2"; "10"; "Nut"; "Bolt"] /\
  exists I,
    JS.keys (Floor.items e) =
      I ++ JS.newSet
             (filter Reports.plainName
                (map Reports.itemName
                   (Reports.locationTransactions log e))) /\
    Forall (fun name => Reports.plainName name = false) I /\
    StronglySorted Reports.indexLe I.
Proof.
  cbv zeta. split; [reflexivity|].
  split; [vm_compute; left; reflexivity|]. split; [reflexivity|].
  eapply (@floor_item_rows_follow_first_occurrence Z Sample.ZNumber
            Sample.UtcDates).
  - reflexivity.
  - vm_compute. left. reflexivity.
Defined.

(** ** Facts about the login form *)

Section StorageFacts.

Lemma getOwn_removeKey_other {V} (k k' : string) (o : JS.Obj V) :
  k' <> k -> JS.getOwn k' (JS.removeKey k o) = JS.getOwn k' o.
Proof.
  intros Hne. unfold JS.removeKey.
  induction o as [|[k0 v0] o IH]; cbn; [reflexivity|].
  destruct (String.eqb_spec k0 k) as [E|E]; cbn.
  - destruct (String.eqb_spec k0 k'); [congruence|exact IH].
  - destruct (String.eqb_spec k0 k'); [reflexivity|exact IH].
Qed.

Lemma getItem_setItem_same (k v : string) (s : Storage.t) :
  Storage.getItem k (Storage.setItem k v s) = Some v.
Proof.
  unfold Storage.getItem, Storage.setItem. cbn. now rewrite String.eqb_refl.
Qed.

Lemma getItem_setItem_other (k k' v : string) (s : Storage.t) :
  k' <> k ->
  Storage.getItem k' (Storage.setItem k v s) = Storage.getItem k' s.
Proof.
  intros Hne. unfold Storage.getItem, Storage.setItem. cbn.
  destruct (String.eqb_spec k k'); [congruence|].
  now apply getOwn_removeKey_other.
Qed.

Lemma getItem_removeItem_same (k : string) (s : Storage.t) :
  Storage.getItem k (Storage.removeItem k s) = None.
Proof.
  unfold Storage.getItem, Storage.removeItem. apply getOwn_None.
  apply removeKey_keys.
Qed.

Lemma getItem_removeItem_other (k k' : string) (s : Storage.t) :
  k' <> k ->
  Storage.getItem k' (Storage.removeItem k s) = Storage.getItem k' s.
Proof. apply getOwn_removeKey_other. Qed.

End StorageFacts.

Section LoginFacts.
Import Login.
Context {World : Type}.
Variable loginUser : string -> string -> World -> LoginResult * World.
Variable trim : string -> string.
Variable readSaved : string -> option (Text * Text).
Variable stringifySaved : string -> string -> string.
Variable stringifyUser : User -> string -> string.
Variable now : World -> string.

Local Abbreviation handleSubmit :=
  (Login.handleSubmit loginUser trim stringifySaved stringifyUser now).
Local Abbreviation mount := (Login.mount readSaved).
Local Abbreviation Sys := (@Login.Sys World).

Lemma keys_differ : userKey <> savedLoginKey.
Proof. discriminate. Qed.

(** A login that [loginUser] refuses leaves the local storage as it
    was and hands no user to [onLogin]: the form shows the message of the
    result, or ["Login failed"] when it has none, and is no longer
    loading; what was typed stays. *)
Theorem refused_login_leaves_storage_alone
    (s : Sys) (e p : string) (result : LoginResult) (w : World) :
  email (form s) = Str e -> password (form s) = Str p ->
  loginUser (trim e) (trim p) (world s) = (result, w) ->
  success result = false \/ user result = None ->
  let s' := snd (handleSubmit s) in
  fst (handleSubmit s) = Returned /\
  storage s' = storage s /\ logins s' = logins s /\ world s' = w /\
  error (form s') = JS.orElse (message result) "Login failed" /\
  error (form s') <> "" /\
  loading (form s') = false /\
  email (form s') = Str e /\ password (form s') = Str p /\
  rememberMe (form s') = rememberMe (form s).
Proof.
  intros He Hp Hcall Hbad. cbv zeta. unfold Login.handleSubmit.
  rewrite He, Hp, Hcall.
  assert (Hbranch :
    match success result, user result with
    | true, Some u => False
    | _, _ => True
    end).
  { destruct Hbad as [-> | ->]; [exact I|].
    destruct (success result); exact I. }
  destruct (success result); [destruct (user result); [destruct Hbranch|]|];
    cbn; rewrite ?He, ?Hp; repeat split;
    unfold JS.orElse, JS.truthy;
    destruct (String.eqb_spec (message result) ""); cbn; congruence.
Qed.

Lemma handleSubmit_accepted
    (s : Sys) (e p : string) (result : LoginResult) (w : World) (u : User) :
  email (form s) = Str e -> password (form s) = Str p ->
  loginUser (trim e) (trim p) (world s) = (result, w) ->
  success result = true -> user result = Some u ->
  handleSubmit s =
    (Returned,
     {| form := set_loading false (set_loading true (set_error "" (form s)));
        storage :=
          Storage.setItem userKey (stringifyUser u (now w))
            (if rememberMe (form s)
             then Storage.setItem savedLoginKey
                    (stringifySaved (user_email u) (trim p)) (storage s)
             else Storage.removeItem savedLoginKey (storage s));
        world := w; logins := logins s ++ [u] |}).
Proof.
  intros He Hp Hcall Hok Hu. unfold Login.handleSubmit.
  rewrite He, Hp, Hcall, Hok, Hu. reflexivity.
Qed.

Lemma saved_login_after_accepted
    (s : Sys) (e p : string) (result : LoginResult) (w : World) (u : User) :
  email (form s) = Str e -> password (form s) = Str p ->
  loginUser (trim e) (trim p) (world s) = (result, w) ->
  success result = true -> user result = Some u ->
  Storage.getItem savedLoginKey (storage (snd (handleSubmit s))) =
    (if rememberMe (form s)
     then Some (stringifySaved (user_email u) (trim p))
     else None).
Proof.
  intros He Hp Hcall Hok Hu.
  rewrite (handleSubmit_accepted s e p result w u He Hp Hcall Hok Hu).
  cbn [snd storage].
  rewrite getItem_setItem_other by (intros E; symmetry in E; revert E;
                                    apply keys_differ).
  destruct (rememberMe (form s));
    [apply getItem_setItem_same|apply getItem_removeItem_same].
Qed.

(** A login that [loginUser] accepts hands its user to [onLogin] once
    and writes the session under ["satyam_mall_user"]. The entry of the
    saved login is, with "remember me" ticked, the address of the result
    with the password as typed and trimmed, and is removed otherwise,
    whatever it held; no other entry of the storage changes. *)
Theorem accepted_login_stores_session
    (s : Sys) (e p : string) (result : LoginResult) (w : World) (u : User) :
  email (form s) = Str e -> password (form s) = Str p ->
  loginUser (trim e) (trim p) (world s) = (result, w) ->
  success result = true -> user result = Some u ->
  let s' := snd (handleSubmit s) in
  fst (handleSubmit s) = Returned /\
  logins s' = logins s ++ [u] /\ world s' = w /\
  Storage.getItem userKey (storage s') = Some (stringifyUser u (now w)) /\
  Storage.getItem savedLoginKey (storage s') =
    (if rememberMe (form s)
     then Some (stringifySaved (user_email u) (trim p))
     else None) /\
  (forall k, k <> userKey -> k <> savedLoginKey ->
     Storage.getItem k (storage s') = Storage.getItem k (storage s)) /\
  loading (form s') = false /\ error (form s') = "".
Proof.
  intros He Hp Hcall Hok Hu. cbv zeta.
  pose proof (saved_login_after_accepted s e p result w u He Hp Hcall Hok Hu)
    as Hsaved.
  rewrite (handleSubmit_accepted s e p result w u He Hp Hcall Hok Hu) in *.
  cbn [fst snd form storage world logins] in *.
  split; [reflexivity|]. split; [reflexivity|]. split; [reflexivity|].
  split; [apply getItem_setItem_same|]. split; [exact Hsaved|]. split.
  - intros k Hk1 Hk2. rewrite getItem_setItem_other by exact Hk1.
    destruct (rememberMe (form s));
      [apply getItem_setItem_other|apply getItem_removeItem_other]; exact Hk2.
  - split; reflexivity.
Qed.

(** What an accepted login with "remember me" ticked saves is what the
    next mount of the form restores, wherever reading the saved text
    gives back the two strings written into it: the address of the
    account, the trimmed password, and the tick. *)
Theorem remembered_login_is_restored_on_mount
    (s : Sys) (e p : string) (result : LoginResult) (w : World) (u : User) :
  email (form s) = Str e -> password (form s) = Str p ->
  loginUser (trim e) (trim p) (world s) = (result, w) ->
  success result = true -> user result = Some u ->
  rememberMe (form s) = true ->
  stringifySaved (user_email u) (trim p) <> "" ->
  readSaved (stringifySaved (user_email u) (trim p)) =
    Some (Str (user_email u), Str (trim p)) ->
  let s' := snd (handleSubmit s) in
  let fresh := mount {| form := initialState; storage := storage s';
                        world := world s'; logins := [] |} in
  email (form fresh) = Str (user_email u) /\
  password (form fresh) = Str (trim p) /\
  rememberMe (form fresh) = true /\
  storage fresh = storage s'.
Proof.
  intros He Hp Hcall Hok Hu Hrem Hne Hread. cbv zeta.
  pose proof (saved_login_after_accepted s e p result w u He Hp Hcall Hok Hu)
    as Hsaved.
  rewrite Hrem in Hsaved.
  unfold Login.mount. cbn [storage]. rewrite Hsaved.
  rewrite (truthy_nonempty _ Hne), Hread. repeat split.
Qed.

(** The mount effect reads one entry of the storage and writes none
    but that one. A saved login that cannot be read is removed and the
    form stays as it was; one that can be read is left in place and fills
    in the form, the tick included; without a saved login, or with an
    empty one, nothing changes. Where what was read for the address or
    for the password is not a string, the next submission, unless the
    field is typed anew, throws before [loginUser] is called and leaves
    the form loading, with the storage as it was. *)
Theorem mount_restores_or_discards_saved_login (s : Sys) :
  let s' := mount s in
  world s' = world s /\ logins s' = logins s /\
  (forall k, k <> savedLoginKey ->
     Storage.getItem k (storage s') = Storage.getItem k (storage s)) /\
  (Storage.getItem savedLoginKey (storage s) = None \/
   Storage.getItem savedLoginKey (storage s) = Some "" -> s' = s) /\
  (forall c, Storage.getItem savedLoginKey (storage s) = Some c ->
     c <> "" -> readSaved c = None ->
     Storage.getItem savedLoginKey (storage s') = None /\
     form s' = form s) /\
  (forall c a b, Storage.getItem savedLoginKey (storage s) = Some c ->
     c <> "" -> readSaved c = Some (a, b) ->
     email (form s') = a /\ password (form s') = b /\
     rememberMe (form s') = true /\ storage s' = storage s) /\
  (email (form s') = NotAString \/ password (form s') = NotAString ->
   fst (handleSubmit s') = ThrewTypeError /\
   loading (form (snd (handleSubmit s'))) = true /\
   storage (snd (handleSubmit s')) = storage s' /\
   world (snd (handleSubmit s')) = world s' /\
   logins (snd (handleSubmit s')) = logins s').
Proof.
  cbv zeta. split; [|split; [|split; [|split; [|split; [|split]]]]].
  - unfold Login.mount.
    destruct (Storage.getItem savedLoginKey (storage s)) as [c|];
      [|reflexivity].
    destruct (JS.truthy c); [|reflexivity].
    destruct (readSaved c) as [[a b]|]; reflexivity.
  - unfold Login.mount.
    destruct (Storage.getItem savedLoginKey (storage s)) as [c|];
      [|reflexivity].
    destruct (JS.truthy c); [|reflexivity].
    destruct (readSaved c) as [[a b]|]; reflexivity.
  - intros k Hk. unfold Login.mount.
    destruct (Storage.getItem savedLoginKey (storage s)) as [c|];
      [|reflexivity].
    destruct (JS.truthy c); [|reflexivity].
    destruct (readSaved c) as [[a b]|]; [reflexivity|].
    cbn [storage]. now apply getItem_removeItem_other.
  - unfold Login.mount. intros [-> | ->]; reflexivity.
  - intros c Hc Hne Hread. unfold Login.mount.
    rewrite Hc, (truthy_nonempty _ Hne), Hread. cbn [storage form].
    split; [apply getItem_removeItem_same|reflexivity].
  - intros c a b Hc Hne Hread. unfold Login.mount.
    rewrite Hc, (truthy_nonempty _ Hne), Hread. repeat split.
  - intros Hbad. unfold Login.handleSubmit.
    destruct Hbad as [-> | ->]; [repeat split|].
    destruct (email (form (mount s))); repeat split.
Qed.

End LoginFacts.

(** *** The login form on the sample account *)

Lemma refused_login_leaves_storage_alone_witness :
  let s := Sample.typed "asha@mall.example" "guess" true in
  Login.storage (snd (Sample.login s)) = Login.storage s /\
  Login.logins (snd (Sample.login s)) = [] /\
  Login.error (Login.form (snd (Sample.login s))) = "Login failed".
Proof.
  cbv zeta.
  destruct (@refused_login_leaves_storage_alone nat Sample.loginUser
              Sample.trim Sample.stringifySaved Sample.stringifyUser
              Sample.now (Sample.typed "asha@mall.example" "guess" true)
              "asha@mall.example" "guess"
              {| Login.success := false; Login.user := None;
                 Login.message := "" |} 1
              eq_refl eq_refl eq_refl (or_introl eq_refl))
    as (_ & Hst & Hl & _ & Herr & _).
  split; [exact Hst|]. split; [exact Hl|exact Herr].
Defined.

Lemma accepted_login_stores_session_witness :
  let s := Sample.typed " Asha@Mall.example " "s3cret " false in
  Login.logins (snd (Sample.login s)) = [Sample.asha] /\
  Storage.getItem Login.savedLoginKey (Login.storage s) =
    Some "ravi@mall.example|old" /\
  Storage.getItem Login.savedLoginKey (Login.storage (snd (Sample.login s))) =
    None /\
  Storage.getItem "theme" (Login.storage (snd (Sample.login s))) =
    Some "dark".
Proof.
  cbv zeta.
  destruct (@accepted_login_stores_session nat Sample.loginUser
              Sample.trim Sample.stringifySaved Sample.stringifyUser
              Sample.now (Sample.typed " Asha@Mall.example " "s3cret " false)
              " Asha@Mall.example " "s3cret "
              {| Login.success := true; Login.user := Some Sample.asha;
                 Login.message := "" |} 1 Sample.asha
              eq_refl eq_refl eq_refl eq_refl eq_refl)
    as (_ & Hl & _ & _ & Hsaved & Hother & _).
  split; [exact Hl|]. split; [reflexivity|]. split; [exact Hsaved|].
  unfold Sample.login. rewrite Hother; [reflexivity|discriminate|discriminate].
Defined.

Lemma remembered_login_is_restored_on_mount_witness :
  let s := Sample.typed " Asha@Mall.example " "s3cret " true in
  let fresh := Sample.mounted (Login.storage (snd (Sample.login s))) in
  Login.email (Login.form fresh) = Login.Str "asha@mall.example" /\
  Login.password (Login.form fresh) = Login.Str "s3cret" /\
  Login.rememberMe (Login.form fresh) = true.
Proof.
  cbv zeta.
  destruct (@remembered_login_is_restored_on_mount nat Sample.loginUser
              Sample.trim Sample.readSaved Sample.stringifySaved
              Sample.stringifyUser Sample.now
              (Sample.typed " Asha@Mall.example " "s3cret " true)
              " Asha@Mall.example " "s3cret "
              {| Login.success := true; Login.user := Some Sample.asha;
                 Login.message := "" |} 1 Sample.asha
              eq_refl eq_refl eq_refl eq_refl eq_refl eq_refl
              ltac:(discriminate) eq_refl)
    as (He & Hp & Hr & _).
  unfold Sample.mounted, Sample.login.
  split; [|split].
  - etransitivity; [|exact He]. reflexivity.
  - etransitivity; [|exact Hp]. reflexivity.
  - etransitivity; [|exact Hr]. reflexivity.
Defined.

Lemma mount_restores_or_discards_saved_login_witness :
  let st := [(Login.savedLoginKey, "not a saved login"); ("theme", "dark")] in
  Sample.readSaved "not a saved login" = None /\
  Storage.getItem Login.savedLoginKey (Login.storage (Sample.mounted st)) =
    None /\
  Login.form (Sample.mounted st) = Login.initialState.
Proof.
  cbv zeta. split; [reflexivity|].
  exact (proj1 (proj2 (proj2 (proj2 (proj2
    (@mount_restores_or_discards_saved_login nat Sample.loginUser
       Sample.trim Sample.readSaved Sample.stringifySaved
       Sample.stringifyUser Sample.now
       {| Login.form := Login.initialState;
          Login.storage := [(Login.savedLoginKey, "not a saved login");
                            ("theme", "dark")];
          Login.world := 0; Login.logins := [] |})))))
    "not a saved login" eq_refl ltac:(discriminate) eq_refl).
Defined.
